(** * MobileSentrix price extractor: a shallow embedding of [app.py]

    The development follows the layout of the source file: helpers (text,
    money regex, currency formatting, the discount rule), the extractors
    over a parsed document, the scrapers and the batch loop.

    Python values are modelled as follows.
    - [str] is a list of Unicode code points ([text]).
    - [float] is an IEEE 754 binary64 value, through the Standard Library's
      executable specification [SpecFloat] at precision 53 and [emax] 1024,
      rounding to nearest, ties to even.
    - [Optional[T]] is [option T]; an exception that leaves a function is the
      [Raise] outcome of [result].
    - The document handed out by [BeautifulSoup(html, 'html.parser')] is a
      tree of elements and strings ([node]); the HTTP session, the pause
      before a request, [json.loads], [urljoin], [urlparse(..).hostname] and
      [str] of a non-string JSON value are fields of a [platform] record the
      scrapers are parametrised by. *)

From Stdlib Require Import ZArith NArith List Bool String Ascii Lia.
From Stdlib Require Import Floats.SpecFloat.
Import ListNotations.

Local Open Scope Z_scope.

Set Warnings "-register-all".

(* ================================================================= *)
(** * Text *)

Definition char := N.
Definition text := list char.

(** [T "abc"] is the text of an ASCII literal. *)
Definition T (s : string) : text := map N_of_ascii (list_ascii_of_string s).

Definition char_eqb (a b : char) : bool := N.eqb a b.

Fixpoint text_eqb (a b : text) : bool :=
  match a, b with
  | [], [] => true
  | x :: a', y :: b' => char_eqb x y && text_eqb a' b'
  | _, _ => false
  end.

(** Python truthiness of a string: non-empty. *)
Definition nonempty (s : text) : bool :=
  match s with [] => false | _ => true end.

(** [a or b] on strings. *)
Definition text_or (a b : text) : text := if nonempty a then a else b.

Definition in_range (lo hi c : N) : bool := (N.leb lo c && N.leb c hi)%bool.

Definition is_digit (c : char) : bool := in_range 48 57 c.

(** Whitespace as [str.isspace] and the regex class [\s] see it on [str]. *)
Definition is_space (c : char) : bool :=
  (in_range 9 13 c || in_range 28 32 c || N.eqb c 133 || N.eqb c 160
   || N.eqb c 5760 || in_range 8192 8202 c || N.eqb c 8232 || N.eqb c 8233
   || N.eqb c 8239 || N.eqb c 8287 || N.eqb c 12288)%bool.

Fixpoint startswith (p s : text) : bool :=
  match p, s with
  | [], _ => true
  | x :: p', y :: s' => char_eqb x y && startswith p' s'
  | _ :: _, [] => false
  end.

Definition endswith (p s : text) : bool := startswith (rev p) (rev s).

(** [p in s] for strings. *)
Fixpoint contains (p s : text) : bool :=
  startswith p s || match s with [] => false | _ :: s' => contains p s' end.

(** [str.lower] and [str.upper].  Only the ASCII letters and the two
    non-ASCII characters whose upper case is an ASCII letter are mapped; no
    other case mapping produces or consumes a character of the hostname
    patterns or of the currency codes looked up below. *)
Definition lower_char (c : char) : char :=
  if in_range 65 90 c then (c + 32)%N else c.

Definition upper_char (c : char) : char :=
  if in_range 97 122 c then (c - 32)%N
  else if N.eqb c 383 then 83%N
  else if N.eqb c 305 then 73%N
  else c.

Definition lower (s : text) : text := map lower_char s.
Definition upper (s : text) : text := map upper_char s.

Fixpoint lstrip (s : text) : text :=
  match s with
  | c :: s' => if is_space c then lstrip s' else s
  | [] => []
  end.

Definition strip (s : text) : text := rev (lstrip (rev (lstrip s))).

(** [re.sub(r'\s+', ' ', s)]: every maximal run of whitespace becomes one
    space. *)
Fixpoint collapse_spaces (in_run : bool) (s : text) : text :=
  match s with
  | [] => []
  | c :: s' =>
      if is_space c
      then if in_run then collapse_spaces true s'
           else 32%N :: collapse_spaces true s'
      else c :: collapse_spaces false s'
  end.

Definition clean_text (s : option text) : text :=
  match s with
  | None => []
  | Some s => if nonempty s then strip (collapse_spaces false s) else []
  end.

(* ================================================================= *)
(** * Floats *)

(** Python's [float]: binary64. *)
Definition float := spec_float.

Definition b64_prec : Z := 53.
Definition b64_emax : Z := 1024.

Definition fadd : float -> float -> float := SFadd b64_prec b64_emax.
Definition fsub : float -> float -> float := SFsub b64_prec b64_emax.
Definition fmul : float -> float -> float := SFmul b64_prec b64_emax.
Definition fdiv : float -> float -> float := SFdiv b64_prec b64_emax.
Definition fltb : float -> float -> bool := SFltb.
Definition fleb : float -> float -> bool := SFleb.
Definition feqb : float -> float -> bool := SFeqb.

(** A value of the format: the mantissa is normalised and the exponent in
    range ([valid_binary] of the Standard Library). *)
Definition is_float (x : float) : bool := valid_binary b64_prec b64_emax x.

(** The float nearest to an integer ([float(n)], and integer literals used
    in float arithmetic). *)
Definition float_of_Z (z : Z) : float :=
  binary_normalize b64_prec b64_emax z 0 false.

(** The float nearest to the fraction [n / d], with sign [neg]: what the
    decimal-to-binary conversion of a numeral denoting [n / d] returns. *)
Definition float_of_ratio (neg : bool) (n d : positive) : float :=
  fdiv (S754_finite neg n 0) (S754_finite false d 0).

(** The float nearest to [M * 10 ^ E], with sign [neg]. *)
Definition float_of_decimal (neg : bool) (M : N) (E : Z) : float :=
  match M with
  | Npos m =>
      match E with
      | Zneg p => float_of_ratio neg m (10 ^ p)
      | Zpos p => float_of_ratio neg (m * 10 ^ p) 1
      | Z0 => float_of_ratio neg m 1
      end
  | N0 => S754_zero neg
  end.

Definition fzero : float := S754_zero false.
Definition fone : float := float_of_Z 1.
Definition f100 : float := float_of_Z 100.

(** The literal [1e-9]. *)
Definition f1e_9 : float := float_of_decimal false 1 (-9).

(** Truthiness of a float: false exactly for the two zeros. *)
Definition float_truthy (x : float) : bool := negb (feqb x fzero).

(** Rounding a non-negative fraction [num / den] to the nearest integer,
    ties to even. *)
Definition round_half_even (num den : Z) : Z :=
  let q := num / den in
  let r := num mod den in
  match 2 * r ?= den with
  | Lt => q
  | Gt => q + 1
  | Eq => if Z.even q then q else q + 1
  end.

(** The magnitude [m * 2 ^ e] in hundredths, correctly rounded. *)
Definition hundredths (m : positive) (e : Z) : Z :=
  match e with
  | Zneg p => round_half_even (Zpos m * 100) (2 ^ Zpos p)
  | _ => Zpos m * 2 ^ e * 100
  end.

(** [round(x, 2)]: the exact value of [x] is rounded to two decimals, ties
    to even, and the decimal result converted back to the nearest float;
    zeros, infinities and NaN round to themselves. *)
Definition py_round2 (x : float) : float :=
  match x with
  | S754_finite s m e =>
      match hundredths m e with
      | Zpos n => float_of_ratio s n 100
      | _ => S754_zero s
      end
  | _ => x
  end.

(** Decimal digits of a natural number. *)
Fixpoint text_of_uint (u : Decimal.uint) : text :=
  match u with
  | Decimal.Nil => []
  | Decimal.D0 u => 48%N :: text_of_uint u
  | Decimal.D1 u => 49%N :: text_of_uint u
  | Decimal.D2 u => 50%N :: text_of_uint u
  | Decimal.D3 u => 51%N :: text_of_uint u
  | Decimal.D4 u => 52%N :: text_of_uint u
  | Decimal.D5 u => 53%N :: text_of_uint u
  | Decimal.D6 u => 54%N :: text_of_uint u
  | Decimal.D7 u => 55%N :: text_of_uint u
  | Decimal.D8 u => 56%N :: text_of_uint u
  | Decimal.D9 u => 57%N :: text_of_uint u
  end.

Definition digits_of_N (n : N) : text := text_of_uint (N.to_uint n).

(** Thousands separators: a comma before every group of three digits,
    counted from the right. *)
Fixpoint group3 (k : nat) (rev_digits : text) : text :=
  match rev_digits with
  | [] => []
  | d :: rest =>
      match k with
      | O => 44%N :: d :: group3 2 rest
      | S k' => d :: group3 k' rest
      end
  end.

Definition group_thousands (digits : text) : text :=
  rev (group3 3 (rev digits)).

(** The format [{val:,.2f}]. *)
Definition format_comma_2f (x : float) : text :=
  let sign (s : bool) : text := if s then T "-" else [] in
  let body (h : Z) : text :=
    let ip := Z.to_N (h / 100) in
    let fp := Z.to_N (h mod 100) in
    group_thousands (digits_of_N ip) ++ T "."
      ++ digits_of_N (fp / 10) ++ digits_of_N (fp mod 10) in
  match x with
  | S754_nan => T "nan"
  | S754_infinity s => sign s ++ T "inf"
  | S754_zero s => sign s ++ body 0
  | S754_finite s m e => sign s ++ body (hundredths m e)
  end.

(** ** [float(s)] on a string

    Whitespace and decimal digits outside ASCII are first brought to ASCII;
    then surrounding ASCII whitespace is dropped, underscores may separate
    digits, and the rest is a signed decimal numeral with optional fraction
    and exponent, or one of [inf], [infinity], [nan] in any letter case.
    [None] stands for [ValueError]. *)

(** The zero digits of the decimal digits outside ASCII, each followed by
    the digits one to nine of its script (Unicode 14.0, the character
    database of Python 3.11). *)
Definition decimal_zeros : list N :=
  [ 1632; 1776; 1984; 2406; 2534; 2662; 2790; 2918; 3046; 3174; 3302; 3430;
    3558; 3664; 3792; 3872; 4160; 4240; 6112; 6160; 6470; 6608; 6784; 6800;
    6992; 7088; 7232; 7248; 42528; 43216; 43264; 43472; 43504; 43600;
    44016; 65296; 66720; 68912; 69734; 69872; 69942; 70096; 70384; 70736;
    70864; 71248; 71360; 71472; 71904; 72016; 72784; 73040; 73120; 92768;
    92864; 93008; 120782; 120792; 120802; 120812; 120822; 123200; 123632;
    125264; 130032 ]%N.

(** The decimal digit value of a character, if it has one. *)
Definition to_decimal (c : char) : option N :=
  match find (fun z => in_range z (z + 9) c) (48%N :: decimal_zeros) with
  | Some z => Some (c - z)%N
  | None => None
  end.

(** What [float] does to a string that is not all ASCII before it reads
    it: a character below 127 stays, whitespace becomes a space, a decimal
    digit becomes its ASCII digit, and anything else ends the string with a
    question mark. *)
Fixpoint to_ascii (s : text) : text :=
  match s with
  | [] => []
  | c :: s' =>
      if N.ltb c 127 then c :: to_ascii s'
      else if is_space c then 32%N :: to_ascii s'
      else match to_decimal c with
           | Some d => (48 + d)%N :: to_ascii s'
           | None => [63%N]
           end
  end.

(** An ASCII string is read as it is. *)
Definition ascii_text (s : text) : text :=
  if forallb (fun c => N.ltb c 128) s then s else to_ascii s.

(** The ASCII whitespace that [float] strips: space, tab, line feed,
    vertical tab, form feed and carriage return. *)
Definition is_ascii_space (c : char) : bool :=
  (in_range 9 13 c || N.eqb c 32)%bool.

Fixpoint lstrip_ascii (s : text) : text :=
  match s with
  | c :: s' => if is_ascii_space c then lstrip_ascii s' else s
  | [] => []
  end.

Definition strip_ascii (s : text) : text :=
  rev (lstrip_ascii (rev (lstrip_ascii s))).

Fixpoint span_digits (s : text) : text * text :=
  match s with
  | c :: s' =>
      if is_digit c
      then let (ds, rest) := span_digits s' in (c :: ds, rest)
      else ([], s)
  | [] => ([], [])
  end.

Definition N_of_digits (ds : text) : N :=
  fold_left (fun acc d => (acc * 10 + (d - 48))%N) ds 0%N.

Fixpoint drop_underscores (prev : char) (s : text) : option text :=
  match s with
  | [] => if N.eqb prev 95 then None else Some []
  | c :: s' =>
      if N.eqb c 95
      then if is_digit prev then drop_underscores c s' else None
      else if (N.eqb prev 95 && negb (is_digit c))%bool then None
      else option_map (cons c) (drop_underscores c s')
  end.

Definition parse_sign (s : text) : bool * text :=
  match s with
  | 45%N :: s' => (true, s')
  | 43%N :: s' => (false, s')
  | _ => (false, s)
  end.

Definition parse_exponent (s : text) : option Z :=
  match s with
  | [] => Some 0
  | c :: s' =>
      if (N.eqb c 101 || N.eqb c 69)%bool
      then let (neg, s2) := parse_sign s' in
           let (ds, rest) := span_digits s2 in
           match ds, rest with
           | _ :: _, [] =>
               let e := Z.of_N (N_of_digits ds) in
               Some (if neg then - e else e)
           | _, _ => None
           end
      else None
  end.

Definition parse_decimal (neg : bool) (s : text) : option float :=
  let (ip, r1) := span_digits s in
  let (fp, r2) :=
    match r1 with
    | 46%N :: r => span_digits r
    | _ => ([], r1)
    end in
  match ip ++ fp with
  | [] => None
  | ds =>
      match parse_exponent r2 with
      | Some e =>
          Some (float_of_decimal neg (N_of_digits ds)
                  (e - Z.of_nat (List.length fp)))
      | None => None
      end
  end.

Definition py_float (s : text) : option float :=
  match drop_underscores 0%N (strip_ascii (ascii_text s)) with
  | None => None
  | Some s1 =>
      let (neg, body) := parse_sign s1 in
      let word := lower body in
      if (text_eqb word (T "inf") || text_eqb word (T "infinity"))%bool
      then Some (S754_infinity neg)
      else if text_eqb word (T "nan") then Some S754_nan
      else parse_decimal neg body
  end.

(* ================================================================= *)
(** * Regular expressions

    A backtracking matcher with the priorities of Python's [re]: greedy
    repetition, alternatives tried left to right, [search] returning the
    match at the leftmost start.  The continuation receives the rest of the
    input and the groups captured so far. *)

Inductive regex : Type :=
| Empty
| Class (p : char -> bool)
| Seq (a b : regex)
| Alt (a b : regex)
| Opt (a : regex)
| Star (a : regex)
| Group (n : nat) (a : regex).

Definition groups := list (nat * text).

Fixpoint group (n : nat) (g : groups) : option text :=
  match g with
  | [] => None
  | (i, s) :: g' => if Nat.eqb i n then Some s else group n g'
  end.

(** The iterations of a starred expression: [ma] matches the body; an
    iteration that consumes nothing is not repeated. *)
Fixpoint star_loop {R : Type}
    (ma : text -> groups -> (text -> groups -> option R) -> option R)
    (k : text -> groups -> option R) (n : nat) (s : text) (g : groups)
    : option R :=
  match n with
  | O => k s g
  | S n' =>
      match ma s g
              (fun s' g' =>
                 if (List.length s' <? List.length s)%nat
                 then star_loop ma k n' s' g' else None) with
      | Some x => Some x
      | None => k s g
      end
  end.

Fixpoint rmatch {R : Type} (r : regex) (s : text) (g : groups)
    (k : text -> groups -> option R) {struct r} : option R :=
  match r with
  | Empty => k s g
  | Class p =>
      match s with
      | c :: s' => if p c then k s' g else None
      | [] => None
      end
  | Seq a b => rmatch a s g (fun s' g' => rmatch b s' g' k)
  | Alt a b =>
      match rmatch a s g k with
      | Some x => Some x
      | None => rmatch b s g k
      end
  | Opt a =>
      match rmatch a s g k with
      | Some x => Some x
      | None => k s g
      end
  | Star a => star_loop (rmatch a) k (List.length s) s g
  | Group n a =>
      rmatch a s g
        (fun s' g' =>
           k s' ((n, firstn (List.length s - List.length s') s) :: g'))
  end.

(** [pattern.search(s)]: the first start position with a match. *)
Fixpoint search (r : regex) (s : text) : option groups :=
  match rmatch r s [] (fun _ g => Some g) with
  | Some g => Some g
  | None =>
      match s with
      | [] => None
      | _ :: s' => search r s'
      end
  end.

Definition chr (c : char) : regex := Class (N.eqb c).

Fixpoint lit (s : text) : regex :=
  match s with
  | [] => Empty
  | c :: s' => Seq (chr c) (lit s')
  end.

(** [r{n}] and [r{n,n+extra}]. *)
Fixpoint at_most (extra : nat) (r : regex) : regex :=
  match extra with
  | O => Empty
  | S k => Opt (Seq r (at_most k r))
  end.

Fixpoint times (n : nat) (r : regex) : regex :=
  match n with
  | O => Empty
  | S k => Seq r (times k r)
  end.

Definition between (lo hi : nat) (r : regex) : regex :=
  Seq (times lo r) (at_most (hi - lo) r).

Definition plus (r : regex) : regex := Seq r (Star r).

(* ================================================================= *)
(** * Helpers *)

Definition digit : regex := Class is_digit.

Definition currency_sign (c : char) : bool :=
  (N.eqb c 36 || N.eqb c 163 || N.eqb c 8364)%bool.

(** The number, group 2 of [MONEY_RE]:
    [([0-9]{1,3}(?:,[0-9]{3})*(?:\.[0-9]{2})|[0-9]+(?:\.[0-9]{2})?)] *)
Definition number_re : regex :=
  Group 2
    (Alt (Seq (between 1 3 digit)
         (Seq (Star (Seq (chr 44%N) (times 3 digit)))
              (Seq (chr 46%N) (times 2 digit))))
         (Seq (plus digit)
              (Opt (Seq (chr 46%N) (times 2 digit))))).

(** [([\$£€]|CA\$)?\s*] followed by the number. *)
Definition MONEY_RE : regex :=
  Seq (Opt (Group 1 (Alt (Class currency_sign) (lit (T "CA$")))))
 (Seq (Star (Class is_space))
      number_re).

Definition CURRENCY_SYMBOLS : list (text * text) :=
  [ (T "USD", T "$"); (T "CAD", T "CA$"); (T "usd", T "$"); (T "cad", T "CA$") ].

(** [dict.get] on a dictionary with string keys. *)
Fixpoint lookup {A : Type} (k : text) (d : list (text * A)) : option A :=
  match d with
  | [] => None
  | (k', v) :: d' => if text_eqb k k' then Some v else lookup k d'
  end.

Definition host_currency (host : text) : text :=
  let host := lower host in
  if (endswith (T ".ca") host || startswith (T "ca.") host
      || contains (T ".ca.") host)%bool
  then T "CAD" else T "USD".

Definition remove_commas (s : text) : text :=
  filter (fun c => negb (N.eqb c 44)) s.

Definition parse_price_number (txt : text) : option float :=
  if negb (nonempty txt) then None
  else match search MONEY_RE txt with
       | None => None
       | Some m =>
           match group 2 m with
           | Some num => py_float (remove_commas num)
           | None => None
           end
       end.

(** [a or b] where [a] is an optional string. *)
Definition opt_text_or (a : option text) (b : text) : text :=
  match a with
  | Some s => text_or s b
  | None => b
  end.

(** A looked-up string that is present and non-empty. *)
Definition found (o : option text) : option text :=
  match o with
  | Some s => if nonempty s then Some s else None
  | None => None
  end.

Definition fmt_price (val : option float) (currency : option text)
    (host : text) : text :=
  match val with
  | None => []
  | Some v =>
      let sym :=
        match found (lookup (upper (opt_text_or currency [])) CURRENCY_SYMBOLS) with
        | Some s => s
        | None =>
            match found (lookup (host_currency host) CURRENCY_SYMBOLS) with
            | Some s => s
            | None => T "$"
            end
        end in
      sym ++ format_comma_2f v
  end.

(** The guard [x and x > 0]. *)
Definition applies (x : float) : bool := float_truthy x && fltb fzero x.

Definition apply_rules (price : option float) (percent_off absolute_off : float)
    : option float :=
  match price with
  | None => None
  | Some p =>
      let p :=
        if applies percent_off
        then fmul p (fsub fone (fdiv percent_off f100))
        else p in
      let p := if applies absolute_off then fsub p absolute_off else p in
      Some (py_round2 (fadd p f1e_9))
  end.

(* ================================================================= *)
(** * Outcomes *)

(** A returned value, or an exception leaving the function. *)
Inductive result (A : Type) : Type :=
| Ok (a : A)
| Raise (e : text).

Arguments Ok {A} a.
Arguments Raise {A} e.

Definition bind {A B : Type} (r : result A) (f : A -> result B) : result B :=
  match r with
  | Ok a => f a
  | Raise e => Raise e
  end.

Notation "x <- e ;; k" := (bind e (fun x => k))
  (at level 61, e at next level, right associativity).

(** Running [f] over a list from left to right; the first exception ends
    the loop. *)
Fixpoint for_each {A B : Type} (f : A -> result (list B)) (l : list A)
    : result (list B) :=
  match l with
  | [] => Ok []
  | x :: l' =>
      ys <- f x ;;
      zs <- for_each f l' ;;
      Ok (ys ++ zs)
  end.

(* ================================================================= *)
(** * Data *)

(** Values produced by [json.loads]. *)
Inductive json : Type :=
| JNull
| JBool (b : bool)
| JInt (z : Z)
| JFloat (f : float)
| JStr (s : text)
| JArr (l : list json)
| JObj (m : list (text * json)).

Definition json_truthy (j : json) : bool :=
  match j with
  | JNull => false
  | JBool b => b
  | JInt z => negb (Z.eqb z 0)
  | JFloat f => float_truthy f
  | JStr s => nonempty s
  | JArr l => match l with [] => false | _ => true end
  | JObj m => match m with [] => false | _ => true end
  end.

(** [obj.get(key)] on a value known to be a dictionary; a JSON [null] is
    Python's [None]. *)
Definition jget (key : text) (m : list (text * json)) : option json :=
  match lookup key m with
  | Some JNull => None
  | o => o
  end.

Record Item : Type := {
  url : text;
  site : text;
  title : text;
  price_value : option float;
  price_currency : option json;
  price_text : text;
  discounted_value : option float;
  discounted_formatted : text;
  original_formatted : text;
  source : text;
  image_url : text
}.

Record Rules : Type := {
  percent_off : float;
  absolute_off : float
}.

(* ================================================================= *)
(** * Documents

    The tree built by the HTML parser.  Tag and attribute names are in
    lower case, an element carries each attribute once, and a multi-valued
    attribute ([class], [rel]) holds its tokens separated by single
    spaces.  Below an element stand elements, strings of text and CDATA
    sections.  Comments, declarations and processing instructions are left
    out: no selector matches them, [get_text] passes over them, and a
    [script] element, the only one whose [.string] is read, holds its
    content as a single string. *)

Inductive node : Type :=
| Elem (name : text) (attrs : list (text * text)) (children : list node)
| Str (s : text)
| CData (s : text).

(** An element together with its ancestors, nearest first. *)
Record tag : Type := {
  tag_node : node;
  tag_anc : list node
}.

(** What a selector is run against: the children to search and the
    elements above them. *)
Record scope : Type := {
  sc_anc : list node;
  sc_children : list node
}.

Definition children (n : node) : list node :=
  match n with
  | Elem _ _ kids => kids
  | _ => []
  end.

Definition of_soup (doc : list node) : scope :=
  {| sc_anc := []; sc_children := doc |}.

Definition of_tag (t : tag) : scope :=
  {| sc_anc := tag_node t :: tag_anc t; sc_children := children (tag_node t) |}.

(** [el.get(name)]. *)
Definition get_attr (a : text) (n : node) : option text :=
  match n with
  | Elem _ attrs _ => lookup a attrs
  | _ => None
  end.

(** [el.get(name)] when present and non-empty. *)
Definition attr (a : text) (t : tag) : option text :=
  found (get_attr a (tag_node t)).

(** [el.string]: the single string below an element, if there is exactly
    one path down to it. *)
Fixpoint node_string (n : node) : option text :=
  match n with
  | Str s => Some s
  | CData s => Some s
  | Elem _ _ [k] => node_string k
  | Elem _ _ _ => None
  end.

(** Splitting at whitespace. *)
Fixpoint split_ws_from (cur : text) (s : text) : list text :=
  match s with
  | [] => match cur with [] => [] | _ => [rev cur] end
  | c :: s' =>
      if is_space c
      then match cur with
           | [] => split_ws_from [] s'
           | _ => rev cur :: split_ws_from [] s'
           end
      else split_ws_from (c :: cur) s'
  end.

Definition split_ws (s : text) : list text := split_ws_from [] s.

Definition mem (x : text) (l : list text) : bool := existsb (text_eqb x) l.

(** ** The text of an element

    The parser files the strings below an [rt], [rp], [style], [script] or
    [template] element under a kind of their own, named here by the
    element: the kind of a string is that of the nearest such element above
    it, and plain text ([None]) when there is none.  A CDATA section keeps
    its own kind wherever it stands.  (Beautiful Soup from 4.10 on, where
    [get_text] depends on the element it is called on.) *)

Definition string_containers : list text :=
  map T [ "rt"; "rp"; "style"; "script"; "template" ]%string.

(** The kind that an element gives to the strings below it. *)
Definition container (n : node) : option text :=
  match n with
  | Elem name _ _ => if mem name string_containers then Some name else None
  | _ => None
  end.

(** The kind of a string that stands right below the elements [anc],
    nearest first. *)
Fixpoint kind_below (anc : list node) : option text :=
  match anc with
  | [] => None
  | a :: anc' =>
      match container a with
      | Some k => Some k
      | None => kind_below anc'
      end
  end.

Definition same_kind (a b : option text) : bool :=
  match a, b with
  | None, None => true
  | Some x, Some y => text_eqb x y
  | _, _ => false
  end.

(** The strings at and below [n], in document order, that an element
    interested in [wanted] takes for its text: one of the five containers
    takes the strings of its own kind, any other element ([None]) takes
    plain text and CDATA sections.  [cur] is the kind of a string standing
    where [n] stands. *)
Fixpoint all_strings (wanted cur : option text) (n : node) : text :=
  match n with
  | Str s => if same_kind cur wanted then s else []
  | CData s => match wanted with None => s | Some _ => [] end
  | Elem _ _ kids =>
      let cur := match container n with Some k => Some k | None => cur end in
      flat_map (all_strings wanted cur) kids
  end.

(** [el.get_text()] for the element [n] below the elements [anc]. *)
Definition node_text (anc : list node) (n : node) : text :=
  all_strings (container n) (kind_below anc) n.

Definition get_text (t : tag) : text := node_text (tag_anc t) (tag_node t).

(** ** CSS selectors *)

Inductive attr_test : Type :=
| Has (a : text)
| Equals (a v : text)
| Prefix (a v : text)
| Substr (a v : text).

(** A compound selector: [name.class1.class2[attr]...]. *)
Record compound : Type := {
  c_name : option text;
  c_classes : list text;
  c_attrs : list attr_test
}.

(** Compounds joined by the descendant combinator, the subject last. *)
Definition complex := list compound.

(** A comma-separated selector list. *)
Definition selector := list complex.

Definition test_attr (n : node) (t : attr_test) : bool :=
  match t with
  | Has a => match get_attr a n with Some _ => true | None => false end
  | Equals a v =>
      match get_attr a n with Some x => text_eqb x v | None => false end
  | Prefix a v =>
      match get_attr a n with Some x => startswith v x | None => false end
  | Substr a v =>
      match get_attr a n with Some x => contains v x | None => false end
  end.

Definition has_class (n : node) (c : text) : bool :=
  match get_attr (T "class") n with
  | Some v => mem c (split_ws v)
  | None => false
  end.

Definition match_compound (c : compound) (n : node) : bool :=
  match n with
  | Elem name _ _ =>
      (match c_name c with Some x => text_eqb x name | None => true end)
      && forallb (has_class n) (c_classes c)
      && forallb (test_attr n) (c_attrs c)
  | _ => false
  end.

(** The remaining compounds, nearest first, each matched by some element
    further up. *)
Fixpoint match_above (cs : list compound) (anc : list node) : bool :=
  match cs with
  | [] => true
  | c :: cs' =>
      (fix find (anc : list node) : bool :=
         match anc with
         | [] => false
         | a :: anc' =>
             (match_compound c a && match_above cs' anc') || find anc'
         end) anc
  end.

Definition match_complex (cx : complex) (anc : list node) (n : node) : bool :=
  match rev cx with
  | [] => false
  | subject :: above => match_compound subject n && match_above above anc
  end.

Definition matches (sel : selector) (anc : list node) (n : node) : bool :=
  existsb (fun cx => match_complex cx anc n) sel.

(** The elements below [anc] that satisfy [p], in document order. *)
Fixpoint collect (p : list node -> node -> bool) (anc : list node) (n : node)
    : list tag :=
  match n with
  | Elem _ _ kids =>
      (if p anc n then [ {| tag_node := n; tag_anc := anc |} ] else [])
      ++ flat_map (collect p (n :: anc)) kids
  | _ => []
  end.

(** [container.select(sel)] and [container.select_one(sel)]. *)
Definition select (sel : selector) (sc : scope) : list tag :=
  flat_map (collect (matches sel) (sc_anc sc)) (sc_children sc).

Definition select_one (sel : selector) (sc : scope) : option tag :=
  hd_error (select sel sc).

(** Selector syntax. *)
Definition part (name classes : string) (tests : list attr_test)
    : compound :=
  {| c_name := match name with EmptyString => None | _ => Some (T name) end;
     c_classes := split_ws (T classes);
     c_attrs := tests |}.

Definition has (a : string) : attr_test := Has (T a).
Definition equals (a v : string) : attr_test := Equals (T a) (T v).
Definition prefix (a v : string) : attr_test := Prefix (T a) (T v).
Definition substr (a v : string) : attr_test := Substr (T a) (T v).

(* ================================================================= *)
(** * The platform

    What the scrapers call and the source file does not define: the HTTP
    session, the pause before a request, [json.loads], [str] of a
    non-string JSON value, and the URL functions of [urllib.parse], which
    raise [ValueError] on a malformed network location. *)

Inductive fetch : Type :=
| Fetched (final_url : text) (html : list node)
| Failed (msg : text).

Record platform : Type := {
  world : Type;
  (** [get_html]: one request on the session; [Failed] carries
      [f'{type(e).__name__}: {e}'] of the exception raised. *)
  http_get : world -> text -> world * fetch;
  (** [time.sleep(delay_ms / 1000.0 + random.random()*0.05)], which raises
      [ValueError] for a negative length and [OverflowError] for one that
      is out of range. *)
  pause : world -> Z -> world * result unit;
  (** [json.loads]; [None] when it raises. *)
  json_loads : text -> option json;
  (** [str(v)] for a JSON value that is not a string. *)
  py_str : json -> text;
  urljoin : text -> text -> result text;
  (** [urlparse(url).hostname or '']. *)
  hostname : text -> result text
}.

(* ================================================================= *)
(** * Extractors *)

Section Extractors.

Variable P : platform.

Definition is_ldjson_script (_ : list node) (n : node) : bool :=
  match n with
  | Elem name _ _ =>
      text_eqb name (T "script")
      && match get_attr (T "type") n with
         | Some v => text_eqb v (T "application/ld+json")
         | None => false
         end
  | _ => false
  end.

(** [tag.string or tag.get_text() or ''] for a [script] element, which
    sets the kind of its strings itself, whatever stands above it. *)
Definition script_text (n : node) : text :=
  match found (node_string n) with
  | Some s => s
  | None => node_text [] n
  end.

(** [isinstance(obj, dict) and obj.get('@type') == 'Product']. *)
Definition as_product (obj : json) : list (list (text * json)) :=
  match obj with
  | JObj m =>
      match jget (T "@type") m with
      | Some (JStr s) => if text_eqb s (T "Product") then [m] else []
      | _ => []
      end
  | _ => []
  end.

Definition graph_products (obj : json) : list (list (text * json)) :=
  match obj with
  | JObj m =>
      match jget (T "@graph") m with
      | Some (JArr gs) => flat_map as_product gs
      | _ => []
      end
  | _ => []
  end.

Definition find_jsonld_products (soup : list node) : list (list (text * json)) :=
  flat_map
    (fun t =>
       match json_loads P (script_text (tag_node t)) with
       | None => []
       | Some data =>
           let candidates :=
             match data with
             | JObj _ => [data]
             | JArr l => l
             | _ => []
             end in
           flat_map (fun obj => as_product obj ++ graph_products obj) candidates
       end)
    (flat_map (collect is_ldjson_script []) soup).

(** [float(v)] on a JSON value; [None] when it raises. *)
Definition float_of_json (v : option json) : option float :=
  match v with
  | Some (JBool b) => Some (if b then fone else fzero)
  | Some (JInt z) =>
      match float_of_Z z with
      | S754_infinity _ => None
      | f => Some f
      end
  | Some (JFloat f) => Some f
  | Some (JStr s) => py_float s
  | _ => None
  end.

Definition str_of_json (v : option json) : text :=
  match v with
  | None => T "None"
  | Some (JStr s) => s
  | Some j => py_str P j
  end.

Fixpoint price_from_offers (offers : json) : option float * option json :=
  match offers with
  | JObj m =>
      let price := jget (T "price") m in
      let currency := jget (T "priceCurrency") m in
      match float_of_json price with
      | Some v => (Some v, currency)
      | None => (parse_price_number (str_of_json price), currency)
      end
  | JArr l =>
      (fix first (l : list json) : option float * option json :=
         match l with
         | [] => (None, None)
         | off :: l' =>
             match price_from_offers off with
             | (Some v, c) => (Some v, c)
             | (None, _) => first l'
             end
         end) l
  | _ => (None, None)
  end.

Definition title_selectors : list selector :=
  [ [[part "h1" "page-title" []; part "" "base" []]];
    [[part "span" "" [equals "data-ui-id" "page-title-wrapper"]]];
    [[part "h1" "product" []]];
    [[part "h1" "" []]] ].

Fixpoint first_title (soup : list node) (sels : list selector) : option text :=
  match sels with
  | [] => None
  | sel :: rest =>
      match select_one sel (of_soup soup) with
      | Some el =>
          let t := clean_text (Some (get_text el)) in
          if nonempty t then Some t else first_title soup rest
      | None => first_title soup rest
      end
  end.

Definition extract_title (soup : list node) : text :=
  match first_title soup title_selectors with
  | Some t => t
  | None =>
      match select_one [[part "meta" "" [equals "property" "og:title"]]]
              (of_soup soup) with
      | Some og =>
          match attr (T "content") og with
          | Some c => clean_text (Some c)
          | None => []
          end
      | None => []
      end
  end.

Definition extract_canonical_or_og_url (soup : list node) (fallback : text)
    : text :=
  let can := select_one [[part "link" "" [equals "rel" "canonical"]]]
               (of_soup soup) in
  match match can with Some el => attr (T "href") el | None => None end with
  | Some href => href
  | None =>
      let og := select_one [[part "meta" "" [equals "property" "og:url"]]]
                  (of_soup soup) in
      match match og with Some el => attr (T "content") el | None => None end with
      | Some c => c
      | None => fallback
      end
  end.

Definition price_amount : selector := [[part "" "" [has "data-price-amount"]]].

(** The double quote inside a selector's name. *)
Definition dq : text := [34%N].

(** The text selectors of [extract_price], each with the string that names
    it in the source. *)
Definition price_selectors : list (text * selector) :=
  [ (T "span.price-final_price [data-price-amount]",
     [[part "span" "price-final_price" []; part "" "" [has "data-price-amount"]]]);
    (T "span.price-final_price span.price",
     [[part "span" "price-final_price" []; part "span" "price" []]]);
    (T "div.price-box [data-price-amount]",
     [[part "div" "price-box" []; part "" "" [has "data-price-amount"]]]);
    (T "div.price-box span.price",
     [[part "div" "price-box" []; part "span" "price" []]]);
    (T "span[id^=" ++ dq ++ T "product-price-" ++ dq ++ T "] [data-price-amount]",
     [[part "span" "" [prefix "id" "product-price-"];
       part "" "" [has "data-price-amount"]]]);
    (T "span[id^=" ++ dq ++ T "product-price-" ++ dq ++ T "] span.price",
     [[part "span" "" [prefix "id" "product-price-"]; part "span" "price" []]]);
    (T "span.price", [[part "span" "price" []]]);
    (T "[class*=" ++ dq ++ T "price" ++ dq ++ T "]",
     [[part "" "" [substr "class" "price"]]]);
    (T "[id*=" ++ dq ++ T "price" ++ dq ++ T "]",
     [[part "" "" [substr "id" "price"]]]) ].

(** The first element of [els] whose cleaned text holds a price. *)
Fixpoint first_price (els : list tag) : option float :=
  match els with
  | [] => None
  | e :: rest =>
      match parse_price_number (clean_text (Some (get_text e))) with
      | Some v => Some v
      | None => first_price rest
      end
  end.

Fixpoint price_by_selectors (soup : list node) (sels : list (text * selector))
    : option float * text * text :=
  match sels with
  | [] => (None, [], [])
  | (name, sel) :: rest =>
      match first_price (select sel (of_soup soup)) with
      | Some v => (Some v, [], name)
      | None => price_by_selectors soup rest
      end
  end.

(** [float(el['data-price-amount'])] of the first element carrying a
    non-empty attribute of that name, when it parses. *)
Definition price_amount_of (sc : scope) : option float :=
  match select_one price_amount sc with
  | Some el =>
      match attr (T "data-price-amount") el with
      | Some a => py_float a
      | None => None
      end
  | None => None
  end.

Definition extract_price (soup : list node) : option float * text * text :=
  match price_amount_of (of_soup soup) with
  | Some v => (Some v, [], T "data-price-amount")
  | None => price_by_selectors soup price_selectors
  end.

Definition image_selectors : list selector :=
  [ [[part "img" "" [has "data-src"]]];
    [[part "img" "" [has "srcset"]]];
    [[part "img" "" [has "src"]]] ].

Fixpoint first_image (container : scope) (sels : list selector) : text :=
  match sels with
  | [] => []
  | sel :: rest =>
      match select_one sel container with
      | None => first_image container rest
      | Some el =>
          match attr (T "data-src") el with
          | Some v => v
          | None => opt_text_or (get_attr (T "src") (tag_node el)) []
          end
      end
  end.

Definition extract_image_url (container : scope) : text :=
  first_image container image_selectors.

Definition present {A : Type} (o : option A) : bool :=
  match o with Some _ => true | None => false end.

Definition is_product_page (soup : list node) : bool :=
  present (select_one [[part "h1" "page-title" []]; [part "h1" "product" []]]
             (of_soup soup))
  || match find_jsonld_products soup with [] => false | _ => true end.

Definition is_category_page (soup : list node) : bool :=
  present (select_one [[part "ul" "product-listing" []; part "li" "item" []]]
             (of_soup soup))
  || present (select_one [[part "ol" "products" []; part "li" "product-item" []]]
                (of_soup soup))
  || present (select_one [[part "div" "product-item-info" []];
                          [part "div" "product-card" []];
                          [part "li" "product" []]]
                (of_soup soup)).

Definition next_link : selector :=
  [ [part "li" "pages-item-next" []; part "a" "" []];
    [part "a" "action next" []];
    [part "a" "" [equals "rel" "next"]] ].

Definition find_next_page_url (soup : list node) (base_url : text)
    : result (option text) :=
  match select_one next_link (of_soup soup) with
  | Some cand =>
      match attr (T "href") cand with
      | Some href => u <- urljoin P base_url href ;; Ok (Some u)
      | None => Ok None
      end
  | None => Ok None
  end.

End Extractors.

(* ================================================================= *)
(** * Scrapers *)

Section Scrapers.

Variable P : platform.

(** The row recorded for a failed fetch. *)
Definition error_item (url site msg : text) : Item :=
  {| url := url; site := site; title := [];
     price_value := None; price_currency := None;
     price_text := T "fetch_failed: " ++ msg;
     discounted_value := None; discounted_formatted := [];
     original_formatted := []; source := T "error"; image_url := [] |}.

(** [float(x or 0.0)]. *)
Definition or_zero (x : float) : float := if float_truthy x then x else fzero.

(** The currency as [fmt_price] receives it from [scrape_product]:
    [(currency or '').upper()] raises on a true value that is no string. *)
Definition currency_arg (c : option json) : result (option text) :=
  match c with
  | None => Ok None
  | Some (JStr s) => Ok (Some s)
  | Some j => if json_truthy j then Raise (T "AttributeError") else Ok None
  end.

Definition fmt_price_of (val : option float) (currency : option json)
    (host : text) : result text :=
  match val with
  | None => Ok []
  | Some _ => c <- currency_arg currency ;; Ok (fmt_price val c host)
  end.

(** [clean_text(obj.get('name') or '')]: the substitution raises on a true
    value that is no string. *)
Definition name_of (obj : list (text * json)) : result text :=
  match jget (T "name") obj with
  | None => Ok []
  | Some (JStr s) => Ok (clean_text (Some s))
  | Some j => if json_truthy j then Raise (T "TypeError") else Ok []
  end.

(** [currency or host_currency(host)]. *)
Definition currency_or_host (c : option json) (host : text) : json :=
  match c with
  | Some j => if json_truthy j then j else JStr (host_currency host)
  | None => JStr (host_currency host)
  end.

Definition gallery : selector :=
  [ [part "" "gallery-placeholder" []]; [part "" "product media" []];
    [part "" "fotorama" []]; [part "" "product-image" []] ].

Definition scrape_product (final_url : text) (html : list node) (rules : Rules)
    : result (list Item) :=
  host <- hostname P final_url ;;
  let soup := html in
  let final_url := extract_canonical_or_og_url soup final_url in
  found_ld <-
    match find_jsonld_products P soup with
    | obj :: _ =>
        title <- name_of obj ;;
        match price_from_offers P
                (match jget (T "offers") obj with Some o => o | None => JNull end) with
        | (Some pv, cur) => Ok (title, Some pv, cur, T "jsonld")
        | (None, _) => Ok (title, None, None, T "product")
        end
    | [] => Ok ([], None, None, T "product")
    end ;;
  let '(title, price_val, currency, source) := found_ld in
  let title := if nonempty title then title else extract_title soup in
  let '(price_val, currency, source) :=
    match price_val with
    | Some _ => (price_val, currency, source)
    | None =>
        let '(pv, cur, src) := extract_price soup in
        (pv, if nonempty cur then Some (JStr cur) else currency,
         if present pv then src else source)
    end in
  let gal := select_one gallery (of_soup soup) in
  let img :=
    extract_image_url
      (match gal with Some g => of_tag g | None => of_soup soup end) in
  let percent_off := or_zero (percent_off rules) in
  let absolute_off := or_zero (absolute_off rules) in
  let final_price := apply_rules price_val percent_off absolute_off in
  discounted <-
    match final_price with
    | Some _ => fmt_price_of final_price currency host
    | None => Ok []
    end ;;
  original <- fmt_price_of price_val currency host ;;
  Ok [ {| url := final_url; site := host; title := title;
          price_value := price_val;
          price_currency := Some (currency_or_host currency host);
          price_text :=
            if present price_val then [] else T "price_not_found_or_hidden";
          discounted_value := final_price;
          discounted_formatted := discounted;
          original_formatted := original;
          source := source; image_url := img |} ].

Definition listing_cards : selector :=
  [ [part "ul" "product-listing" []; part "li" "item" []] ].

Definition other_cards : selector :=
  [ [part "ol" "products" []; part "li" "product-item" []];
    [part "div" "product-item-info" []];
    [part "div" "product-card" []];
    [part "li" "product" []] ].

Definition card_price_text : selector :=
  [ [part "" "price" []];
    [part "" "price-final_price" []; part "" "price" []];
    [part "" "" [substr "class" "price"]] ].

(** One iteration of the loop over the cards. *)
Definition scrape_card (final_url host : text) (percent_off absolute_off : float)
    (card : tag) : result (list Item) :=
  match select_one [[part "a" "" [has "href"]]] (of_tag card) with
  | None => Ok []
  | Some a =>
      let title := clean_text (Some (get_text a)) in
      let href := opt_text_or (get_attr (T "href") (tag_node a)) [] in
      prod_url <- urljoin P final_url href ;;
      let image := extract_image_url (of_tag card) in
      let '(price_val, price_text) :=
        match price_amount_of (of_tag card) with
        | Some v => (Some v, [])
        | None =>
            let price_text :=
              match select_one card_price_text (of_tag card) with
              | Some pt_el => clean_text (Some (get_text pt_el))
              | None => []
              end in
            (parse_price_number price_text, price_text)
        end in
      let final_price := apply_rules price_val percent_off absolute_off in
      Ok [ {| url := prod_url; site := host; title := title;
              price_value := price_val;
              price_currency := Some (JStr (host_currency host));
              price_text := if present price_val then [] else price_text;
              discounted_value := final_price;
              discounted_formatted :=
                if present final_price then fmt_price final_price None host
                else [];
              original_formatted := fmt_price price_val None host;
              source := T "category-card"; image_url := image |} ]
  end.

Definition scrape_category_page (final_url : text) (html : list node)
    (rules : Rules) : result (list Item) :=
  host <- hostname P final_url ;;
  let soup := html in
  let cards :=
    match select listing_cards (of_soup soup) with
    | [] => select other_cards (of_soup soup)
    | cs => cs
    end in
  let percent_off := or_zero (percent_off rules) in
  let absolute_off := or_zero (absolute_off rules) in
  for_each (scrape_card final_url host percent_off absolute_off) cards.

(** The pause, when there is one, comes before the [try]: an exception
    of [time.sleep] leaves the function and no request is made.  An
    exception of the request is caught and returned as [Failed]. *)
Definition get_html_safe (w : world P) (url : text) (delay_ms : Z)
    : world P * result fetch :=
  let (w0, slept) :=
    if Z.eqb delay_ms 0 then (w, Ok tt) else pause P w delay_ms in
  match slept with
  | Raise e => (w0, Raise e)
  | Ok _ => let (w1, pair) := http_get P w0 url in (w1, Ok pair)
  end.

(** The loop of [scrape_category_all_pages].  The counter [pages] runs from
    0 to [max_pages]; [budget] is the number of iterations it leaves,
    [max_pages - pages]. *)
Fixpoint crawl_pages (budget : nat) (w : world P) (items : list Item)
    (seen : list text) (url : text) (rules : Rules) (delay_ms : Z)
    : world P * result (list Item) :=
  match budget with
  | O => (w, Ok items)
  | S budget' =>
      if negb (nonempty url) then (w, Ok items)
      else
        let (w1, pair) := get_html_safe w url delay_ms in
        match pair with
        | Raise e => (w1, Raise e)
        | Ok (Failed msg) =>
            (w1, site <- hostname P url ;;
                 Ok (items ++ [error_item url site msg]))
        | Ok (Fetched final_url html) =>
            match (page_items <- scrape_category_page final_url html rules ;;
                   nxt <- find_next_page_url P html final_url ;;
                   Ok (page_items, nxt)) with
            | Raise e => (w1, Raise e)
            | Ok (page_items, nxt) =>
                let items := items ++ page_items in
                let seen := final_url :: seen in
                match nxt with
                | Some n =>
                    if nonempty n && negb (mem n seen)
                    then crawl_pages budget' w1 items seen n rules delay_ms
                    else (w1, Ok items)
                | None => (w1, Ok items)
                end
            end
        end
  end.

Definition scrape_category_all_pages (w : world P) (start_url : text)
    (rules : Rules) (max_pages : Z) (delay_ms : Z)
    : world P * result (list Item) :=
  crawl_pages (Z.to_nat max_pages) w [] [] start_url rules delay_ms.

Definition scrape_url (w : world P) (url : text) (rules : Rules)
    (crawl_pagination : bool) (max_pages : Z) (delay_ms : Z)
    : world P * result (list Item) :=
  let (w1, pair) := get_html_safe w url 0 in
  match pair with
  | Raise e => (w1, Raise e)
  | Ok (Failed msg) =>
      (w1, site <- hostname P url ;; Ok [error_item url site msg])
  | Ok (Fetched final_url html) =>
      let soup := html in
      if is_product_page P soup then (w1, scrape_product final_url html rules)
      else if is_category_page soup then
        if crawl_pagination
        then scrape_category_all_pages w1 final_url rules max_pages delay_ms
        else (w1, scrape_category_page final_url html rules)
      else (w1, scrape_product final_url html rules)
  end.

(** The loop of [api_scrape] over the input URLs. *)
Fixpoint scrape_each (w : world P) (urls : list text) (rules : Rules)
    (crawl_pagination : bool) (max_pages : Z) (delay_ms : Z)
    : world P * result (list Item) :=
  match urls with
  | [] => (w, Ok [])
  | u :: rest =>
      let (w1, r) := scrape_url w u rules crawl_pagination max_pages delay_ms in
      match r with
      | Raise e => (w1, Raise e)
      | Ok got =>
          let (w2, r2) :=
            scrape_each w1 rest rules crawl_pagination max_pages delay_ms in
          (w2, more <- r2 ;; Ok (got ++ more))
      end
  end.

(** Duplicates removed, the first occurrence kept. *)
Fixpoint dedupe (seen_u : list text) (urls : list text) : list text :=
  match urls with
  | [] => []
  | u :: rest =>
      if mem u seen_u then dedupe seen_u rest
      else u :: dedupe (u :: seen_u) rest
  end.

(** The body of a request to [/api/scrape], its fields already decoded. *)
Record Request : Type := {
  req_urls : list text;
  req_crawl_pagination : bool;
  req_max_pages : Z;
  req_delay_ms : Z;
  req_percent_off : float;
  req_absolute_off : float
}.

Definition api_scrape (w : world P) (data : Request)
    : world P * result (list Item) :=
  let max_pages := if Z.eqb (req_max_pages data) 0 then 20 else req_max_pages data in
  let max_pages :=
    if max_pages <? 1 then 1 else if 100 <? max_pages then 100 else max_pages in
  let delay_ms := if Z.eqb (req_delay_ms data) 0 then 400 else req_delay_ms data in
  let rules := {| percent_off := or_zero (req_percent_off data);
                  absolute_off := or_zero (req_absolute_off data) |} in
  let urls := filter nonempty (map strip (req_urls data)) in
  let urls := dedupe [] urls in
  scrape_each w urls rules (req_crawl_pagination data) max_pages delay_ms.

End Scrapers.

(* ================================================================= *)
(** * Routes: the spreadsheet export

    The rows of a request to [/api/export/xlsx] are dictionaries with
    string keys; a worksheet is the list of the rows appended to it. *)

Definition preferred : list text :=
  map T [ "image_url"; "title"; "original"; "percent_off"; "absolute_off";
          "final"; "url"; "source"; "clean_title"; "model"; "compare_price";
          "delta"; "delta_pct"; "cost"; "fees_pct"; "target_margin_pct";
          "margin_pct"; "profit"; "recommended_price"; "watchlisted" ]%string.

Definition default_headers : list text :=
  map T [ "image_url"; "title"; "original"; "percent_off"; "absolute_off";
          "final"; "url"; "source" ]%string.

(** [for k in cands: if wanted(k) and k not in headers: headers.append(k)] *)
Fixpoint add_headers (cands : list text) (wanted : text -> bool)
    (headers : list text) : list text :=
  match cands with
  | [] => headers
  | k :: rest =>
      add_headers rest wanted
        (if wanted k && negb (mem k headers) then headers ++ [k] else headers)
  end.

Definition export_headers (rows : list (list (text * json))) : list text :=
  match rows with
  | first :: _ =>
      let keys := map fst first in
      let headers := add_headers preferred (fun k => mem k keys) [] in
      add_headers keys (fun _ => true) headers
  | [] => default_headers
  end.

(** [r.get(k, "")]. *)
Definition cell (r : list (text * json)) (k : text) : json :=
  match lookup k r with
  | Some v => v
  | None => JStr []
  end.

(** The worksheet [export_xlsx] fills: the header row, then one row per
    input row. *)
Definition export_xlsx (rows : list (list (text * json))) : list (list json) :=
  let headers := export_headers rows in
  map JStr headers :: map (fun r => map (cell r) headers) rows.

(* ================================================================= *)
(** * Main *)

(** The loop of [find_free_port] over [range(start, end + 1)]: [n] ports
    are left to try from [p] on; [free p] tells whether binding port [p]
    succeeds, and a failed binding ([OSError]) moves on to the next port.
    For a port outside 0..65535 [bind] raises [OverflowError], which the
    handler does not catch. *)
Fixpoint first_free (free : Z -> bool) (p : Z) (n : nat) : result Z :=
  match n with
  | O => Ok 0
  | S n' =>
      if (0 <=? p) && (p <=? 65535)
      then if free p then Ok p else first_free free (p + 1) n'
      else Raise (T "OverflowError")
  end.

Definition find_free_port (free : Z -> bool) (start end_ : Z) : result Z :=
  first_free free start (Z.to_nat (end_ + 1 - start)).

(* ================================================================= *)
(** * Reference values and sample inputs *)

(** The price [2.675], which lies just below the decimal tie in binary. *)
Definition price_2_675 : float := float_of_decimal false 2675 (-3).

(** A discount as the rule engine takes it: a value that is not greater
    than zero (a negative value, a zero, NaN) counts as no discount. *)
Definition discount_taken (x : float) : float :=
  if fltb fzero x then x else fzero.

(** The euro sign. *)
Definition euro : text := [8364%N].

Definition no_digit (s : text) : Prop := existsb is_digit s = false.

(** A hostname under the [.ca] domain or with a [ca.] label. *)
Definition canadian_host (host : text) : Prop :=
  let h := lower host in
  (exists p, h = p ++ T ".ca")
  \/ (exists q, h = T "ca." ++ q)
  \/ (exists p q, h = p ++ T ".ca." ++ q).

(** A currency argument that names neither of the two known codes. *)
Definition unknown_code (currency : option text) : Prop :=
  match currency with
  | None => True
  | Some c => upper c <> T "USD" /\ upper c <> T "CAD"
  end.

(** [n] occurs in the forest [l], at any depth. *)
Inductive inside (n : node) : list node -> Prop :=
| inside_here (l : list node) : In n l -> inside n l
| inside_below (name : text) (attrs : list (text * text)) (kids l : list node) :
    In (Elem name attrs kids) l -> inside n kids -> inside n l.

(** An embedded structured-data block: a [script] element of type
    [application/ld+json] whose text parses to [data]. *)
Definition ld_json_block (P : platform) (n : node) (data : json) : Prop :=
  exists attrs kids,
    n = Elem (T "script") attrs kids
    /\ lookup (T "type") attrs = Some (T "application/ld+json")
    /\ json_loads P (script_text n) = Some data.

(** An object whose [@type] is the string [Product]. *)
Definition typed_product (obj : json) : Prop :=
  exists m, obj = JObj m /\ lookup (T "@type") m = Some (JStr (T "Product")).

(** An object typed Product, or carrying one in its [@graph] array. *)
Definition product_object (obj : json) : Prop :=
  typed_product obj
  \/ exists m gs g,
       obj = JObj m /\ lookup (T "@graph") m = Some (JArr gs)
       /\ In g gs /\ typed_product g.

(** The data of a block that describes a product: such an object, or an
    array with such an object among its elements. *)
Definition describes_product (data : json) : Prop :=
  product_object data
  \/ exists l obj, data = JArr l /\ In obj l /\ product_object obj.

(** The discounted value is present exactly when the price is. *)
Definition discount_matches_price (it : Item) : Prop :=
  (exists d, discounted_value it = Some d) <-> (exists v, price_value it = Some v).

(** The image element [extract_image_url] settles on: the first match of
    the first of its three selectors that matches anything. *)
Definition chosen_image (container : scope) : option tag :=
  match select_one [[part "img" "" [has "data-src"]]] container with
  | Some el => Some el
  | None =>
      match select_one [[part "img" "" [has "srcset"]]] container with
      | Some el => Some el
      | None => select_one [[part "img" "" [has "src"]]] container
      end
  end.

(** Image extraction in the words of the specification: the first available
    of the [data-src], [srcset] and [src] attributes of that element. *)
Definition image_by_spec (container : scope) : text :=
  match chosen_image container with
  | None => []
  | Some el =>
      match attr (T "data-src") el with
      | Some v => v
      | None =>
          match attr (T "srcset") el with
          | Some v => v
          | None => opt_text_or (get_attr (T "src") (tag_node el)) []
          end
      end
  end.

(** Where [scrape_product] looks for the image. *)
Definition product_image_scope (soup : list node) : scope :=
  match select_one gallery (of_soup soup) with
  | Some g => of_tag g
  | None => of_soup soup
  end.

(** [<img srcset="a.png 1x" src="b.png">] *)
Definition responsive_image : list node :=
  [ Elem (T "img") [(T "srcset", T "a.png 1x"); (T "src", T "b.png")] [] ].

(* ----------------------------------------------------------------- *)
(** ** A sample shop

    A platform to run the scrapers on.  Its world is the log of the
    responses received so far, each as the URL requested and the URL it
    resolved to; its URL
    functions stand in for those of [urllib.parse] on the URLs used below:
    absolute references, which [urljoin] returns unchanged, and network
    locations without user or port, where [urlparse] raises [ValueError]
    on a square bracket without its partner.  Its pause is that of a
    run in which [random.random()] returns 0.0, for the delays used below:
    it raises for a negative delay and returns for any other. *)

Definition shop_pause (log : list (text * text)) (delay_ms : Z)
    : list (text * text) * result unit :=
  if delay_ms <? 0
  then (log, Raise (T "ValueError: sleep length must be non-negative"))
  else (log, Ok tt).

Fixpoint after_slashes (u : text) : text :=
  match u with
  | [] => []
  | _ :: u' => if startswith (T "//") u then skipn 2 u else after_slashes u'
  end.

Fixpoint until_path (s : text) : text :=
  match s with
  | [] => []
  | c :: s' =>
      if (N.eqb c 47 || N.eqb c 63 || N.eqb c 35)%bool then []
      else c :: until_path s'
  end.

Definition shop_hostname (u : text) : result text :=
  let netloc := until_path (after_slashes u) in
  if xorb (contains (T "[") netloc) (contains (T "]") netloc)
  then Raise (T "ValueError: Invalid IPv6 URL")
  else Ok (lower netloc).

Definition listing_1 : text := T "https://shop.example/phones?p=1".
Definition listing_2 : text := T "https://shop.example/phones?p=2".
Definition product_1 : text := T "https://shop.example/p/1".
Definition product_2 : text := T "https://shop.example/p/2".

(** A URL whose network location opens a bracket and never closes it. *)
Definition malformed_url : text := T "http://[".

Definition el (name : string) (attrs : list (string * text)) (kids : list node)
    : node :=
  Elem (T name) (map (fun '(a, v) => (T a, v)) attrs) kids.

(** A product page: [<h1 class="page-title"><span class="base">...]. *)
Definition product_page (name price : string) : list node :=
  [ el "html" []
      [ el "body" []
          [ el "h1" [("class"%string, T "page-title")]
              [ el "span" [("class"%string, T "base")] [Str (T name)] ];
            el "span" [("class"%string, T "price")] [Str (T price)] ] ] ].

(** The first page of a listing: one card, and a link to the next page. *)
Definition listing_page : list node :=
  [ el "html" []
      [ el "body" []
          [ el "ul" [("class"%string, T "product-listing")]
              [ el "li" [("class"%string, T "item")]
                  [ el "a" [("href"%string, product_1)] [Str (T "Phone")];
                    el "span" [("class"%string, T "price")] [Str (T "$10.00")] ] ];
            el "a" [("class"%string, T "action next"); ("href"%string, listing_2)]
              [Str (T "Next")] ] ] ].

(** The text of a structured-data block with a Product in its graph, and
    what [json.loads] makes of it. *)
Definition graph_block_text : text :=
  T "{" ++ dq ++ T "@graph" ++ dq ++ T ":[{" ++ dq ++ T "@type" ++ dq ++ T ":"
    ++ dq ++ T "Product" ++ dq ++ T "}]}".

Definition graph_block_data : json :=
  JObj [ (T "@graph", JArr [ JObj [ (T "@type", JStr (T "Product")) ] ]) ].

Definition shop_loads (s : text) : option json :=
  if text_eqb s graph_block_text then Some graph_block_data else None.

Definition graph_script : node :=
  el "script" [("type"%string, T "application/ld+json")] [Str graph_block_text].

Definition graph_page : list node :=
  [ el "html" [] [ el "head" [] [ graph_script ] ] ].

(** The second listing page redirects to the first; the malformed URL is
    refused before any request is sent. *)
Definition shop_get (log : list (text * text)) (u : text)
    : list (text * text) * fetch :=
  if text_eqb u listing_1 then (log ++ [(u, listing_1)], Fetched listing_1 listing_page)
  else if text_eqb u listing_2 then (log ++ [(u, listing_1)], Fetched listing_1 listing_page)
  else if text_eqb u product_1
  then (log ++ [(u, u)], Fetched u (product_page "Phone" "$10.00"))
  else if text_eqb u product_2
  then (log ++ [(u, u)], Fetched u (product_page "Case" "$1,234"))
  else if text_eqb u malformed_url
  then (log, Failed (T "InvalidURL: Failed to parse: " ++ u))
  else (log, Failed (T "ConnectionError: no route to " ++ u)).

Definition shop : platform :=
  {| world := list (text * text);
     http_get := shop_get;
     pause := shop_pause;
     json_loads := shop_loads;
     py_str := fun _ => [];
     urljoin := fun _ href => Ok href;
     hostname := shop_hostname |}.

Definition no_rules : Rules := {| percent_off := fzero; absolute_off := fzero |}.

Definition batch (urls : list text) : Request :=
  {| req_urls := urls; req_crawl_pagination := true; req_max_pages := 20;
     req_delay_ms := 400; req_percent_off := fzero; req_absolute_off := fzero |}.

(** The items of a run, none if it raised. *)
Definition items_of (r : result (list Item)) : list Item :=
  match r with
  | Ok l => l
  | Raise _ => []
  end.

(** A platform that records the URLs requested on [P], oldest first. *)
Definition recording (P : platform) : platform :=
  {| world := world P * list text;
     http_get := fun wl u =>
                   let (w', r) := http_get P (fst wl) u in
                   ((w', snd wl ++ [u]), r);
     pause := fun wl d =>
                let (w', r) := pause P (fst wl) d in
                ((w', snd wl), r);
     json_loads := json_loads P;
     py_str := py_str P;
     urljoin := urljoin P;
     hostname := hostname P |}.

(** A platform without redirects: a fetched page resolves to the URL that
    was requested. *)
Definition no_redirects (P : platform) : Prop :=
  forall w u w' final_url html,
    http_get P w u = (w', Fetched final_url html) -> final_url = u.

(* ----------------------------------------------------------------- *)
(** ** Notions used by the further properties *)

(** The currency code [fmt_price] is handed for a JSON currency. *)
Definition code_of (currency : option json) : option text :=
  match currency_arg currency with
  | Ok c => c
  | Raise _ => None
  end.

(** The listing cards of a category page, as [scrape_category_page]
    selects them. *)
Definition page_cards (html : list node) : list tag :=
  match select listing_cards (of_soup html) with
  | [] => select other_cards (of_soup html)
  | cs => cs
  end.

(** The link of a card: its first [a] element with an [href]. *)
Definition card_link (card : tag) : option tag :=
  select_one [[part "a" "" [has "href"]]] (of_tag card).

(** A value that is not negative: a positive zero, a positive finite
    number or positive infinity. *)
Definition not_negative (v : float) : Prop :=
  match v with
  | S754_zero false | S754_infinity false | S754_finite false _ _ => True
  | _ => False
  end.

(** A row's price text is empty when it has a price. *)
Definition price_text_only_without_price (it : Item) : Prop :=
  (exists v, price_value it = Some v) -> price_text it = [].

(** A row's formatted strings are empty exactly when the values are
    absent. *)
Definition formatted_matches_values (it : Item) : Prop :=
  (original_formatted it = [] <-> price_value it = None)
  /\ (discounted_formatted it = [] <-> discounted_value it = None).

(** A row names its currency by a non-empty string, unless it is an error
    row, which names none. *)
Definition currency_named (it : Item) : Prop :=
  (exists s, price_currency it = Some (JStr s) /\ nonempty s = true)
  \/ (price_currency it = None /\ source it = T "error").

(** A batch with a product page, an unreachable URL and a listing. *)
Definition mixed_batch : Request :=
  batch [product_1; T "https://down.example/x"; listing_1].

(** The links of the cards of a category page, in document order; a card
    without a link contributes none. *)
Definition card_links (html : list node) : list tag :=
  flat_map (fun card => match card_link card with Some a => [a] | None => [] end)
    (page_cards html).

(** A shop without redirects: both listing pages answer under their own
    URL. *)
Definition plain_get (log : list (text * text)) (u : text)
    : list (text * text) * fetch :=
  if (text_eqb u listing_1 || text_eqb u listing_2)%bool
  then (log ++ [(u, u)], Fetched u listing_page)
  else (log, Failed (T "ConnectionError: no route to " ++ u)).

Definition plain_shop : platform :=
  {| world := list (text * text);
     http_get := plain_get;
     pause := shop_pause;
     json_loads := shop_loads;
     py_str := fun _ => [];
     urljoin := fun _ href => Ok href;
     hostname := shop_hostname |}.

(** A finite value: a zero or a finite number. *)
Definition finite_value (x : float) : Prop :=
  match x with
  | S754_zero _ | S754_finite _ _ _ => True
  | _ => False
  end.

(** A text in normal form: its only whitespace is single spaces between
    other characters. *)
Definition tidy (s : text) : Prop :=
  (forall c, In c s -> is_space c = true -> c = 32%N)
  /\ (forall front c d back,
        s = front ++ c :: d :: back -> is_space c = true -> is_space d = false)
  /\ (forall c rest, s = c :: rest -> is_space c = false)
  /\ (forall front c, s = front ++ [c] -> is_space c = false).

(** ** Plain numerals *)

(** A text that consists of digits. *)
Definition all_digits (s : text) : Prop := forallb is_digit s = true.

(** The cents of a plain numeral: none, or two digits. *)
Definition cents (fp : text) : Prop :=
  fp = [] \/ (List.length fp = 2%nat /\ all_digits fp).

(** The text of the fraction: nothing, or a point and the cents. *)
Definition fraction (fp : text) : text :=
  match fp with
  | [] => []
  | _ => 46%N :: fp
  end.

(** What follows a numeral without cents lets it end there: the end of the
    text, or a character that is no digit, point or comma.  After the
    cents anything may follow. *)
Definition ends_numeral (fp trail : text) : Prop :=
  match fp, trail with
  | [], c :: _ => is_digit c = false /\ c <> 46%N /\ c <> 44%N
  | _, _ => True
  end.

(** ** What a row's label says *)

(** A row labelled [product] or [error] has no price, and a row without a
    price carries one of the labels [product], [error] and
    [category-card]. *)
Definition source_tells_price (it : Item) : Prop :=
  (source it = T "product" \/ source it = T "error" -> price_value it = None)
  /\ (price_value it = None ->
      source it = T "product" \/ source it = T "error"
      \/ source it = T "category-card").

(** Unless the price comes from structured data, the currency is the one
    of the row's host. *)
Definition host_currency_unless_structured (it : Item) : Prop :=
  source it <> T "jsonld" -> source it <> T "error" ->
  price_currency it = Some (JStr (host_currency (site it))).

(** The labels of a price that [extract_price] finds. *)
Definition dom_price_labels : list text :=
  T "data-price-amount" :: map fst price_selectors.

(** A list of rows reports a failure only in its last row. *)
Definition error_only_last (items : list Item) : Prop :=
  forall front it back,
    items = front ++ it :: back -> source it = T "error" -> back = [].

(** A shop whose first listing page answers and whose second does not. *)
Definition torn_get (log : list (text * text)) (u : text)
    : list (text * text) * fetch :=
  if text_eqb u listing_1
  then (log ++ [(u, u)], Fetched u listing_page)
  else (log, Failed (T "ConnectionError: no route to " ++ u)).

Definition torn_shop : platform :=
  {| world := list (text * text);
     http_get := torn_get;
     pause := shop_pause;
     json_loads := shop_loads;
     py_str := fun _ => [];
     urljoin := fun _ href => Ok href;
     hostname := shop_hostname |}.

(* ================================================================= *)
(** * Properties of the price rule *)

Lemma digits2_shift52 (m : positive) :
  Zdigits2 (Zpos (m * 4503599627370496)) = Zpos (digits2_pos m) + 52.
Proof.
  rewrite Pos.mul_comm. cbn [Pos.mul Zdigits2 digits2_pos]. lia.
Qed.

Lemma shr52 (m : positive) :
  iter_pos shr_1 52
    {| shr_m := Zpos (m * 4503599627370496); shr_r := false; shr_s := false |}
  = {| shr_m := Zpos m; shr_r := false; shr_s := false |}.
Proof.
  rewrite Pos.mul_comm. reflexivity.
Qed.

(** Multiplying a float by [1.0] returns it: the product's mantissa is the
    operand's shifted by 52 bits, and rounding shifts it back exactly. *)
Lemma fmul_one (x : float) : is_float x = true -> fmul x fone = x.
Proof.
  destruct x as [s | s | | s m e]; intros Hv; try (destruct s; reflexivity).
  - reflexivity.
  - unfold is_float, valid_binary, bounded, canonical_mantissa in Hv.
    apply andb_true_iff in Hv. destruct Hv as [Hc He].
    apply Z.eqb_eq in Hc. apply Z.leb_le in He.
    change fone with (S754_finite false 4503599627370496 (-52)).
    unfold fmul, SFmul, binary_round_aux, shr_fexp.
    rewrite digits2_shift52.
    replace (Z.pos (digits2_pos m) + 52 + (e + -52))
      with (Z.pos (digits2_pos m) + e) by lia.
    rewrite Hc.
    replace (e - (e + -52)) with 52 by lia.
    cbn [shr shr_record_of_loc].
    rewrite shr52.
    cbn [shr_m loc_of_shr_record round_nearest_even Zdigits2].
    replace (e + -52 + 52) with e by lia.
    rewrite Hc. rewrite Z.sub_diag.
    cbn [shr shr_record_of_loc shr_m].
    replace (e <=? b64_emax - b64_prec) with true
      by (symmetry; apply Z.leb_le; exact He).
    destruct s; reflexivity.
Qed.

Lemma apply_rules_unfold (p pct off : float) :
  apply_rules (Some p) pct off =
  Some (py_round2
          (fadd (let p1 := if applies pct
                           then fmul p (fsub fone (fdiv pct f100)) else p in
                 if applies off then fsub p1 off else p1)
                f1e_9)).
Proof. reflexivity. Qed.

(** A float that is at least zero is a zero or passes the guard. *)
Lemma nonneg_cases (x : float) :
  fleb fzero x = true -> (exists s, x = S754_zero s) \/ applies x = true.
Proof.
  destruct x as [s | s | | s m e]; intros H.
  - left. exists s. reflexivity.
  - right. destruct s; [discriminate H | reflexivity].
  - discriminate H.
  - right. destruct s; [discriminate H | reflexivity].
Qed.

(** A float that is at most zero never passes the guard. *)
Lemma nonpos_not_applied (x : float) :
  fleb x fzero = true -> applies x = false.
Proof.
  destruct x as [s | s | | s m e]; intros H.
  - reflexivity.
  - destruct s; [reflexivity | discriminate H].
  - discriminate H.
  - destruct s; [reflexivity | discriminate H].
Qed.

Lemma zero_not_applied (s : bool) : applies (S754_zero s) = false.
Proof. reflexivity. Qed.

Lemma one_minus_zero_percent (s : bool) :
  fsub fone (fdiv (S754_zero s) f100) = fone.
Proof. destruct s; reflexivity. Qed.

(** Subtracting a zero can only change the sign of a zero, which adding
    [1e-9] erases. *)
Lemma sub_zero_add_eps (x : float) (s : bool) :
  fadd (fsub x (S754_zero s)) f1e_9 = fadd x f1e_9.
Proof.
  destruct x as [sx | sx | | sx m e]; try reflexivity.
  destruct sx, s; reflexivity.
Qed.

(** The guard lets a discount pass exactly when it is greater than zero. *)
Lemma applies_positive (x : float) : applies x = fltb fzero x.
Proof. destruct x as [s | s | | s m e]; try destruct s; reflexivity. Qed.

(** C2, as stated, fails: with -10 percent off the rule engine leaves
    100.00 as it is, where multiplying by [1 - percent_off/100] and the
    rest of the stated formula give 110.00. *)
Lemma apply_rules_formula_counterexample :
  apply_rules (Some (float_of_Z 100)) (float_of_Z (-10)) fzero
    = Some (float_of_Z 100)
  /\ py_round2
       (fadd (fsub (fmul (float_of_Z 100)
                         (fsub fone (fdiv (float_of_Z (-10)) f100)))
                   fzero)
             f1e_9)
     = float_of_Z 110
  /\ apply_rules (Some (float_of_Z 100)) (float_of_Z (-10)) fzero
     <> Some (py_round2
                (fadd (fsub (fmul (float_of_Z 100)
                                  (fsub fone (fdiv (float_of_Z (-10)) f100)))
                            fzero)
                      f1e_9)).
Proof.
  split; [vm_compute; reflexivity |].
  split; [vm_compute; reflexivity |].
  vm_compute. discriminate.
Qed.

(** C2, amended: the rule engine returns no price for no base price; for
    a base price it takes a percent_off or absolute_off that is not greater
    than zero as zero, multiplies the price by [1 - percent_off/100],
    subtracts [absolute_off], adds [1e-9] and rounds to two decimals, so
    that for discounts that are not negative the formula holds as stated;
    100.00 with 10 percent and 5 off gives 85.00; and the result is not
    held at zero: 10.00 with 25 off gives -15.00. *)
Theorem apply_rules_formula :
  (forall pct off, apply_rules None pct off = None)
  /\ (forall p pct off,
        is_float p = true ->
        apply_rules (Some p) pct off =
        Some (py_round2
                (fadd (fsub (fmul p (fsub fone
                                       (fdiv (discount_taken pct) f100)))
                            (discount_taken off))
                      f1e_9)))
  /\ (forall p pct off,
        is_float p = true -> fleb fzero pct = true -> fleb fzero off = true ->
        apply_rules (Some p) pct off =
        Some (py_round2
                (fadd (fsub (fmul p (fsub fone (fdiv pct f100))) off) f1e_9)))
  /\ apply_rules (Some (float_of_Z 100)) (float_of_Z 10) (float_of_Z 5)
     = Some (float_of_Z 85)
  /\ apply_rules (Some (float_of_Z 10)) fzero (float_of_Z 25)
     = Some (float_of_Z (-15)).
Proof.
  split; [reflexivity |].
  split; [| split; [| split; vm_compute; reflexivity]].
  - intros p pct off Hp.
    rewrite apply_rules_unfold, !applies_positive. cbv zeta.
    unfold discount_taken.
    change fzero with (S754_zero false).
    destruct (fltb (S754_zero false) pct).
    + destruct (fltb (S754_zero false) off); [reflexivity |].
      rewrite sub_zero_add_eps. reflexivity.
    + rewrite one_minus_zero_percent, (fmul_one p Hp).
      destruct (fltb (S754_zero false) off); [reflexivity |].
      rewrite sub_zero_add_eps. reflexivity.
  - intros p pct off Hp Hpct Hoff.
    rewrite apply_rules_unfold. cbv zeta.
    destruct (nonneg_cases pct Hpct) as [[s ->] | ->].
    + rewrite zero_not_applied, one_minus_zero_percent, (fmul_one p Hp).
      destruct (nonneg_cases off Hoff) as [[s' ->] | ->].
      * rewrite zero_not_applied, sub_zero_add_eps. reflexivity.
      * reflexivity.
    + destruct (nonneg_cases off Hoff) as [[s' ->] | ->].
      * rewrite zero_not_applied, sub_zero_add_eps. reflexivity.
      * reflexivity.
Qed.

Lemma apply_rules_formula_witness :
  apply_rules (Some (float_of_decimal false 1999 (-2))) (float_of_Z 15)
    (float_of_Z (-3))
  = Some (py_round2
            (fadd (fsub (fmul (float_of_decimal false 1999 (-2))
                              (fsub fone (fdiv (float_of_Z 15) f100)))
                        fzero)
                  f1e_9)).
Proof.
  apply (proj1 (proj2 apply_rules_formula)
           (float_of_decimal false 1999 (-2)) (float_of_Z 15) (float_of_Z (-3))).
  reflexivity.
Defined.

(** C6, as stated, fails: with no discount the rule engine turns 2.675 into
    2.68, while [round(2.675, 2)] is 2.67. *)
Lemma apply_rules_identity_counterexample :
  apply_rules (Some price_2_675) fzero fzero
    = Some (float_of_decimal false 268 (-2))
  /\ py_round2 price_2_675 = float_of_decimal false 267 (-2)
  /\ apply_rules (Some price_2_675) fzero fzero <> Some (py_round2 price_2_675).
Proof.
  split; [vm_compute; reflexivity |].
  split; [vm_compute; reflexivity |].
  vm_compute. discriminate.
Qed.

(** C6, amended: with zero percent off and zero absolute off the rule
    engine returns the price plus [1e-9], rounded to two decimals. *)
Theorem apply_rules_no_discount (x : float) (s1 s2 : bool) :
  apply_rules (Some x) (S754_zero s1) (S754_zero s2)
  = Some (py_round2 (fadd x f1e_9)).
Proof.
  rewrite apply_rules_unfold, !zero_not_applied. reflexivity.
Qed.

(** C10: discounts that are zero or negative are not applied: the result
    is the price plus [1e-9], rounded to two decimals. *)
Theorem apply_rules_ignores_nonpositive (x pct off : float) :
  fleb pct fzero = true -> fleb off fzero = true ->
  apply_rules (Some x) pct off = Some (py_round2 (fadd x f1e_9)).
Proof.
  intros Hpct Hoff.
  rewrite apply_rules_unfold.
  rewrite (nonpos_not_applied pct Hpct), (nonpos_not_applied off Hoff).
  reflexivity.
Qed.

Lemma apply_rules_ignores_nonpositive_witness :
  apply_rules (Some (float_of_Z 100)) (float_of_Z (-10)) (float_of_Z (-5))
  = Some (py_round2 (fadd (float_of_Z 100) f1e_9)).
Proof.
  apply apply_rules_ignores_nonpositive; reflexivity.
Defined.

(* ================================================================= *)
(** * Properties of the money parser *)

Lemma no_digit_tail (c : char) (s : text) : no_digit (c :: s) -> no_digit s.
Proof.
  unfold no_digit. cbn. intros H. apply orb_false_iff in H. apply H.
Qed.

Lemma no_digit_head (c : char) (s : text) :
  no_digit (c :: s) -> is_digit c = false.
Proof.
  unfold no_digit. cbn. intros H. apply orb_false_iff in H. apply H.
Qed.

Section MatcherFailure.

Variable R : Type.
Variable Dead : text -> Prop.
Hypothesis Dead_tail : forall c s, Dead (c :: s) -> Dead s.

Lemma star_loop_dead ma (k : text -> groups -> option R) :
  (forall s g k', Dead s -> (forall s' g', Dead s' -> k' s' g' = None) ->
                  ma s g k' = None) ->
  (forall s g, Dead s -> k s g = None) ->
  forall n s g, Dead s -> star_loop ma k n s g = None.
Proof.
  intros Hma Hk n. induction n as [| n IH]; intros s g Hs; cbn [star_loop].
  - apply Hk, Hs.
  - rewrite Hma.
    + apply Hk, Hs.
    + exact Hs.
    + intros s' g' Hs'. destruct (List.length s' <? List.length s)%nat.
      * apply IH, Hs'.
      * reflexivity.
Qed.

(** On a dead text a match whose continuation fails on dead texts fails:
    the matcher only ever hands a suffix of its input to the
    continuation. *)
Lemma rmatch_dead (r : regex) :
  forall s g (k : text -> groups -> option R),
    Dead s -> (forall s' g', Dead s' -> k s' g' = None) ->
    rmatch r s g k = None.
Proof.
  induction r as [| p | a IHa b IHb | a IHa b IHb | a IHa | a IHa | n a IHa];
    intros s g k Hs Hk; cbn [rmatch].
  - apply Hk, Hs.
  - destruct s as [| c s']; [reflexivity |].
    destruct (p c); [| reflexivity].
    apply Hk. eapply Dead_tail, Hs.
  - apply IHa; [exact Hs |].
    intros s' g' Hs'. apply IHb; assumption.
  - rewrite IHa by assumption. apply IHb; assumption.
  - rewrite IHa by assumption. apply Hk, Hs.
  - apply star_loop_dead; assumption.
  - apply IHa; [exact Hs |].
    intros s' g' Hs'. apply Hk, Hs'.
Qed.

End MatcherFailure.

(** A number starts with a digit. *)
Lemma number_needs_digit (R : Type) (s : text) (g : groups)
    (k : text -> groups -> option R) :
  no_digit s -> rmatch number_re s g k = None.
Proof.
  intros Hs. destruct s as [| c s']; [reflexivity |].
  apply no_digit_head in Hs.
  cbn. unfold is_digit in Hs |- *. rewrite Hs. reflexivity.
Qed.

Lemma rmatch_seq (R : Type) (a b : regex) (s : text) (g : groups)
    (k : text -> groups -> option R) :
  rmatch (Seq a b) s g k = rmatch a s g (fun s' g' => rmatch b s' g' k).
Proof. reflexivity. Qed.

Lemma money_needs_digit (R : Type) (s : text) (g : groups)
    (k : text -> groups -> option R) :
  no_digit s -> rmatch MONEY_RE s g k = None.
Proof.
  intros Hs. unfold MONEY_RE. rewrite rmatch_seq.
  apply (rmatch_dead R no_digit no_digit_tail); [exact Hs |].
  intros s1 g1 Hs1. rewrite rmatch_seq.
  apply (rmatch_dead R no_digit no_digit_tail); [exact Hs1 |].
  intros s2 g2 Hs2. apply number_needs_digit, Hs2.
Qed.

Lemma search_money_no_digit (s : text) :
  no_digit s -> search MONEY_RE s = None.
Proof.
  induction s as [| c s IH]; intros Hs.
  - reflexivity.
  - cbn [search]. rewrite money_needs_digit by exact Hs.
    apply IH. eapply no_digit_tail, Hs.
Qed.

(** X1: a text without a digit has no price: the result is [None], whatever
    else the text holds. *)
Lemma parse_price_number_no_digit (txt : text) :
  no_digit txt -> parse_price_number txt = None.
Proof.
  intros H. unfold parse_price_number.
  destruct (negb (nonempty txt)); [reflexivity |].
  rewrite search_money_no_digit by exact H. reflexivity.
Qed.

(** The three sample prices of the specification. *)
Lemma parse_price_number_samples :
  parse_price_number (T "$1,234.56") = Some (float_of_decimal false 123456 (-2))
  /\ parse_price_number (euro ++ T "12.00") = Some (float_of_Z 12)
  /\ parse_price_number (T "1234") = Some (float_of_Z 1234).
Proof.
  repeat split; vm_compute; reflexivity.
Qed.

(** C1: the grouped form of [MONEY_RE] demands the two decimals, so a
    grouped amount without cents is cut at its first comma: the price of
    "$1,234" is 1.0, not 1234.0. *)
Theorem parse_price_number_grouped_without_cents :
  parse_price_number (T "$1,234") = Some (float_of_Z 1)
  /\ parse_price_number (T "$1,234") <> Some (float_of_Z 1234).
Proof.
  split; [vm_compute; reflexivity | vm_compute; discriminate].
Qed.

(* ================================================================= *)
(** * Properties of text *)

Lemma text_eqb_eq (a b : text) : text_eqb a b = true <-> a = b.
Proof.
  revert b. induction a as [| x a IH]; intros [| y b]; cbn; split;
    try reflexivity; try discriminate.
  - intros H. apply andb_true_iff in H. destruct H as [Hx Ha].
    apply N.eqb_eq in Hx. apply IH in Ha. subst. reflexivity.
  - intros H. injection H as -> ->. apply andb_true_iff. split.
    + apply N.eqb_refl.
    + apply IH. reflexivity.
Qed.

Lemma text_eqb_neq (a b : text) : a <> b -> text_eqb a b = false.
Proof.
  intros H. destruct (text_eqb a b) eqn:E; [| reflexivity].
  apply text_eqb_eq in E. contradiction.
Qed.

Lemma text_eqb_refl (a : text) : text_eqb a a = true.
Proof. apply text_eqb_eq. reflexivity. Qed.

Lemma startswith_iff (p s : text) :
  startswith p s = true <-> exists q, s = p ++ q.
Proof.
  revert s. induction p as [| x p IH]; intros s; cbn.
  - split; [intros _; exists s; reflexivity | reflexivity].
  - destruct s as [| y s].
    + split; [discriminate | intros [q H]; discriminate H].
    + split.
      * intros H. apply andb_true_iff in H. destruct H as [Hx Hp].
        apply N.eqb_eq in Hx. apply IH in Hp. destruct Hp as [q ->].
        exists q. subst. reflexivity.
      * intros [q H]. injection H as -> ->. apply andb_true_iff. split.
        -- apply N.eqb_refl.
        -- apply IH. exists q. reflexivity.
Qed.

Lemma endswith_iff (p s : text) :
  endswith p s = true <-> exists q, s = q ++ p.
Proof.
  unfold endswith. rewrite startswith_iff. split.
  - intros [q H]. exists (rev q).
    rewrite <- (rev_involutive s), H, rev_app_distr, rev_involutive.
    reflexivity.
  - intros [q ->]. exists (rev q). apply rev_app_distr.
Qed.

Lemma contains_iff (p s : text) :
  contains p s = true <-> exists a b, s = a ++ p ++ b.
Proof.
  induction s as [| y s IH].
  - cbn. rewrite orb_false_r, startswith_iff. split.
    + intros [q H]. exists [], q. exact H.
    + intros [a [b H]]. destruct a as [| x a]; [| discriminate H].
      exists b. exact H.
  - cbn [contains]. rewrite orb_true_iff, startswith_iff, IH. split.
    + intros [[q H] | [a [b H]]].
      * exists [], q. exact H.
      * exists (y :: a), b. rewrite H. reflexivity.
    + intros [a [b H]]. destruct a as [| x a].
      * left. exists b. exact H.
      * right. injection H as -> ->. exists a, b. reflexivity.
Qed.

(** No upper-cased character is a small ASCII letter. *)
Lemma upper_char_not_small (x : char) : in_range 97 122 (upper_char x) = false.
Proof.
  unfold upper_char.
  destruct (in_range 97 122 x) eqn:E.
  - unfold in_range in *. apply andb_true_iff in E. destruct E as [E1 E2].
    apply N.leb_le in E1. apply N.leb_le in E2.
    apply andb_false_iff. left. apply N.leb_gt. lia.
  - destruct (N.eqb x 383); [reflexivity |].
    destruct (N.eqb x 305); [reflexivity | exact E].
Qed.

Lemma upper_head_not_small (s : text) (c : char) (rest : text) :
  in_range 97 122 c = true -> upper s <> c :: rest.
Proof.
  intros Hc H. destruct s as [| x s]; [discriminate H |].
  cbn in H. injection H as Hx _.
  rewrite <- Hx, upper_char_not_small in Hc. discriminate Hc.
Qed.

(* ================================================================= *)
(** * Properties of currency formatting *)

Lemma host_currency_canadian (host : text) :
  canadian_host host -> host_currency host = T "CAD".
Proof.
  unfold canadian_host, host_currency. cbv zeta.
  intros [H | [H | H]].
  - apply endswith_iff in H. rewrite H. reflexivity.
  - apply startswith_iff in H. rewrite H, orb_true_r. reflexivity.
  - apply contains_iff in H. rewrite H, orb_true_r. reflexivity.
Qed.

Lemma host_currency_other (host : text) :
  ~ canadian_host host -> host_currency host = T "USD".
Proof.
  unfold canadian_host, host_currency. cbv zeta. intros H.
  destruct (endswith (T ".ca") (lower host)) eqn:E1.
  { exfalso. apply H. left. apply endswith_iff, E1. }
  destruct (startswith (T "ca.") (lower host)) eqn:E2.
  { exfalso. apply H. right. left. apply startswith_iff, E2. }
  destruct (contains (T ".ca.") (lower host)) eqn:E3.
  { exfalso. apply H. right. right. apply contains_iff, E3. }
  reflexivity.
Qed.

Lemma lookup_unknown_code (currency : option text) :
  unknown_code currency ->
  lookup (upper (opt_text_or currency [])) CURRENCY_SYMBOLS = None.
Proof.
  destruct currency as [c |]; cbn [unknown_code opt_text_or]; [| reflexivity].
  intros [Husd Hcad].
  replace (text_or c []) with c by (destruct c; reflexivity).
  unfold CURRENCY_SYMBOLS. cbn [lookup].
  rewrite (text_eqb_neq _ _ Husd), (text_eqb_neq _ _ Hcad).
  rewrite !text_eqb_neq; [reflexivity | |];
    apply upper_head_not_small; reflexivity.
Qed.

(** C8: an absent value formats to the empty string; a currency code that
    is USD or CAD in any letter case selects [$] or [CA$] whatever the
    host; any other or no code leaves the choice to the host name, [CA$]
    for a name ending in [.ca], starting with [ca.] or containing [.ca.],
    and [$] for every other name. *)
Theorem fmt_price_symbol :
  (forall currency host, fmt_price None currency host = [])
  /\ (forall v c host, upper c = T "USD" ->
        fmt_price (Some v) (Some c) host = T "$" ++ format_comma_2f v)
  /\ (forall v c host, upper c = T "CAD" ->
        fmt_price (Some v) (Some c) host = T "CA$" ++ format_comma_2f v)
  /\ (forall v currency host, unknown_code currency -> canadian_host host ->
        fmt_price (Some v) currency host = T "CA$" ++ format_comma_2f v)
  /\ (forall v currency host, unknown_code currency -> ~ canadian_host host ->
        fmt_price (Some v) currency host = T "$" ++ format_comma_2f v).
Proof.
  repeat split.
  - intros v c host H. unfold fmt_price.
    replace (opt_text_or (Some c) []) with c by (destruct c; reflexivity).
    rewrite H. reflexivity.
  - intros v c host H. unfold fmt_price.
    replace (opt_text_or (Some c) []) with c by (destruct c; reflexivity).
    rewrite H. reflexivity.
  - intros v currency host Hc Hh. unfold fmt_price.
    rewrite (lookup_unknown_code _ Hc), (host_currency_canadian _ Hh).
    reflexivity.
  - intros v currency host Hc Hh. unfold fmt_price.
    rewrite (lookup_unknown_code _ Hc), (host_currency_other _ Hh).
    reflexivity.
Qed.

Lemma fmt_price_symbol_witness :
  fmt_price (Some f100) (Some (T "cad")) (T "shop.example.com")
    = T "CA$" ++ format_comma_2f f100
  /\ fmt_price (Some f100) None (T "Shop.Example.CA")
    = T "CA$" ++ format_comma_2f f100
  /\ fmt_price (Some f100) (Some (T "eur")) (T "shop.example.com")
    = T "$" ++ format_comma_2f f100.
Proof.
  destruct fmt_price_symbol as (_ & _ & Hcad & Hca & Hother).
  split; [| split].
  - apply Hcad. reflexivity.
  - apply Hca.
    + exact I.
    + left. exists (T "shop.example"). reflexivity.
  - apply Hother.
    + split; discriminate.
    + intros H. apply host_currency_canadian in H. discriminate H.
Defined.

(* ================================================================= *)
(** * Properties of the page classifier *)

(** [collect] reaches every element of the forest that passes a test on the
    element alone. *)
Lemma collect_inside (p : list node -> node -> bool) (n : node) (l : list node) :
  inside n l -> (forall anc, p anc n = true) ->
  (exists s, n = Str s \/ n = CData s) \/
  forall anc, exists t, In t (flat_map (collect p anc) l) /\ tag_node t = n.
Proof.
  intros Hin Hp.
  destruct n as [name0 attrs0 kids0 | s | s];
    [right | left; exists s; left; reflexivity
     | left; exists s; right; reflexivity].
  induction Hin as [l Hl | name attrs kids l Hl Hk IH]; intros anc.
  - exists {| tag_node := Elem name0 attrs0 kids0; tag_anc := anc |}.
    split; [| reflexivity].
    apply in_flat_map. exists (Elem name0 attrs0 kids0). split; [exact Hl |].
    cbn [collect]. rewrite Hp. left. reflexivity.
  - destruct (IH (Elem name attrs kids :: anc)) as [t [Ht Hn]].
    exists t. split; [| exact Hn].
    apply in_flat_map. exists (Elem name attrs kids). split; [exact Hl |].
    cbn [collect]. apply in_or_app. right. exact Ht.
Qed.

(** One of the five containers sets the kind of its strings itself: its
    text does not depend on what stands above it. *)
Lemma node_text_container (anc : list node) (n : node) (k : text) :
  container n = Some k -> node_text anc n = node_text [] n.
Proof.
  intros H. unfold node_text.
  destruct n as [name attrs kids | s | s]; try discriminate H.
  cbn [all_strings]. rewrite H. reflexivity.
Qed.

Lemma script_text_of_tag (t : tag) (attrs : list (text * text))
    (kids : list node) :
  tag_node t = Elem (T "script") attrs kids ->
  script_text (tag_node t)
  = match found (node_string (tag_node t)) with
    | Some s => s
    | None => get_text t
    end.
Proof.
  intros H. unfold script_text, get_text.
  rewrite (node_text_container (tag_anc t) (tag_node t) (T "script"));
    [reflexivity |].
  rewrite H. reflexivity.
Qed.

Lemma as_product_typed (obj : json) :
  typed_product obj -> exists m, In m (as_product obj).
Proof.
  intros [m [-> Hm]]. exists m. unfold as_product, jget.
  rewrite Hm, text_eqb_refl. left. reflexivity.
Qed.

Lemma product_object_found (obj : json) :
  product_object obj -> exists m, In m (as_product obj ++ graph_products obj).
Proof.
  intros [H | [m [gs [g [-> [Hg [Hin Ht]]]]]]].
  - destruct (as_product_typed obj H) as [m Hm].
    exists m. apply in_or_app. left. exact Hm.
  - destruct (as_product_typed g Ht) as [m' Hm'].
    exists m'. apply in_or_app. right.
    unfold graph_products, jget. rewrite Hg.
    apply in_flat_map. exists g. split; assumption.
Qed.

Lemma ld_json_block_is_script (P : platform) (n : node) (data : json) :
  ld_json_block P n data -> forall anc, is_ldjson_script anc n = true.
Proof.
  intros [attrs [kids [-> [Ht _]]]] anc.
  unfold is_ldjson_script, get_attr. rewrite Ht, !text_eqb_refl. reflexivity.
Qed.

Lemma jsonld_product_found (P : platform) (soup : list node) (n : node)
    (data : json) :
  inside n soup -> ld_json_block P n data -> describes_product data ->
  exists m, In m (find_jsonld_products P soup).
Proof.
  intros Hin Hblock Hdata.
  destruct (collect_inside is_ldjson_script n soup Hin
              (ld_json_block_is_script P n data Hblock))
    as [[s [Hs | Hs]] | Hcol].
  { destruct Hblock as [attrs [kids [Hname _]]]. rewrite Hs in Hname.
    discriminate Hname. }
  { destruct Hblock as [attrs [kids [Hname _]]]. rewrite Hs in Hname.
    discriminate Hname. }
  destruct (Hcol []) as [t [Ht Hn]].
  destruct Hblock as [attrs [kids [Hname [_ Hload]]]].
  assert (Hfound : exists m,
             In m (match data with
                   | JObj _ => flat_map (fun obj => as_product obj ++ graph_products obj) [data]
                   | JArr l => flat_map (fun obj => as_product obj ++ graph_products obj) l
                   | _ => []
                   end)).
  { destruct Hdata as [Hobj | [l [obj [-> [Hl Hobj]]]]].
    - destruct (product_object_found data Hobj) as [m Hm].
      exists m.
      assert (Hd : exists o, data = JObj o).
      { destruct Hobj as [[o [-> _]] | [o [gs [g [-> _]]]]]; exists o; reflexivity. }
      destruct Hd as [o ->]. cbn [flat_map]. rewrite app_nil_r. exact Hm.
    - destruct (product_object_found obj Hobj) as [m Hm].
      exists m. apply in_flat_map. exists obj. split; assumption. }
  destruct Hfound as [m Hm]. exists m.
  unfold find_jsonld_products. apply in_flat_map. exists t. split; [exact Ht |].
  rewrite Hn, Hload.
  destruct data; try exact Hm; destruct Hm.
Qed.

(** C7: a document that holds, at any depth, a [script] block of type
    [application/ld+json] whose data is an object typed Product, an object
    with a Product among the elements of its [@graph] array, or an array
    with such an object, is a product page. *)
Theorem jsonld_product_is_product_page (P : platform) (soup : list node)
    (n : node) (data : json) :
  inside n soup -> ld_json_block P n data -> describes_product data ->
  is_product_page P soup = true.
Proof.
  intros Hin Hblock Hdata.
  destruct (jsonld_product_found P soup n data Hin Hblock Hdata) as [m Hm].
  unfold is_product_page.
  destruct (find_jsonld_products P soup); [destruct Hm |].
  apply orb_true_r.
Qed.

(* ================================================================= *)
(** * Properties of the scrapers *)

Lemma apply_rules_present (p : option float) (pct off : float) :
  (exists d, apply_rules p pct off = Some d) <-> (exists v, p = Some v).
Proof.
  destruct p as [v |]; cbn.
  - split; intros _; eexists; reflexivity.
  - split; intros [x H]; discriminate H.
Qed.

(** Case analysis on what a scraper's result was computed from. *)
Ltac break_result H :=
  repeat match type of H with
         | Raise _ = Ok _ => discriminate H
         | context [match ?x with _ => _ end] =>
             destruct x eqn:?; cbn [bind] in H
         | context [bind ?x _] => destruct x eqn:?; cbn [bind] in H
         end.

Lemma scrape_product_item (P : platform) (final_url : text) (html : list node)
    (rules : Rules) (items : list Item) :
  scrape_product P final_url html rules = Ok items ->
  exists it,
    items = [it]
    /\ discounted_value it
       = apply_rules (price_value it) (or_zero (percent_off rules))
           (or_zero (absolute_off rules))
    /\ image_url it = extract_image_url (product_image_scope html).
Proof.
  unfold scrape_product, product_image_scope. intros H.
  break_result H;
    injection H as <-; eexists; (split; [reflexivity |]); cbn;
    split; first [reflexivity | congruence].
Qed.

Lemma scrape_card_item (P : platform) (final_url host : text)
    (pct off : float) (card : tag) (items : list Item) :
  scrape_card P final_url host pct off card = Ok items ->
  items = []
  \/ exists it,
       items = [it]
       /\ discounted_value it = apply_rules (price_value it) pct off
       /\ image_url it = extract_image_url (of_tag card).
Proof.
  unfold scrape_card. intros H.
  break_result H; injection H as <-;
    first [ left; reflexivity
          | right; eexists; (split; [reflexivity |]); cbn;
            split; first [reflexivity | congruence] ].
Qed.

Lemma for_each_forall (A B : Type) (f : A -> result (list B))
    (Q : B -> Prop) (l : list A) :
  (forall x ys, f x = Ok ys -> Forall Q ys) ->
  forall out, for_each f l = Ok out -> Forall Q out.
Proof.
  intros Hf. induction l as [| x l IH]; intros out H; cbn in H.
  - injection H as <-. constructor.
  - destruct (f x) as [ys | e] eqn:Ex; cbn in H; [| discriminate H].
    destruct (for_each f l) as [zs | e] eqn:El; cbn in H; [| discriminate H].
    injection H as <-. apply Forall_app. split.
    + eapply Hf, Ex.
    + apply IH. reflexivity.
Qed.

Lemma discount_matches_apply_rules (it : Item) (pct off : float) :
  discounted_value it = apply_rules (price_value it) pct off ->
  discount_matches_price it.
Proof.
  intros H. unfold discount_matches_price. rewrite H.
  apply apply_rules_present.
Qed.

Lemma error_item_matches (u s msg : text) :
  discount_matches_price (error_item u s msg).
Proof.
  unfold discount_matches_price. cbn. split; intros [x H]; discriminate H.
Qed.

Lemma scrape_product_matches (P : platform) (final_url : text)
    (html : list node) (rules : Rules) (items : list Item) :
  scrape_product P final_url html rules = Ok items ->
  Forall discount_matches_price items.
Proof.
  intros H. apply scrape_product_item in H.
  destruct H as [it [-> [Hd _]]].
  constructor; [| constructor].
  eapply discount_matches_apply_rules, Hd.
Qed.

Lemma scrape_category_page_matches (P : platform) (final_url : text)
    (html : list node) (rules : Rules) (items : list Item) :
  scrape_category_page P final_url html rules = Ok items ->
  Forall discount_matches_price items.
Proof.
  unfold scrape_category_page. intros H.
  destruct (hostname P final_url) as [host | e]; cbn [bind] in H;
    [| discriminate H].
  eapply for_each_forall; [| exact H].
  intros card ys Hc. apply scrape_card_item in Hc.
  destruct Hc as [-> | [it [-> [Hd _]]]]; [constructor |].
  constructor; [| constructor].
  eapply discount_matches_apply_rules, Hd.
Qed.

Lemma crawl_pages_matches (P : platform) (rules : Rules) (delay_ms : Z)
    (budget : nat) :
  forall w items seen u w' out,
    Forall discount_matches_price items ->
    crawl_pages P budget w items seen u rules delay_ms = (w', Ok out) ->
    Forall discount_matches_price out.
Proof.
  induction budget as [| budget IH]; intros w items seen u w' out Hitems H;
    cbn [crawl_pages] in H.
  - injection H as _ <-. exact Hitems.
  - destruct (negb (nonempty u)); [injection H as _ <-; exact Hitems |].
    destruct (get_html_safe P w u delay_ms)
      as [w1 [[final_url html | msg] | e]]; [| | discriminate H].
    + destruct (scrape_category_page P final_url html rules)
        as [page_items | e] eqn:Epage; cbn [bind] in H;
        [| discriminate H].
      destruct (find_next_page_url P html final_url) as [nxt | e];
        cbn [bind] in H; [| discriminate H].
      assert (Hall : Forall discount_matches_price (items ++ page_items)).
      { apply Forall_app. split; [exact Hitems |].
        eapply scrape_category_page_matches, Epage. }
      destruct nxt as [n |].
      * destruct (nonempty n && negb (mem n (final_url :: seen))).
        -- eapply IH; [exact Hall | exact H].
        -- injection H as _ <-. exact Hall.
      * injection H as _ <-. exact Hall.
    + destruct (hostname P u) as [s | e]; cbn [bind] in H;
        [injection H as _ <- | discriminate H].
      apply Forall_app. split; [exact Hitems |].
      constructor; [apply error_item_matches | constructor].
Qed.

Lemma scrape_url_matches (P : platform) (w : world P) (u : text)
    (rules : Rules) (crawl_pagination : bool) (max_pages delay_ms : Z)
    (w' : world P) (items : list Item) :
  scrape_url P w u rules crawl_pagination max_pages delay_ms = (w', Ok items) ->
  Forall discount_matches_price items.
Proof.
  unfold scrape_url. intros H.
  destruct (get_html_safe P w u 0)
      as [w1 [[final_url html | msg] | e]]; [| | discriminate H].
  - destruct (is_product_page P html).
    { injection H as _ H. eapply scrape_product_matches, H. }
    destruct (is_category_page html).
    + destruct crawl_pagination.
      * unfold scrape_category_all_pages in H.
        eapply crawl_pages_matches; [constructor | exact H].
      * injection H as _ H. eapply scrape_category_page_matches, H.
    + injection H as _ H. eapply scrape_product_matches, H.
  - destruct (hostname P u) as [s | e]; cbn [bind] in H;
      [injection H as _ <- | discriminate H].
    constructor; [apply error_item_matches | constructor].
Qed.

Lemma scrape_each_matches (P : platform) (rules : Rules)
    (crawl_pagination : bool) (max_pages delay_ms : Z) (urls : list text) :
  forall w w' items,
    scrape_each P w urls rules crawl_pagination max_pages delay_ms
      = (w', Ok items) ->
    Forall discount_matches_price items.
Proof.
  induction urls as [| u urls IH]; intros w w' items H; cbn [scrape_each] in H.
  - injection H as _ <-. constructor.
  - destruct (scrape_url P w u rules crawl_pagination max_pages delay_ms)
      as [w1 [got | e]] eqn:Eu; [| discriminate H].
    destruct (scrape_each P w1 urls rules crawl_pagination max_pages delay_ms)
      as [w2 [more | e]] eqn:Erest; cbn [bind] in H;
      [injection H as _ <- | discriminate H].
    apply Forall_app. split.
    + eapply scrape_url_matches, Eu.
    + eapply IH, Erest.
Qed.

(** C9: on every path that produces items, the product page, the cards of
    a category page, the pagination walk with its error row, the dispatch
    of one URL with its error row, and the whole batch, each item has a
    discounted value exactly when it has a price. *)
Theorem discounted_iff_price (P : platform) (rules : Rules)
    (crawl_pagination : bool) (max_pages delay_ms : Z) :
  (forall final_url html items,
      scrape_product P final_url html rules = Ok items ->
      Forall discount_matches_price items)
  /\ (forall final_url html items,
        scrape_category_page P final_url html rules = Ok items ->
        Forall discount_matches_price items)
  /\ (forall w start_url w' items,
        scrape_category_all_pages P w start_url rules max_pages delay_ms
          = (w', Ok items) ->
        Forall discount_matches_price items)
  /\ (forall w u w' items,
        scrape_url P w u rules crawl_pagination max_pages delay_ms
          = (w', Ok items) ->
        Forall discount_matches_price items)
  /\ (forall w urls w' items,
        scrape_each P w urls rules crawl_pagination max_pages delay_ms
          = (w', Ok items) ->
        Forall discount_matches_price items).
Proof.
  split; [| split; [| split; [| split]]].
  - intros final_url html items. apply scrape_product_matches.
  - intros final_url html items. apply scrape_category_page_matches.
  - intros w start_url w' items H. unfold scrape_category_all_pages in H.
    eapply crawl_pages_matches; [constructor | exact H].
  - intros w u w' items. apply scrape_url_matches.
  - intros w urls w' items. apply scrape_each_matches.
Qed.

Lemma discounted_iff_price_witness :
  Forall discount_matches_price
    (items_of (snd (scrape_url shop [] listing_1 no_rules true 3 400))).
Proof.
  destruct (discounted_iff_price shop no_rules true 3 400)
    as (_ & _ & _ & Hurl & _).
  eapply (Hurl [] listing_1
            (fst (scrape_url shop [] listing_1 no_rules true 3 400))).
  vm_compute. reflexivity.
Defined.

(* ================================================================= *)
(** * Properties of image extraction *)

Lemma attr_nonempty (a : text) (t : tag) (v : text) :
  attr a t = Some v -> get_attr a (tag_node t) = Some v /\ text_or v [] = v.
Proof.
  unfold attr, found. destruct (get_attr a (tag_node t)) as [x |];
    [| discriminate].
  destruct (nonempty x) eqn:E; [| discriminate].
  intros H. injection H as <-. split; [reflexivity |].
  unfold text_or. rewrite E. reflexivity.
Qed.

Lemma attr_empty (a : text) (t : tag) :
  attr a t = None -> opt_text_or (get_attr a (tag_node t)) [] = [].
Proof.
  unfold attr, found, opt_text_or.
  destruct (get_attr a (tag_node t)) as [x |]; [| reflexivity].
  unfold text_or. destruct (nonempty x) eqn:E; [discriminate |].
  intros _. destruct x; [reflexivity | discriminate E].
Qed.

Lemma extract_image_url_chosen (container : scope) :
  extract_image_url container =
  match chosen_image container with
  | None => []
  | Some el =>
      match attr (T "data-src") el with
      | Some v => v
      | None => opt_text_or (get_attr (T "src") (tag_node el)) []
      end
  end.
Proof.
  unfold extract_image_url, image_selectors, chosen_image. cbn [first_image].
  destruct (select_one [[part "img" "" [has "data-src"]]] container);
    [reflexivity |].
  destruct (select_one [[part "img" "" [has "srcset"]]] container);
    [reflexivity |].
  destruct (select_one [[part "img" "" [has "src"]]] container); reflexivity.
Qed.

(** C5, as stated, fails: for an image that carries both [srcset] and
    [src], the extractor returns the [src], where the first available of
    [data-src], [srcset], [src] is the [srcset]. *)
Lemma extract_image_url_skips_srcset :
  extract_image_url (of_soup responsive_image) = T "b.png"
  /\ image_by_spec (of_soup responsive_image) = T "a.png 1x"
  /\ extract_image_url (of_soup responsive_image)
     <> image_by_spec (of_soup responsive_image).
Proof.
  split; [vm_compute; reflexivity |].
  split; [vm_compute; reflexivity |].
  vm_compute. discriminate.
Qed.

(** C5, amended: the extractor settles on the first image matching
    [img[data-src]], else [img[srcset]], else [img[src]], and returns that
    element's [data-src] if it has a non-empty one, otherwise its [src] if
    it has a non-empty one, and otherwise the empty string: the value of
    [srcset] is never returned.  Without any such image it returns the
    empty string.  A product page is searched inside its gallery container
    when it has one and as a whole otherwise; a category card is searched
    inside the card. *)
Theorem extract_image_url_amended :
  (forall container el,
      chosen_image container = Some el ->
      (forall v, attr (T "data-src") el = Some v ->
                 extract_image_url container = v)
      /\ (attr (T "data-src") el = None ->
          forall v, attr (T "src") el = Some v ->
                    extract_image_url container = v)
      /\ (attr (T "data-src") el = None -> attr (T "src") el = None ->
          extract_image_url container = []))
  /\ (forall container,
        chosen_image container = None -> extract_image_url container = [])
  /\ (forall P final_url html rules items,
        scrape_product P final_url html rules = Ok items ->
        exists it,
          items = [it]
          /\ image_url it = extract_image_url (product_image_scope html))
  /\ (forall P final_url host pct off card it,
        scrape_card P final_url host pct off card = Ok [it] ->
        image_url it = extract_image_url (of_tag card)).
Proof.
  split; [| split; [| split]].
  - intros container el Hel. rewrite extract_image_url_chosen, Hel.
    split; [| split].
    + intros v Hv. rewrite Hv. reflexivity.
    + intros Hnone v Hv. rewrite Hnone.
      apply attr_nonempty in Hv. destruct Hv as [Hg Hv].
      rewrite Hg. exact Hv.
    + intros Hnone Hsrc. rewrite Hnone. apply attr_empty, Hsrc.
  - intros container Hnone. rewrite extract_image_url_chosen, Hnone.
    reflexivity.
  - intros P final_url html rules items H.
    apply scrape_product_item in H. destruct H as [it [Hit [_ Himg]]].
    exists it. split; assumption.
  - intros P final_url host pct off card it H.
    apply scrape_card_item in H.
    destruct H as [H | [it' [H [_ Himg]]]]; [discriminate H |].
    injection H as ->. exact Himg.
Qed.

Lemma extract_image_url_amended_witness :
  extract_image_url (of_soup responsive_image) = T "b.png".
Proof.
  destruct extract_image_url_amended as (Hchosen & _).
  refine (proj1 (proj2 (Hchosen (of_soup responsive_image)
                   {| tag_node := hd (Str []) responsive_image; tag_anc := [] |}
                   _)) _ (T "b.png") _); reflexivity.
Defined.

(** C7 at a sample page: a Product inside the [@graph] array of a block
    below [<head>]. *)
Lemma jsonld_product_is_product_page_witness :
  is_product_page shop graph_page = true.
Proof.
  apply (jsonld_product_is_product_page shop graph_page graph_script
           graph_block_data).
  - eapply inside_below; [left; reflexivity |].
    eapply inside_below; [left; reflexivity |].
    apply inside_here. left. reflexivity.
  - eexists. eexists. split; [reflexivity |]. split; reflexivity.
  - left. right. eexists. eexists. eexists.
    split; [reflexivity |]. split; [reflexivity |].
    split; [left; reflexivity |].
    eexists. split; reflexivity.
Defined.

(* ================================================================= *)
(** * The pagination walk *)

(** C3: the visited set holds resolved URLs, but a next link is tested
    against it before it is fetched.  When the second listing page
    redirects to the first, the walk requests it again and again: within a
    budget of three pages the first page is reached three times and its
    card is reported three times. *)
Theorem walker_revisits_resolved_url :
  fst (scrape_category_all_pages shop [] listing_1 no_rules 3 400)
    = [ (listing_1, listing_1); (listing_2, listing_1); (listing_2, listing_1) ]
  /\ exists items,
       snd (scrape_category_all_pages shop [] listing_1 no_rules 3 400) = Ok items
       /\ map url items = [product_1; product_1; product_1].
Proof.
  split; [vm_compute; reflexivity |].
  eexists. split; vm_compute; reflexivity.
Qed.

(** On the recording platform [get_html_safe] does what it does on the
    platform itself, and logs the URL when it comes to the request. *)
Lemma get_html_safe_recording (P : platform) (w : world P) (log : list text)
    (u : text) (delay_ms : Z) :
  get_html_safe (recording P) (w, log) u delay_ms
  = (let (w1, r) := get_html_safe P w u delay_ms in
     ((w1, match r with Ok _ => log ++ [u] | Raise _ => log end), r)).
Proof.
  unfold get_html_safe. destruct (Z.eqb delay_ms 0); simpl.
  - destruct (http_get P w u) as [w1 r]. reflexivity.
  - destruct (pause P w delay_ms) as [w0 [[] | e]]; simpl; [| reflexivity].
    destruct (http_get P w0 u) as [w1 r]. reflexivity.
Qed.

(** Without a delay there is no pause. *)
Lemma get_html_safe_at_once (P : platform) (w : world P) (u : text) :
  get_html_safe P w u 0 = (let (w1, pair) := http_get P w u in (w1, Ok pair)).
Proof. reflexivity. Qed.

Lemma get_html_safe_no_redirect (P : platform) (w w1 : world P)
    (u final_url : text) (html : list node) (delay_ms : Z) :
  no_redirects P ->
  get_html_safe P w u delay_ms = (w1, Ok (Fetched final_url html)) ->
  final_url = u.
Proof.
  intros Hnr. unfold get_html_safe.
  destruct (if Z.eqb delay_ms 0 then (w, Ok tt) else pause P w delay_ms)
    as [w0 [[] | e]]; [| discriminate].
  destruct (http_get P w0 u) as [w2 r] eqn:Eget.
  intros H. injection H as _ ->. eapply Hnr, Eget.
Qed.

(** The walk makes at most [max_pages] requests, whatever the pages link
    to. *)
Lemma crawl_pages_request_bound (P : platform) (rules : Rules) (delay_ms : Z)
    (budget : nat) :
  forall (w : world P) (log : list text) items seen u,
    (List.length (snd (fst (crawl_pages (recording P) budget (w, log) items
                              seen u rules delay_ms)))
     <= List.length log + budget)%nat.
Proof.
  induction budget as [| budget IH]; intros w log items seen u;
    cbn [crawl_pages].
  - cbn. lia.
  - destruct (negb (nonempty u)); [cbn; lia |].
    rewrite get_html_safe_recording.
    destruct (get_html_safe P w u delay_ms)
      as [w1 [[final_url html | msg] | e]]; [| | cbn; lia].
    + destruct (page_items <- scrape_category_page (recording P) final_url html
                                rules ;;
                nxt <- find_next_page_url (recording P) html final_url ;;
                Ok (page_items, nxt)) as [[page_items [nxt |]] | e];
        try (cbn; rewrite length_app; cbn; lia).
      destruct (nonempty nxt && negb (mem nxt (final_url :: seen)));
        [| cbn; rewrite length_app; cbn; lia].
      eapply Nat.le_trans; [apply IH |].
      rewrite length_app. cbn [List.length]. lia.
    + cbn. rewrite length_app. cbn. lia.
Qed.

(** X5: a walk over the pages of a category makes at most [max_pages]
    requests, whatever the pages link to. *)
Lemma walker_request_bound (P : platform) (rules : Rules)
    (max_pages delay_ms : Z) (w : world P) (start_url : text) :
  (List.length (snd (fst (scrape_category_all_pages (recording P) (w, [])
                            start_url rules max_pages delay_ms)))
   <= Z.to_nat max_pages)%nat.
Proof.
  unfold scrape_category_all_pages.
  apply (crawl_pages_request_bound P rules delay_ms (Z.to_nat max_pages) w []).
Qed.

Lemma mem_false (x : text) (l : list text) : mem x l = false -> ~ In x l.
Proof.
  unfold mem. intros H Hin.
  assert (E : existsb (text_eqb x) l = true).
  { apply existsb_exists. exists x. split; [exact Hin | apply text_eqb_refl]. }
  rewrite E in H. discriminate H.
Qed.

(** Without redirects the walk requests no URL twice: every URL requested
    so far is in the visited set, and the next one is not. *)
Lemma crawl_pages_no_repeat (P : platform) (rules : Rules) (delay_ms : Z)
    (budget : nat) :
  no_redirects P ->
  forall (w : world P) (log : list text) items seen u,
    NoDup log -> (forall x, In x log -> In x seen) -> ~ In u seen ->
    NoDup (snd (fst (crawl_pages (recording P) budget (w, log) items seen u
                       rules delay_ms))).
Proof.
  intros Hnr. induction budget as [| budget IH];
    intros w log items seen u Hnd Hsub Hu; cbn [crawl_pages].
  - exact Hnd.
  - destruct (negb (nonempty u)); [exact Hnd |].
    assert (Hnd' : NoDup (log ++ [u])).
    { apply NoDup_app; [exact Hnd | constructor; [intros [] | constructor] |].
      intros x Hx [<- | []]. apply Hu, Hsub, Hx. }
    rewrite get_html_safe_recording.
    destruct (get_html_safe P w u delay_ms)
      as [w1 [[final_url html | msg] | e]] eqn:Eget;
      [| exact Hnd' | exact Hnd].
    apply (get_html_safe_no_redirect P _ _ _ _ _ _ Hnr) in Eget.
    subst final_url.
    destruct (page_items <- scrape_category_page (recording P) u html rules ;;
              nxt <- find_next_page_url (recording P) html u ;;
              Ok (page_items, nxt)) as [[page_items [nxt |]] | e];
      try exact Hnd'.
    destruct (nonempty nxt && negb (mem nxt (u :: seen))) eqn:Enext;
      [| exact Hnd'].
    apply andb_true_iff in Enext. destruct Enext as [_ Enext].
    apply negb_true_iff in Enext.
    apply IH; [exact Hnd' | | apply mem_false, Enext].
    intros x Hx. apply in_app_or in Hx. destruct Hx as [Hx | [<- | []]].
    + right. apply Hsub, Hx.
    + left. reflexivity.
Qed.

(** X6: on a site that answers every request under the URL requested, a
    walk requests no URL twice. *)
Lemma walker_no_repeat_without_redirects (P : platform) (rules : Rules)
    (max_pages delay_ms : Z) (w : world P) (start_url : text) :
  no_redirects P ->
  NoDup (snd (fst (scrape_category_all_pages (recording P) (w, []) start_url
                     rules max_pages delay_ms))).
Proof.
  intros Hnr. unfold scrape_category_all_pages.
  apply crawl_pages_no_repeat;
    [exact Hnr | constructor | intros x [] | intros []].
Qed.

(* ================================================================= *)
(** * The batch loop *)

Lemma scrape_each_app (P : platform) (rules : Rules) (crawl_pagination : bool)
    (max_pages delay_ms : Z) (us1 us2 : list text) :
  forall w,
    scrape_each P w (us1 ++ us2) rules crawl_pagination max_pages delay_ms =
    let (w1, r1) :=
      scrape_each P w us1 rules crawl_pagination max_pages delay_ms in
    match r1 with
    | Raise e => (w1, Raise e)
    | Ok a =>
        let (w2, r2) :=
          scrape_each P w1 us2 rules crawl_pagination max_pages delay_ms in
        (w2, b <- r2 ;; Ok (a ++ b))
    end.
Proof.
  induction us1 as [| u us1 IH]; intros w; cbn [scrape_each app].
  - destruct (scrape_each P w us2 rules crawl_pagination max_pages delay_ms)
      as [w2 [b | e]]; reflexivity.
  - destruct (scrape_url P w u rules crawl_pagination max_pages delay_ms)
      as [w1 [got | e]]; [| reflexivity].
    rewrite IH.
    destruct (scrape_each P w1 us1 rules crawl_pagination max_pages delay_ms)
      as [w2 [a | e]]; cbn [bind]; [| reflexivity].
    destruct (scrape_each P w2 us2 rules crawl_pagination max_pages delay_ms)
      as [w3 [b | e]]; cbn [bind]; [| reflexivity].
    rewrite app_assoc. reflexivity.
Qed.

(** X7: a failed fetch of a URL whose host name can be taken leaves one
    error row between the items of the URLs before it and after it. *)
Lemma fetch_failure_isolated (P : platform) (rules : Rules)
    (crawl_pagination : bool) (max_pages delay_ms : Z)
    (us1 us2 : list text) (u msg host : text) (w w1 w2 : world P)
    (items1 : list Item) :
  scrape_each P w us1 rules crawl_pagination max_pages delay_ms
    = (w1, Ok items1) ->
  http_get P w1 u = (w2, Failed msg) ->
  hostname P u = Ok host ->
  scrape_each P w (us1 ++ u :: us2) rules crawl_pagination max_pages delay_ms =
  let (w3, r) :=
    scrape_each P w2 us2 rules crawl_pagination max_pages delay_ms in
  (w3, more <- r ;; Ok (items1 ++ error_item u host msg :: more)).
Proof.
  intros H1 Hget Hhost. rewrite scrape_each_app, H1.
  cbn [scrape_each]. unfold scrape_url.
  rewrite get_html_safe_at_once, Hget, Hhost. cbn [bind].
  destruct (scrape_each P w2 us2 rules crawl_pagination max_pages delay_ms)
    as [w3 [more | e]]; reflexivity.
Qed.

(** C4: the error row of a failed fetch is built outside the handler that
    caught the failure, and taking the host name of a URL with an
    unmatched bracket raises.  The request for the malformed URL fails, no
    error row is made, the batch ends with the exception and the items of
    the first URL are lost; without that URL the same batch returns both
    products. *)
Theorem malformed_url_aborts_batch :
  snd (http_get shop [] malformed_url)
    = Failed (T "InvalidURL: Failed to parse: http://[")
  /\ snd (api_scrape shop [] (batch [product_1; malformed_url; product_2]))
     = Raise (T "ValueError: Invalid IPv6 URL")
  /\ map url (items_of (snd (api_scrape shop [] (batch [product_1; product_2]))))
     = [product_1; product_2].
Proof.
  split; [vm_compute; reflexivity |].
  split; vm_compute; reflexivity.
Qed.

(* ================================================================= *)
(** * Further properties: input normalisation *)

Lemma mem_true (x : text) (l : list text) : mem x l = true <-> In x l.
Proof.
  unfold mem. rewrite existsb_exists. split.
  - intros [y [Hy E]]. apply text_eqb_eq in E. subst. exact Hy.
  - intros H. exists x. split; [exact H | apply text_eqb_refl].
Qed.

Lemma dedupe_spec (urls : list text) :
  forall seen_u,
    NoDup (dedupe seen_u urls)
    /\ forall u, In u (dedupe seen_u urls) <-> In u urls /\ ~ In u seen_u.
Proof.
  induction urls as [| x urls IH]; intros seen_u; cbn [dedupe].
  - split; [constructor |]. intros u. split; [intros [] | intros [[] _]].
  - destruct (mem x seen_u) eqn:E.
    + apply mem_true in E. destruct (IH seen_u) as [Hnd Hin].
      split; [exact Hnd |]. intros u. rewrite Hin. split.
      * intros [H1 H2]. split; [right; exact H1 | exact H2].
      * intros [[<- | H1] H2]; [contradiction | split; assumption].
    + apply mem_false in E. destruct (IH (x :: seen_u)) as [Hnd Hin].
      split.
      * constructor; [| exact Hnd]. intros H. apply Hin in H.
        destruct H as [_ H]. apply H. left. reflexivity.
      * intros u. split.
        -- intros [<- | H]; [split; [left; reflexivity | exact E] |].
           apply Hin in H. destruct H as [H1 H2].
           split; [right; exact H1 |]. intros H3. apply H2. right. exact H3.
        -- intros [[<- | H1] H2]; [left; reflexivity |].
           destruct (list_eq_dec N.eq_dec x u) as [<- | Hne];
             [left; reflexivity |].
           right. apply Hin. split; [exact H1 |].
           intros [H3 | H3]; [contradiction | contradiction].
Qed.

Lemma dedupe_fixed (urls : list text) :
  forall seen_u,
    NoDup urls -> (forall u, In u urls -> ~ In u seen_u) ->
    dedupe seen_u urls = urls.
Proof.
  induction urls as [| x urls IH]; intros seen_u Hnd Hdis; cbn [dedupe].
  - reflexivity.
  - inversion Hnd as [| ? ? Hx Hnd']; subst.
    destruct (mem x seen_u) eqn:E.
    + apply mem_true in E. exfalso. apply (Hdis x); [left; reflexivity | exact E].
    + f_equal. apply IH; [exact Hnd' |].
      intros u Hu [<- | H]; [contradiction |].
      apply (Hdis u); [right; exact Hu | exact H].
Qed.

(** X3: removing duplicate URLs leaves no URL twice, keeps exactly the URLs
    of the input, and changes nothing when applied again. *)
Theorem dedupe_keeps_each_url_once (urls : list text) :
  NoDup (dedupe [] urls)
  /\ (forall u, In u (dedupe [] urls) <-> In u urls)
  /\ dedupe [] (dedupe [] urls) = dedupe [] urls.
Proof.
  destruct (dedupe_spec urls []) as [Hnd Hin].
  split; [exact Hnd |]. split.
  - intros u. rewrite Hin. split; [intros [H _]; exact H |].
    intros H. split; [exact H | intros []].
  - apply dedupe_fixed; [exact Hnd | intros u _ []].
Qed.

(* ================================================================= *)
(** * Further properties: the free port *)

Lemma port_in_range (p : Z) :
  0 <= p <= 65535 -> (0 <=? p) && (p <=? 65535) = true.
Proof.
  intros H. apply andb_true_iff. split; apply Z.leb_le; lia.
Qed.

Lemma port_out_of_range (p : Z) :
  ~ (0 <= p <= 65535) -> (0 <=? p) && (p <=? 65535) = false.
Proof.
  intros H. destruct ((0 <=? p) && (p <=? 65535)) eqn:E; [| reflexivity].
  apply andb_true_iff in E. destruct E as [E1 E2].
  apply Z.leb_le in E1, E2. lia.
Qed.

Lemma first_free_spec (free : Z -> bool) (n : nat) :
  forall p,
    (forall q, p <= q < p + Z.of_nat n -> 0 <= q <= 65535) ->
    (first_free free p n = Ok 0
     /\ forall q, p <= q < p + Z.of_nat n -> free q = false)
    \/ (exists r,
          first_free free p n = Ok r
          /\ p <= r < p + Z.of_nat n
          /\ free r = true
          /\ forall q, p <= q < r -> free q = false).
Proof.
  induction n as [| n IH]; intros p Hin; cbn [first_free].
  - left. split; [reflexivity | intros q Hq; lia].
  - rewrite port_in_range by (apply Hin; lia). destruct (free p) eqn:E.
    + right. exists p. split; [reflexivity |]. split; [lia |].
      split; [exact E | intros q Hq; lia].
    + destruct (IH (p + 1)) as [[H0 Hall] | (r & Hr & Hrange & Hf & Hmin)].
      * intros q Hq. apply Hin. lia.
      * left. split; [exact H0 |]. intros q Hq.
        destruct (Z.eq_dec q p) as [-> | Hne]; [exact E | apply Hall; lia].
      * right. exists r. split; [exact Hr |]. split; [lia |].
        split; [exact Hf |]. intros q Hq.
        destruct (Z.eq_dec q p) as [-> | Hne]; [exact E | apply Hmin; lia].
Qed.

Lemma first_free_overflow (free : Z -> bool) (n : nat) :
  forall p q,
    p <= q < p + Z.of_nat n -> ~ (0 <= q <= 65535) ->
    (forall q', p <= q' < q -> 0 <= q' <= 65535 /\ free q' = false) ->
    first_free free p n = Raise (T "OverflowError").
Proof.
  induction n as [| n IH]; intros p q Hq Hout Hbefore; cbn [first_free];
    [lia |].
  destruct (Z.eq_dec p q) as [-> | Hne].
  - rewrite port_out_of_range by exact Hout. reflexivity.
  - destruct (Hbefore p) as [Hin Hbusy]; [lia |].
    rewrite port_in_range, Hbusy by exact Hin.
    apply (IH (p + 1) q); [lia | exact Hout |].
    intros q' Hq'. apply Hbefore. lia.
Qed.

(** X16: when the ports from [start] to [end] lie between 0 and 65535
    and some of them can be bound, [find_free_port] returns the lowest
    such port; when none of them can, it returns 0.  When the scan comes
    to a port outside 0..65535 before it finds one to bind, the
    [OverflowError] of [bind] leaves the function. *)
Theorem find_free_port_lowest (free : Z -> bool) (start end_ : Z) :
  (0 <= start -> end_ <= 65535 ->
     (forall q, start <= q <= end_ -> free q = true ->
        exists p,
          find_free_port free start end_ = Ok p
          /\ start <= p <= q
          /\ free p = true
          /\ forall q', start <= q' < p -> free q' = false)
     /\ ((forall q, start <= q <= end_ -> free q = false) ->
         find_free_port free start end_ = Ok 0))
  /\ (forall q,
        start <= q <= end_ -> ~ (0 <= q <= 65535) ->
        (forall q', start <= q' < q -> 0 <= q' <= 65535 /\ free q' = false) ->
        find_free_port free start end_ = Raise (T "OverflowError")).
Proof.
  unfold find_free_port. split.
  - intros Hlo Hhi.
    destruct (first_free_spec free (Z.to_nat (end_ + 1 - start)) start)
      as [[H0 Hall] | (r & Hr & Hrange & Hf & Hmin)].
    + intros q Hq. lia.
    + split.
      * intros q Hq Hfree. rewrite Hall in Hfree by lia. discriminate Hfree.
      * intros _. exact H0.
    + split.
      * intros q Hq Hfree. exists r. split; [exact Hr |].
        split; [| split; assumption].
        split; [lia |].
        destruct (Z_le_gt_dec r q) as [Hle | Hgt]; [exact Hle |].
        rewrite Hmin in Hfree by lia. discriminate Hfree.
      * intros Hnone. rewrite Hnone in Hf by lia. discriminate Hf.
  - intros q Hq Hout Hbefore.
    apply (first_free_overflow free _ start q); [lia | exact Hout | exact Hbefore].
Qed.

Lemma find_free_port_lowest_witness :
  find_free_port (fun p => 5002 <=? p) 5000 5050 = Ok 5002.
Proof.
  destruct (find_free_port_lowest (fun p => 5002 <=? p) 5000 5050)
    as [Hin _].
  destruct (Hin ltac:(lia) ltac:(lia)) as [Hsome _].
  destruct (Hsome 5002 ltac:(lia) eq_refl) as (p & -> & Hrange & Hfree & _).
  apply Z.leb_le in Hfree. f_equal. lia.
Defined.

(* ================================================================= *)
(** * Further properties: the spreadsheet export *)

Lemma mem_app (x : text) (l1 l2 : list text) :
  mem x (l1 ++ l2) = mem x l1 || mem x l2.
Proof. unfold mem. apply existsb_app. Qed.

Lemma mem_filter (x : text) (f : text -> bool) (l : list text) :
  mem x (filter f l) = mem x l && f x.
Proof.
  destruct (mem x (filter f l)) eqn:E; symmetry.
  - apply mem_true, filter_In in E. destruct E as [Hin Hf].
    apply andb_true_iff. split; [apply mem_true, Hin | exact Hf].
  - apply andb_false_iff.
    destruct (mem x l) eqn:El; [| left; reflexivity].
    destruct (f x) eqn:Ef; [| right; reflexivity].
    exfalso. apply (mem_false _ _ E). apply filter_In.
    split; [apply mem_true, El | exact Ef].
Qed.

(** Run over candidates without repetition, the header loop appends the
    wanted candidates that are not there yet, in order. *)
Lemma add_headers_filter (wanted : text -> bool) (cands : list text) :
  NoDup cands ->
  forall headers,
    add_headers cands wanted headers
    = headers ++ filter (fun k => wanted k && negb (mem k headers)) cands.
Proof.
  induction cands as [| k rest IH]; intros Hnd headers; cbn [add_headers filter].
  - symmetry. apply app_nil_r.
  - inversion Hnd as [| ? ? Hk Hrest]; subst.
    assert (Hsame : forall hs,
               filter (fun x => wanted x && negb (mem x (hs ++ [k]))) rest
               = filter (fun x => wanted x && negb (mem x hs)) rest).
    { intros hs. apply filter_ext_in. intros x Hx.
      rewrite mem_app. cbn [mem existsb].
      rewrite text_eqb_neq, !orb_false_r; [reflexivity |].
      intros ->. contradiction. }
    destruct (wanted k && negb (mem k headers)).
    + rewrite (IH Hrest), Hsame, <- app_assoc. reflexivity.
    + apply (IH Hrest).
Qed.

Lemma preferred_NoDup : NoDup preferred.
Proof.
  unfold preferred. cbn [map].
  repeat (constructor; [cbn [In]; intuition discriminate |]).
  constructor.
Qed.

Lemma export_headers_closed (first : list (text * json))
    (rest : list (list (text * json))) :
  NoDup (map fst first) ->
  export_headers (first :: rest)
  = filter (fun k => mem k (map fst first)) preferred
    ++ filter (fun k => negb (mem k preferred)) (map fst first).
Proof.
  intros Hkeys. unfold export_headers.
  rewrite (add_headers_filter _ preferred preferred_NoDup).
  rewrite (add_headers_filter _ (map fst first) Hkeys).
  cbn [app]. f_equal.
  - apply filter_ext. intros k. cbn. apply andb_true_r.
  - apply filter_ext_in. intros k Hk. cbn [andb].
    rewrite mem_filter. apply mem_true in Hk.
    replace (mem k [] ) with false by reflexivity. cbn [negb].
    rewrite andb_true_r, Hk, andb_true_r. reflexivity.
Qed.

(** X14: for rows whose first row has each key once, the header row is
    the preferred column names that are keys of the first row, in their
    preferred order, followed by the other keys of the first row in the
    row's own order; it names every key of the first row exactly once; and
    every row of the worksheet has one cell per header. *)
Theorem export_headers_order (first : list (text * json))
    (rest : list (list (text * json))) :
  NoDup (map fst first) ->
  export_headers (first :: rest)
    = filter (fun k => mem k (map fst first)) preferred
      ++ filter (fun k => negb (mem k preferred)) (map fst first)
  /\ NoDup (export_headers (first :: rest))
  /\ (forall k, In k (export_headers (first :: rest)) <-> In k (map fst first))
  /\ Forall (fun row => List.length row
                        = List.length (export_headers (first :: rest)))
       (export_xlsx (first :: rest)).
Proof.
  intros Hkeys. split; [apply export_headers_closed, Hkeys |].
  rewrite (export_headers_closed first rest Hkeys). split; [| split].
  - apply NoDup_app.
    + apply NoDup_filter, preferred_NoDup.
    + apply NoDup_filter, Hkeys.
    + intros k H1 H2. apply filter_In in H1, H2.
      destruct H1 as [H1 _]. destruct H2 as [_ H2].
      apply mem_true in H1. rewrite H1 in H2. discriminate H2.
  - intros k. rewrite in_app_iff, !filter_In. split.
    + intros [[_ H] | [H _]]; [apply mem_true, H | exact H].
    + intros H. destruct (mem k preferred) eqn:E.
      * left. split; [apply mem_true, E | apply mem_true, H].
      * right. split; [exact H | reflexivity].
  - unfold export_xlsx. rewrite (export_headers_closed first rest Hkeys).
    constructor; [apply length_map |].
    apply Forall_forall. intros row Hrow.
    apply in_map_iff in Hrow. destruct Hrow as [r [<- _]].
    apply length_map.
Qed.

Lemma export_headers_order_witness :
  export_headers [ [ (T "sku", JInt 7); (T "url", JStr (T "u"));
                     (T "title", JStr (T "Phone")) ] ]
  = [ T "title"; T "url"; T "sku" ].
Proof.
  refine (eq_trans
            (proj1 (export_headers_order
                      [ (T "sku", JInt 7); (T "url", JStr (T "u"));
                        (T "title", JStr (T "Phone")) ] [] _)) _).
  - repeat (constructor; [cbn [In]; intuition discriminate |]). constructor.
  - reflexivity.
Defined.

(* ================================================================= *)
(** * Further properties: the rows of a result *)

Lemma host_currency_two (host : text) :
  host_currency host = T "CAD" \/ host_currency host = T "USD".
Proof.
  unfold host_currency. cbv zeta.
  destruct (endswith (T ".ca") (lower host) || startswith (T "ca.") (lower host)
            || contains (T ".ca.") (lower host))%bool;
    [left | right]; reflexivity.
Qed.

Lemma host_currency_nonempty (host : text) :
  nonempty (host_currency host) = true.
Proof.
  destruct (host_currency_two host) as [-> | ->]; reflexivity.
Qed.

Lemma fmt_price_of_ok (val : option float) (currency : option json)
    (host s : text) :
  fmt_price_of val currency host = Ok s ->
  s = fmt_price val (code_of currency) host.
Proof.
  unfold fmt_price_of, code_of. destruct val as [v |].
  - destruct (currency_arg currency) as [c | e]; cbn [bind]; [| discriminate].
    intros H. injection H as <-. reflexivity.
  - intros H. injection H as <-. reflexivity.
Qed.

(** A currency that let a price be formatted is a string, or counts as
    none. *)
Lemma currency_or_host_string (v : float) (currency : option json)
    (host s : text) :
  fmt_price_of (Some v) currency host = Ok s ->
  exists c, currency_or_host currency host = JStr c /\ nonempty c = true.
Proof.
  unfold fmt_price_of, currency_arg, currency_or_host.
  destruct currency as [j |].
  - destruct j; cbn [json_truthy];
      try (match goal with
           | |- context [if ?b then _ else _] => destruct b eqn:?
           end; cbn [bind]; try discriminate; intros _;
           first [ eexists; split; [reflexivity | assumption]
                 | eexists; split; [reflexivity | apply host_currency_nonempty] ]).
    intros _. eexists. split; [reflexivity | apply host_currency_nonempty].
  - intros _. eexists. split; [reflexivity | apply host_currency_nonempty].
Qed.

(** A currency read off the page by [extract_price], or none. *)
Lemma currency_or_host_dom (cur host : text) :
  exists c,
    currency_or_host (if nonempty cur then Some (JStr cur) else None) host
    = JStr c /\ nonempty c = true.
Proof.
  destruct (nonempty cur) eqn:E; cbn [currency_or_host json_truthy].
  - rewrite E. exists cur. split; [reflexivity | exact E].
  - eexists. split; [reflexivity | apply host_currency_nonempty].
Qed.

(** The structured data gives a currency only together with a price. *)
Lemma structured_currency_with_price (P : platform) (html : list node)
    (title : text) (pv : option float) (currency : option json)
    (source : text) :
  match find_jsonld_products P html with
  | obj :: _ =>
      title <- name_of obj ;;
      match price_from_offers P
              (match jget (T "offers") obj with Some o => o | None => JNull end) with
      | (Some pv, cur) => Ok (title, Some pv, cur, T "jsonld")
      | (None, _) => Ok (title, None, None, T "product")
      end
  | [] => Ok ([], None, None, T "product")
  end = Ok (title, pv, currency, source) ->
  pv = None -> currency = None.
Proof.
  intros H Hpv. destruct (find_jsonld_products P html) as [| obj rest].
  - injection H as _ _ <- _. reflexivity.
  - destruct (name_of obj) as [t | e]; cbn [bind] in H; [| discriminate H].
    destruct (price_from_offers P _) as [[v |] cur];
      injection H as _ <- <- _; [discriminate Hpv | reflexivity].
Qed.

Lemma scrape_product_fields (P : platform) (final_url : text)
    (html : list node) (rules : Rules) (items : list Item) :
  scrape_product P final_url html rules = Ok items ->
  exists host it c,
    hostname P final_url = Ok host
    /\ items = [it]
    /\ site it = host
    /\ url it = extract_canonical_or_og_url html final_url
    /\ price_text it
       = (if present (price_value it) then []
          else T "price_not_found_or_hidden")
    /\ original_formatted it = fmt_price (price_value it) c host
    /\ discounted_formatted it = fmt_price (discounted_value it) c host
    /\ (exists s, price_currency it = Some (JStr s) /\ nonempty s = true).
Proof.
  unfold scrape_product. intros H.
  destruct (hostname P final_url) as [host | e]; cbn [bind] in H;
    [| discriminate H].
  exists host.
  match type of H with
  | bind ?x _ = _ =>
      destruct x as [[[[title pv] currency] source] | e] eqn:Eld;
      cbn [bind] in H; [| discriminate H]
  end.
  pose proof (structured_currency_with_price _ _ _ _ _ _ Eld) as Hld.
  clear Eld. destruct pv as [v |]; cbv beta iota zeta in H.
  - cbn [apply_rules] in H.
    destruct (fmt_price_of (Some _) currency host) as [d | e] eqn:Ed in H;
      cbn [bind] in H; [| discriminate H].
    destruct (fmt_price_of (Some v) currency host) as [o | e] eqn:Eo in H;
      cbn [bind] in H; [| discriminate H].
    injection H as <-.
    destruct (currency_or_host_string _ _ _ _ Eo) as [s [Hs Hne]].
    apply fmt_price_of_ok in Ed, Eo.
    eexists. exists (code_of currency). cbn [site url price_text original_formatted discounted_formatted
      price_currency price_value discounted_value present].
    repeat (split; [first [reflexivity | assumption] |]).
    exists s. rewrite Hs. split; [reflexivity | exact Hne].
  - rewrite (Hld eq_refl) in H. clear Hld.
    destruct (extract_price html) as [[pv cur] src].
    destruct pv as [v |]; cbv beta iota zeta in H.
    + cbn [apply_rules] in H.
      destruct (fmt_price_of (Some _) _ host) as [d | e] eqn:Ed in H;
        cbn [bind] in H; [| discriminate H].
      destruct (fmt_price_of (Some v) _ host) as [o | e] eqn:Eo in H;
        cbn [bind] in H; [| discriminate H].
      injection H as <-.
      destruct (currency_or_host_string _ _ _ _ Eo) as [s [Hs Hne]].
      apply fmt_price_of_ok in Ed, Eo.
      eexists. eexists. cbn [site url price_text original_formatted discounted_formatted
      price_currency price_value discounted_value present].
      repeat (split; [first [reflexivity | eassumption] |]).
      exists s. rewrite Hs. split; [reflexivity | exact Hne].
    + cbn [apply_rules fmt_price_of bind] in H. injection H as <-.
      destruct (currency_or_host_dom cur host) as [s [Hs Hne]].
      eexists. exists None. cbn [site url price_text original_formatted discounted_formatted
      price_currency price_value discounted_value present].
      repeat (split; [reflexivity |]).
      exists s. rewrite Hs. split; [reflexivity | exact Hne].
Qed.

Lemma scrape_card_fields (P : platform) (final_url host : text)
    (pct off : float) (card : tag) (items : list Item) :
  scrape_card P final_url host pct off card = Ok items ->
  (card_link card = None /\ items = [])
  \/ exists a it,
       card_link card = Some a
       /\ items = [it]
       /\ urljoin P final_url (opt_text_or (get_attr (T "href") (tag_node a)) [])
          = Ok (url it)
       /\ site it = host
       /\ title it = clean_text (Some (get_text a))
       /\ source it = T "category-card"
       /\ price_currency it = Some (JStr (host_currency host))
       /\ ((exists v, price_value it = Some v) -> price_text it = [])
       /\ original_formatted it = fmt_price (price_value it) None host
       /\ discounted_formatted it = fmt_price (discounted_value it) None host.
Proof.
  unfold scrape_card, card_link. intros H.
  destruct (select_one [[part "a" "" [has "href"]]] (of_tag card)) as [a |];
    [right | left; injection H as <-; split; reflexivity].
  destruct (urljoin P final_url _) as [prod_url | e] eqn:Eu; cbn [bind] in H;
    [| discriminate H].
  exists a.
  destruct (price_amount_of (of_tag card)) as [v |]; cbv beta iota zeta in H.
  - injection H as <-. eexists.
    cbn [site url title source price_text original_formatted
         discounted_formatted price_currency price_value discounted_value
         present apply_rules].
    repeat split; try reflexivity. exact Eu.
  - injection H as <-. eexists.
    cbn [site url title source price_text original_formatted
         discounted_formatted price_currency price_value discounted_value].
    split; [reflexivity |]. split; [reflexivity |]. split; [exact Eu |].
    split; [reflexivity |]. split; [reflexivity |]. split; [reflexivity |].
    split; [reflexivity |].
    destruct (parse_price_number _) as [v |];
      cbn [present apply_rules fmt_price].
    + split; [intros _; reflexivity |]. split; reflexivity.
    + split; [intros [v H]; discriminate H |]. split; reflexivity.
Qed.

(** What holds of the rows of a product page, of the rows of a card and of
    an error row holds of every row a batch returns. *)
Section EveryRow.

Variable P : platform.
Variable Q : Item -> Prop.

Hypothesis Q_product :
  forall final_url html rules items,
    scrape_product P final_url html rules = Ok items -> Forall Q items.
Hypothesis Q_card :
  forall final_url host pct off card items,
    scrape_card P final_url host pct off card = Ok items -> Forall Q items.
Hypothesis Q_error : forall u s msg, Q (error_item u s msg).

Lemma category_page_rows (final_url : text) (html : list node) (rules : Rules)
    (items : list Item) :
  scrape_category_page P final_url html rules = Ok items -> Forall Q items.
Proof.
  unfold scrape_category_page. intros H.
  destruct (hostname P final_url) as [host | e]; cbn [bind] in H;
    [| discriminate H].
  eapply for_each_forall; [| exact H].
  intros card ys Hc. eapply Q_card, Hc.
Qed.

Lemma crawl_pages_rows (rules : Rules) (delay_ms : Z) (budget : nat) :
  forall w items seen u w' out,
    Forall Q items ->
    crawl_pages P budget w items seen u rules delay_ms = (w', Ok out) ->
    Forall Q out.
Proof.
  induction budget as [| budget IH]; intros w items seen u w' out Hitems H;
    cbn [crawl_pages] in H.
  - injection H as _ <-. exact Hitems.
  - destruct (negb (nonempty u)); [injection H as _ <-; exact Hitems |].
    destruct (get_html_safe P w u delay_ms)
      as [w1 [[final_url html | msg] | e]]; [| | discriminate H].
    + destruct (scrape_category_page P final_url html rules)
        as [page_items | e] eqn:Epage; cbn [bind] in H; [| discriminate H].
      destruct (find_next_page_url P html final_url) as [nxt | e];
        cbn [bind] in H; [| discriminate H].
      assert (Hall : Forall Q (items ++ page_items)).
      { apply Forall_app. split; [exact Hitems |].
        eapply category_page_rows, Epage. }
      destruct nxt as [n |].
      * destruct (nonempty n && negb (mem n (final_url :: seen))).
        -- eapply IH; [exact Hall | exact H].
        -- injection H as _ <-. exact Hall.
      * injection H as _ <-. exact Hall.
    + destruct (hostname P u) as [s | e]; cbn [bind] in H;
        [injection H as _ <- | discriminate H].
      apply Forall_app. split; [exact Hitems |].
      constructor; [apply Q_error | constructor].
Qed.

Lemma scrape_url_rows (w : world P) (u : text) (rules : Rules)
    (crawl_pagination : bool) (max_pages delay_ms : Z) (w' : world P)
    (items : list Item) :
  scrape_url P w u rules crawl_pagination max_pages delay_ms = (w', Ok items) ->
  Forall Q items.
Proof.
  unfold scrape_url. intros H.
  destruct (get_html_safe P w u 0)
      as [w1 [[final_url html | msg] | e]]; [| | discriminate H].
  - destruct (is_product_page P html).
    { injection H as _ H. eapply Q_product, H. }
    destruct (is_category_page html).
    + destruct crawl_pagination.
      * unfold scrape_category_all_pages in H.
        eapply crawl_pages_rows; [constructor | exact H].
      * injection H as _ H. eapply category_page_rows, H.
    + injection H as _ H. eapply Q_product, H.
  - destruct (hostname P u) as [s | e]; cbn [bind] in H;
      [injection H as _ <- | discriminate H].
    constructor; [apply Q_error | constructor].
Qed.

Lemma scrape_each_rows (rules : Rules) (crawl_pagination : bool)
    (max_pages delay_ms : Z) (urls : list text) :
  forall w w' items,
    scrape_each P w urls rules crawl_pagination max_pages delay_ms
      = (w', Ok items) ->
    Forall Q items.
Proof.
  induction urls as [| u urls IH]; intros w w' items H; cbn [scrape_each] in H.
  - injection H as _ <-. constructor.
  - destruct (scrape_url P w u rules crawl_pagination max_pages delay_ms)
      as [w1 [got | e]] eqn:Eu; [| discriminate H].
    destruct (scrape_each P w1 urls rules crawl_pagination max_pages delay_ms)
      as [w2 [more | e]] eqn:Erest; cbn [bind] in H;
      [injection H as _ <- | discriminate H].
    apply Forall_app. split.
    + eapply scrape_url_rows, Eu.
    + eapply IH, Erest.
Qed.

Lemma api_scrape_rows (w : world P) (data : Request) (w' : world P)
    (items : list Item) :
  api_scrape P w data = (w', Ok items) -> Forall Q items.
Proof.
  unfold api_scrape. apply scrape_each_rows.
Qed.

End EveryRow.

Lemma found_nonempty (o : option text) (s : text) :
  found o = Some s -> nonempty s = true.
Proof.
  unfold found. destruct o as [x |]; [| discriminate].
  destruct (nonempty x) eqn:E; [| discriminate].
  intros H. injection H as <-. exact E.
Qed.

Lemma fmt_price_empty (val : option float) (currency : option text)
    (host : text) :
  fmt_price val currency host = [] <-> val = None.
Proof.
  destruct val as [v |]; cbn [fmt_price]; [| split; reflexivity].
  split; [| discriminate].
  intros H. apply app_eq_nil in H. destruct H as [H _]. exfalso.
  destruct (found (lookup (upper (opt_text_or currency [])) CURRENCY_SYMBOLS))
    as [s |] eqn:E1.
  { apply found_nonempty in E1. rewrite H in E1. discriminate E1. }
  destruct (found (lookup (host_currency host) CURRENCY_SYMBOLS))
    as [s |] eqn:E2; [| discriminate H].
  apply found_nonempty in E2. rewrite H in E2. discriminate E2.
Qed.

(** X9: in every row that a batch returns, the diagnostic price text is
    empty when the row has a price. *)
Theorem price_text_empty_with_price (P : platform) (w : world P)
    (data : Request) (w' : world P) (items : list Item) :
  api_scrape P w data = (w', Ok items) ->
  Forall price_text_only_without_price items.
Proof.
  apply api_scrape_rows.
  - intros final_url html rules its H.
    apply scrape_product_fields in H.
    destruct H as (host & it & c & _ & -> & _ & _ & Hpt & _).
    constructor; [| constructor].
    intros [v Hv]. rewrite Hpt, Hv. reflexivity.
  - intros final_url host pct off card its H.
    apply scrape_card_fields in H.
    destruct H as [[_ ->] | (a & it & _ & -> & _ & _ & _ & _ & _ & Hpt & _)];
      [constructor |].
    constructor; [exact Hpt | constructor].
  - intros u s msg [v Hv]. discriminate Hv.
Qed.

(** X10: in every row that a batch returns, the formatted original price
    is empty exactly when there is no price, and the formatted discounted
    price is empty exactly when there is no discounted value. *)
Theorem formatted_iff_value (P : platform) (w : world P)
    (data : Request) (w' : world P) (items : list Item) :
  api_scrape P w data = (w', Ok items) ->
  Forall formatted_matches_values items.
Proof.
  apply api_scrape_rows.
  - intros final_url html rules its H.
    apply scrape_product_fields in H.
    destruct H as (host & it & c & _ & -> & _ & _ & _ & Ho & Hd & _).
    constructor; [| constructor].
    split; [rewrite Ho | rewrite Hd]; apply fmt_price_empty.
  - intros final_url host pct off card its H.
    apply scrape_card_fields in H.
    destruct H as [[_ ->] | (a & it & _ & -> & _ & _ & _ & _ & _ & _ & Ho & Hd)];
      [constructor |].
    constructor; [| constructor].
    split; [rewrite Ho | rewrite Hd]; apply fmt_price_empty.
  - intros u s msg. split; split; reflexivity.
Qed.

(** X11: every row that a batch returns names its currency by a non-empty
    string, except the error rows, which name none. *)
Theorem currency_always_named (P : platform) (w : world P)
    (data : Request) (w' : world P) (items : list Item) :
  api_scrape P w data = (w', Ok items) ->
  Forall currency_named items.
Proof.
  apply api_scrape_rows.
  - intros final_url html rules its H.
    apply scrape_product_fields in H.
    destruct H as (host & it & c & _ & -> & _ & _ & _ & _ & _ & Hc).
    constructor; [left; exact Hc | constructor].
  - intros final_url host pct off card its H.
    apply scrape_card_fields in H.
    destruct H as [[_ ->] | (a & it & _ & -> & _ & _ & _ & _ & Hc & _)];
      [constructor |].
    constructor; [| constructor].
    left. eexists. split; [exact Hc | apply host_currency_nonempty].
  - intros u s msg. right. split; reflexivity.
Qed.

Lemma price_text_empty_with_price_witness :
  Forall price_text_only_without_price
    (items_of (snd (api_scrape shop [] mixed_batch))).
Proof.
  eapply (price_text_empty_with_price shop [] mixed_batch
            (fst (api_scrape shop [] mixed_batch))).
  vm_compute. reflexivity.
Defined.

Lemma formatted_iff_value_witness :
  Forall formatted_matches_values
    (items_of (snd (api_scrape shop [] mixed_batch))).
Proof.
  eapply (formatted_iff_value shop [] mixed_batch
            (fst (api_scrape shop [] mixed_batch))).
  vm_compute. reflexivity.
Defined.

Lemma currency_always_named_witness :
  Forall currency_named (items_of (snd (api_scrape shop [] mixed_batch))).
Proof.
  eapply (currency_always_named shop [] mixed_batch
            (fst (api_scrape shop [] mixed_batch))).
  vm_compute. reflexivity.
Defined.

(* ================================================================= *)
(** * Further properties: pages and batches *)

Lemma cards_rows (P : platform) (final_url host : text) (pct off : float)
    (cards : list tag) :
  forall items,
    for_each (scrape_card P final_url host pct off) cards = Ok items ->
    map title items
    = map (fun a => clean_text (Some (get_text a)))
        (flat_map (fun card => match card_link card with
                               | Some a => [a]
                               | None => []
                               end) cards)
    /\ Forall (fun it => source it = T "category-card" /\ site it = host) items.
Proof.
  induction cards as [| card cards IH]; intros items H; cbn [for_each] in H.
  - injection H as <-. split; [reflexivity | constructor].
  - destruct (scrape_card P final_url host pct off card) as [ys | e] eqn:Ec;
      cbn [bind] in H; [| discriminate H].
    destruct (for_each (scrape_card P final_url host pct off) cards)
      as [zs | e]; cbn [bind] in H; [| discriminate H].
    injection H as <-. destruct (IH zs eq_refl) as [IHt IHs].
    apply scrape_card_fields in Ec. cbn [flat_map].
    destruct Ec as [[-> ->] | (a & it & -> & -> & _ & Hsite & Ht & Hsrc & _)].
    + split; [exact IHt | exact IHs].
    + cbn [app map]. rewrite Ht, IHt. split; [reflexivity |].
      constructor; [split; assumption | exact IHs].
Qed.

(** X18: a category page yields one row per card that has a link, in
    document order: the titles of the rows are the cleaned texts of the
    cards' links, cards without a link are skipped, and every row is
    tagged [category-card] and carries the host of the page. *)
Theorem category_rows_follow_links (P : platform) (final_url : text)
    (html : list node) (rules : Rules) (items : list Item) :
  scrape_category_page P final_url html rules = Ok items ->
  map title items
    = map (fun a => clean_text (Some (get_text a))) (card_links html)
  /\ List.length items = List.length (card_links html)
  /\ Forall (fun it => source it = T "category-card"
                       /\ hostname P final_url = Ok (site it)) items.
Proof.
  unfold scrape_category_page. intros H.
  destruct (hostname P final_url) as [host | e]; cbn [bind] in H;
    [| discriminate H].
  apply cards_rows in H. destruct H as [Ht Hs].
  fold (page_cards html) in Ht. fold (card_links html) in Ht.
  split; [exact Ht |]. split.
  - rewrite <- (length_map title), Ht. apply length_map.
  - eapply Forall_impl; [| exact Hs].
    intros it [H1 H2]. split; [exact H1 | rewrite H2; reflexivity].
Qed.

Lemma category_rows_follow_links_witness :
  map title (items_of (scrape_category_page shop listing_1 listing_page no_rules))
  = [T "Phone"].
Proof.
  refine (eq_trans
            (proj1 (category_rows_follow_links shop listing_1 listing_page
                      no_rules _ _)) _).
  - vm_compute. reflexivity.
  - vm_compute. reflexivity.
Defined.

(** X19: a fetched page that is classified as a product page, or as
    neither product nor category, yields exactly one row when its
    extraction returns, and a row without a price carries the text
    [price_not_found_or_hidden]. *)
Theorem single_page_yields_one_row (P : platform) (w w1 w' : world P)
    (u final_url : text) (html : list node) (rules : Rules)
    (crawl_pagination : bool) (max_pages delay_ms : Z) (items : list Item) :
  http_get P w u = (w1, Fetched final_url html) ->
  is_product_page P html = true \/ is_category_page html = false ->
  scrape_url P w u rules crawl_pagination max_pages delay_ms = (w', Ok items) ->
  w' = w1
  /\ exists it,
       items = [it]
       /\ (price_value it = None ->
           price_text it = T "price_not_found_or_hidden").
Proof.
  intros Hget Hkind H. unfold scrape_url in H.
  rewrite get_html_safe_at_once, Hget in H.
  assert (Hp : (w1, scrape_product P final_url html rules) = (w', Ok items)).
  { destruct (is_product_page P html); [exact H |].
    destruct Hkind as [Hk | Hk]; [discriminate Hk |].
    rewrite Hk in H. exact H. }
  injection Hp as <- Hp. split; [reflexivity |].
  apply scrape_product_fields in Hp.
  destruct Hp as (host & it & c & _ & -> & _ & _ & Hpt & _).
  exists it. split; [reflexivity |].
  intros Hnone. rewrite Hpt, Hnone. reflexivity.
Qed.

Lemma single_page_yields_one_row_witness :
  exists it, items_of (snd (scrape_url shop [] product_1 no_rules true 20 400))
             = [it].
Proof.
  destruct (single_page_yields_one_row shop [] [(product_1, product_1)]
              (fst (scrape_url shop [] product_1 no_rules true 20 400))
              product_1 product_1 (product_page "Phone" "$10.00") no_rules
              true 20 400
              (items_of (snd (scrape_url shop [] product_1 no_rules true 20 400))))
    as [_ [it [Hit _]]].
  - vm_compute. reflexivity.
  - left. vm_compute. reflexivity.
  - vm_compute. reflexivity.
  - exists it. exact Hit.
Defined.

(** The walk only ever appends to the rows it has collected. *)
Lemma crawl_pages_extends (P : platform) (rules : Rules) (delay_ms : Z)
    (budget : nat) :
  forall w items seen u w' out,
    crawl_pages P budget w items seen u rules delay_ms = (w', Ok out) ->
    exists more, out = items ++ more.
Proof.
  induction budget as [| budget IH]; intros w items seen u w' out H;
    cbn [crawl_pages] in H.
  - injection H as _ <-. exists []. symmetry. apply app_nil_r.
  - destruct (negb (nonempty u));
      [injection H as _ <-; exists []; symmetry; apply app_nil_r |].
    destruct (get_html_safe P w u delay_ms)
      as [w1 [[final_url html | msg] | e]]; [| | discriminate H].
    + destruct (scrape_category_page P final_url html rules)
        as [page_items | e]; cbn [bind] in H; [| discriminate H].
      destruct (find_next_page_url P html final_url) as [nxt | e];
        cbn [bind] in H; [| discriminate H].
      destruct nxt as [n |].
      * destruct (nonempty n && negb (mem n (final_url :: seen))).
        -- apply IH in H. destruct H as [more ->].
           exists (page_items ++ more). symmetry. apply app_assoc.
        -- injection H as _ <-. exists page_items. reflexivity.
      * injection H as _ <-. exists page_items. reflexivity.
    + destruct (hostname P u) as [s | e]; cbn [bind] in H;
        [injection H as _ <- | discriminate H].
      eexists. reflexivity.
Qed.

(** X8: when the walk returns, the rows of the first page lead the result:
    whatever happens on later pages, a failed fetch included, they are
    neither lost nor reordered. *)
Theorem walker_keeps_first_page (P : platform) (w w1 w' : world P)
    (start_url final_url : text) (html : list node) (rules : Rules)
    (max_pages delay_ms : Z) (page_items out : list Item) :
  0 < max_pages -> nonempty start_url = true ->
  get_html_safe P w start_url delay_ms = (w1, Ok (Fetched final_url html)) ->
  scrape_category_page P final_url html rules = Ok page_items ->
  scrape_category_all_pages P w start_url rules max_pages delay_ms
    = (w', Ok out) ->
  exists more, out = page_items ++ more.
Proof.
  intros Hmp Hu Hget Hpage H. unfold scrape_category_all_pages in H.
  destruct (Z.to_nat max_pages) as [| budget] eqn:Eb; [lia |].
  cbn [crawl_pages] in H. rewrite Hu in H. cbn [negb] in H.
  rewrite Hget, Hpage in H. cbn [bind] in H.
  destruct (find_next_page_url P html final_url) as [nxt | e];
    cbn [bind] in H; [| discriminate H].
  destruct nxt as [n |].
  - destruct (nonempty n && negb (mem n [final_url])).
    + apply crawl_pages_extends in H. exact H.
    + injection H as _ <-. exists []. symmetry. apply app_nil_r.
  - injection H as _ <-. exists []. symmetry. apply app_nil_r.
Qed.

Lemma walker_keeps_first_page_witness :
  exists more,
    items_of (snd (scrape_category_all_pages shop [] listing_1 no_rules 3 400))
    = items_of (scrape_category_page shop listing_1 listing_page no_rules)
      ++ more.
Proof.
  eapply (walker_keeps_first_page shop [] [(listing_1, listing_1)]
            (fst (scrape_category_all_pages shop [] listing_1 no_rules 3 400))
            listing_1 listing_1 listing_page no_rules 3 400).
  - lia.
  - reflexivity.
  - vm_compute. reflexivity.
  - vm_compute. reflexivity.
  - vm_compute. reflexivity.
Defined.

(* ================================================================= *)
(** * Further properties: the number of requests *)





(* ================================================================= *)
(** * Further properties: structured data *)

Lemma as_product_sound (obj : json) (m : list (text * json)) :
  In m (as_product obj) ->
  obj = JObj m /\ lookup (T "@type") m = Some (JStr (T "Product")).
Proof.
  unfold as_product, jget. destruct obj as [| | | | | | o]; try (intros []).
  destruct (lookup (T "@type") o) as [[| | | | s | |] |] eqn:E; try (intros []).
  destruct (text_eqb s (T "Product")) eqn:Es; [| intros []].
  apply text_eqb_eq in Es. subst s.
  intros [<- | []]. split; [reflexivity | exact E].
Qed.

(** X12: every object that [find_jsonld_products] returns has the string
    [Product] as its [@type]. *)
Theorem find_jsonld_products_sound (P : platform) (soup : list node)
    (m : list (text * json)) :
  In m (find_jsonld_products P soup) ->
  lookup (T "@type") m = Some (JStr (T "Product")).
Proof.
  unfold find_jsonld_products. intros H.
  apply in_flat_map in H. destruct H as [t [_ H]].
  destruct (json_loads P (script_text (tag_node t))) as [data |]; [| destruct H].
  apply in_flat_map in H. destruct H as [obj [_ H]].
  apply in_app_or in H. destruct H as [H | H].
  - apply as_product_sound in H. apply H.
  - unfold graph_products in H.
    destruct obj as [| | | | | | o]; try destruct H.
    destruct (jget (T "@graph") o) as [[| | | | | gs |] |]; try destruct H.
    apply in_flat_map in H. destruct H as [g [_ H]].
    apply as_product_sound in H. apply H.
Qed.

Lemma find_jsonld_products_sound_witness :
  lookup (T "@type") [ (T "@type", JStr (T "Product")) ]
  = Some (JStr (T "Product")).
Proof.
  apply (find_jsonld_products_sound shop graph_page).
  vm_compute. left. reflexivity.
Defined.

(* ================================================================= *)
(** * Further properties: offers *)

Lemma price_from_offers_list (P : platform) (l : list json) :
  price_from_offers P (JArr l)
  = (fix first (l : list json) : option float * option json :=
       match l with
       | [] => (None, None)
       | off :: l' =>
           match price_from_offers P off with
           | (Some v, c) => (Some v, c)
           | (None, _) => first l'
           end
       end) l.
Proof. reflexivity. Qed.

(** X13: of a list of offers the first one that yields a price decides
    price and currency, the offers before it count for nothing; a list in
    which no offer yields a price gives neither price nor currency. *)
Theorem price_from_offers_first_priced (P : platform) :
  (forall before off after v c,
      (forall o, In o before -> fst (price_from_offers P o) = None) ->
      price_from_offers P off = (Some v, c) ->
      price_from_offers P (JArr (before ++ off :: after)) = (Some v, c))
  /\ (forall offers,
        (forall o, In o offers -> fst (price_from_offers P o) = None) ->
        price_from_offers P (JArr offers) = (None, None)).
Proof.
  split.
  - intros before off after v c Hbefore Hoff.
    rewrite price_from_offers_list.
    induction before as [| o before IH]; cbn [app].
    + rewrite Hoff. reflexivity.
    + pose proof (Hbefore o (or_introl eq_refl)) as Ho.
      destruct (price_from_offers P o) as [[x |] cx]; [discriminate Ho |].
      apply IH. intros o' Ho'. apply Hbefore. right. exact Ho'.
  - intros offers Hnone. rewrite price_from_offers_list.
    induction offers as [| o offers IH]; [reflexivity |].
    pose proof (Hnone o (or_introl eq_refl)) as Ho.
    destruct (price_from_offers P o) as [[x |] cx]; [discriminate Ho |].
    apply IH. intros o' Ho'. apply Hnone. right. exact Ho'.
Qed.

Lemma price_from_offers_first_priced_witness :
  price_from_offers shop
    (JArr [ JObj [ (T "price", JStr (T "call us")) ];
            JObj [ (T "price", JStr (T "19.99")); (T "priceCurrency", JStr (T "CAD")) ];
            JObj [ (T "price", JInt 5) ] ])
  = (Some (float_of_decimal false 1999 (-2)), Some (JStr (T "CAD"))).
Proof.
  apply (proj1 (price_from_offers_first_priced shop)
           [ JObj [ (T "price", JStr (T "call us")) ] ]).
  - intros o [<- | []]. vm_compute. reflexivity.
  - vm_compute. reflexivity.
Defined.

(* ================================================================= *)
(** * Further properties: the sign of a parsed price *)

(** ** Rounding keeps a mantissa that is not negative *)

Lemma shr_1_nonneg (mrs : shr_record) :
  0 <= shr_m mrs -> 0 <= shr_m (shr_1 mrs).
Proof.
  destruct mrs as [m r s]. cbn [shr_m]. intros H.
  destruct m as [| [p | p |] | p]; cbn; lia.
Qed.

Lemma iter_pos_shr_1_nonneg (p : positive) :
  forall mrs, 0 <= shr_m mrs -> 0 <= shr_m (iter_pos shr_1 p mrs).
Proof.
  induction p as [p IH | p IH |]; intros mrs H; cbn [iter_pos].
  - apply IH, IH, shr_1_nonneg, H.
  - apply IH, IH, H.
  - apply shr_1_nonneg, H.
Qed.

Lemma shr_fexp_nonneg (m e : Z) (l : location) :
  0 <= m -> 0 <= shr_m (fst (shr_fexp b64_prec b64_emax m e l)).
Proof.
  intros H. unfold shr_fexp, shr.
  assert (H0 : 0 <= shr_m (shr_record_of_loc m l)).
  { destruct l as [| []]; exact H. }
  destruct (fexp b64_prec b64_emax (Zdigits2 m + e) - e) as [| p | p];
    cbn [fst]; [exact H0 | | exact H0].
  apply iter_pos_shr_1_nonneg, H0.
Qed.

Lemma round_nearest_even_nonneg (m : Z) (l : location) :
  0 <= m -> 0 <= round_nearest_even m l.
Proof.
  intros H. destruct l as [| []]; cbn [round_nearest_even]; try lia.
  destruct (Z.even m); lia.
Qed.

Lemma binary_round_aux_not_negative (m e : Z) (l : location) :
  0 <= m -> not_negative (binary_round_aux b64_prec b64_emax false m e l).
Proof.
  intros H. unfold binary_round_aux.
  pose proof (shr_fexp_nonneg m e l H) as H1.
  destruct (shr_fexp b64_prec b64_emax m e l) as [mrs1 e1]. cbn [fst] in H1.
  pose proof (shr_fexp_nonneg
                (round_nearest_even (shr_m mrs1) (loc_of_shr_record mrs1))
                e1 loc_Exact (round_nearest_even_nonneg _ _ H1)) as H2.
  destruct (shr_fexp b64_prec b64_emax _ e1 loc_Exact) as [mrs2 e2].
  cbn [fst] in H2.
  destruct (shr_m mrs2) as [| p | p]; [exact I | | lia].
  destruct (e2 <=? b64_emax - b64_prec); exact I.
Qed.

Lemma float_of_ratio_not_negative (n d : positive) :
  not_negative (float_of_ratio false n d).
Proof.
  unfold float_of_ratio, fdiv, SFdiv, SFdiv_core_binary.
  set (e' := Z.min _ _). set (m' := match 0 - 0 - e' with
                                    | 0 => Z.pos n
                                    | Z.pos _ => Z.shiftl (Z.pos n) (0 - 0 - e')
                                    | Z.neg _ => 0
                                    end).
  assert (Hm : 0 <= m').
  { subst m'. destruct (0 - 0 - e'); try lia. apply Z.shiftl_nonneg. lia. }
  pose proof (Z_div_mod m' (Z.pos d) eq_refl) as Hdiv.
  destruct (Z.div_eucl m' (Z.pos d)) as [q r].
  apply binary_round_aux_not_negative.
  destruct Hdiv as [Hq Hr]. nia.
Qed.

Lemma float_of_decimal_not_negative (M : N) (E : Z) :
  not_negative (float_of_decimal false M E).
Proof.
  unfold float_of_decimal. destruct M as [| m]; [exact I |].
  destruct E; apply float_of_ratio_not_negative.
Qed.

(** ** What a match hands on *)

Section MatcherSuccess.

Variable R : Type.

Lemma star_loop_reaches ma (k : text -> groups -> option R) :
  (forall s g k' x, ma s g k' = Some x ->
     exists s' g', (List.length s' <= List.length s)%nat /\ k' s' g' = Some x) ->
  forall n s g x,
    star_loop ma k n s g = Some x ->
    exists s' g', (List.length s' <= List.length s)%nat /\ k s' g' = Some x.
Proof.
  intros Hma n. induction n as [| n IH]; intros s g x H; cbn [star_loop] in H.
  - exists s, g. split; [lia | exact H].
  - destruct (ma s g _) as [y |] eqn:E.
    + injection H as <-. apply Hma in E.
      destruct E as [s1 [g1 [Hlen E]]].
      destruct (List.length s1 <? List.length s)%nat; [| discriminate E].
      apply IH in E. destruct E as [s' [g' [Hlen' E]]].
      exists s', g'. split; [lia | exact E].
    + exists s, g. split; [lia | exact H].
Qed.

(** A successful match is a success of the continuation, on a text no
    longer than the input. *)
Lemma rmatch_reaches (r : regex) :
  forall s g (k : text -> groups -> option R) x,
    rmatch r s g k = Some x ->
    exists s' g', (List.length s' <= List.length s)%nat /\ k s' g' = Some x.
Proof.
  induction r as [| p | a IHa b IHb | a IHa b IHb | a IHa | a IHa | n a IHa];
    intros s g k x H; cbn [rmatch] in H.
  - exists s, g. split; [lia | exact H].
  - destruct s as [| c s0]; [discriminate H |].
    destruct (p c); [| discriminate H].
    exists s0, g. split; [cbn; lia | exact H].
  - apply IHa in H. destruct H as [s1 [g1 [H1 H]]].
    apply IHb in H. destruct H as [s2 [g2 [H2 H]]].
    exists s2, g2. split; [lia | exact H].
  - destruct (rmatch a s g k) as [y |] eqn:E.
    + injection H as <-. eapply IHa, E.
    + eapply IHb, H.
  - destruct (rmatch a s g k) as [y |] eqn:E.
    + injection H as <-. eapply IHa, E.
    + exists s, g. split; [lia | exact H].
  - eapply star_loop_reaches; [| exact H]. exact IHa.
  - apply IHa in H. destruct H as [s1 [g1 [H1 H]]].
    eexists. eexists. split; [exact H1 | exact H].
Qed.

Lemma rmatch_alt (a b : regex) (s : text) (g : groups)
    (k : text -> groups -> option R) :
  rmatch (Alt a b) s g k
  = match rmatch a s g k with
    | Some x => Some x
    | None => rmatch b s g k
    end.
Proof. reflexivity. Qed.

Lemma rmatch_group (n : nat) (a : regex) (s : text) (g : groups)
    (k : text -> groups -> option R) :
  rmatch (Group n a) s g k
  = rmatch a s g
      (fun s' g' =>
         k s' ((n, firstn (List.length s - List.length s') s) :: g')).
Proof. reflexivity. Qed.

Lemma rmatch_grouped_digits (rest : regex) (c : char) (s0 : text) (g : groups)
    (k : text -> groups -> option R) :
  rmatch (Seq (between 1 3 digit) rest) (c :: s0) g k
  = if is_digit c then rmatch (Seq (at_most 2 digit) rest) s0 g k else None.
Proof. reflexivity. Qed.

Lemma rmatch_plain_digits (rest : regex) (c : char) (s0 : text) (g : groups)
    (k : text -> groups -> option R) :
  rmatch (Seq (plus digit) rest) (c :: s0) g k
  = if is_digit c then rmatch (Seq (Star digit) rest) s0 g k else None.
Proof. reflexivity. Qed.

(** The number starts with a digit, and so does what group 2 records. *)
Lemma number_re_records_digit (s : text) (g : groups)
    (k : text -> groups -> option R) (x : R) :
  rmatch number_re s g k = Some x ->
  exists c rest s' g',
    is_digit c = true /\ k s' ((2%nat, c :: rest) :: g') = Some x.
Proof.
  destruct s as [| c s0]; [discriminate |].
  unfold number_re.
  rewrite rmatch_group, rmatch_alt, rmatch_grouped_digits, rmatch_plain_digits.
  intros H.
  destruct (is_digit c) eqn:Hc; [| discriminate H].
  assert (Hd : exists s' g',
             (List.length s' <= List.length s0)%nat
             /\ k s' ((2%nat, firstn (List.length (c :: s0) - List.length s')
                                (c :: s0)) :: g') = Some x).
  { match type of H with
    | match ?first with _ => _ end = _ => destruct first as [y |] eqn:E
    end.
    - injection H as <-. apply rmatch_reaches in E. exact E.
    - apply rmatch_reaches in H. exact H. }
  destruct Hd as [s' [g' [Hlen Hk]]].
  replace (List.length (c :: s0) - List.length s')%nat
    with (S (List.length s0 - List.length s')) in Hk by (cbn [List.length]; lia).
  cbn [firstn] in Hk.
  exists c. eexists. exists s', g'. split; [exact Hc | exact Hk].
Qed.

End MatcherSuccess.

Lemma money_records_digit (s : text) (m : groups) :
  rmatch MONEY_RE s [] (fun _ g => Some g) = Some m ->
  exists c rest, is_digit c = true /\ group 2 m = Some (c :: rest).
Proof.
  unfold MONEY_RE. rewrite rmatch_seq. intros H.
  apply rmatch_reaches in H. destruct H as [s1 [g1 [_ H]]].
  rewrite rmatch_seq in H.
  apply rmatch_reaches in H. destruct H as [s2 [g2 [_ H]]].
  apply number_re_records_digit in H.
  destruct H as [c [rest [s' [g' [Hc H]]]]].
  injection H as <-. exists c, rest. split; [exact Hc | reflexivity].
Qed.

Lemma search_money_records_digit (s : text) (m : groups) :
  search MONEY_RE s = Some m ->
  exists c rest, is_digit c = true /\ group 2 m = Some (c :: rest).
Proof.
  induction s as [| c0 s IH]; cbn [search].
  - destruct (rmatch MONEY_RE [] [] _) as [g |] eqn:E; [| discriminate].
    intros H. injection H as <-. eapply money_records_digit, E.
  - destruct (rmatch MONEY_RE (c0 :: s) [] _) as [g |] eqn:E; [| exact IH].
    intros H. injection H as <-. eapply money_records_digit, E.
Qed.

(** ** A numeral that starts with a digit *)

Lemma digit_values (c : char) :
  is_digit c = true ->
  (c = 48 \/ c = 49 \/ c = 50 \/ c = 51 \/ c = 52 \/ c = 53 \/ c = 54
   \/ c = 55 \/ c = 56 \/ c = 57)%N.
Proof.
  unfold is_digit, in_range. intros H. apply andb_true_iff in H.
  destruct H as [H1 H2]. apply N.leb_le in H1. apply N.leb_le in H2. lia.
Qed.

(** Running a fact about the ten digits through each of them. *)
Ltac each_digit H :=
  apply digit_values in H;
  repeat (destruct H as [H | H]; [subst; reflexivity |]);
  subst; reflexivity.

Lemma digit_not_space (c : char) : is_digit c = true -> is_space c = false.
Proof. intros H. each_digit H. Qed.

Lemma digit_not_ascii_space (c : char) :
  is_digit c = true -> is_ascii_space c = false.
Proof. intros H. each_digit H. Qed.

Lemma lstrip_ascii_snoc (c : char) :
  is_ascii_space c = false ->
  forall l, exists u, lstrip_ascii (l ++ [c]) = u ++ [c].
Proof.
  intros Hc l. induction l as [| x l IH]; cbn [app lstrip_ascii].
  - rewrite Hc. exists []. reflexivity.
  - destruct (is_ascii_space x); [exact IH |]. exists (x :: l). reflexivity.
Qed.

Lemma strip_ascii_keeps_first (c : char) (t : text) :
  is_ascii_space c = false -> exists t1, strip_ascii (c :: t) = c :: t1.
Proof.
  intros Hc. unfold strip_ascii. cbn [lstrip_ascii]. rewrite Hc. cbn [rev].
  destruct (lstrip_ascii_snoc c Hc (rev t)) as [u ->].
  rewrite rev_app_distr. eexists. reflexivity.
Qed.

(** Bringing a text to ASCII leaves a leading digit where it is. *)
Lemma to_ascii_keeps_digit (c : char) (t : text) :
  is_digit c = true ->
  exists t1, ascii_text (c :: t) = c :: t1.
Proof.
  intros Hc. unfold ascii_text.
  destruct (forallb (fun a => N.ltb a 128) (c :: t));
    [exists t; reflexivity |].
  cbn [to_ascii].
  replace (N.ltb c 127) with true by (symmetry; each_digit Hc).
  eexists. reflexivity.
Qed.

Lemma drop_underscores_digit (c : char) (t : text) :
  is_digit c = true ->
  drop_underscores 0%N (c :: t) = option_map (cons c) (drop_underscores c t).
Proof. intros H. each_digit H. Qed.

Lemma parse_sign_digit (c : char) (t : text) :
  is_digit c = true -> parse_sign (c :: t) = (false, c :: t).
Proof. intros H. each_digit H. Qed.

Lemma digit_first_no_word (c : char) (t : text) :
  is_digit c = true ->
  text_eqb (lower (c :: t)) (T "inf") = false
  /\ text_eqb (lower (c :: t)) (T "infinity") = false
  /\ text_eqb (lower (c :: t)) (T "nan") = false.
Proof.
  intros H. apply digit_values in H.
  repeat (destruct H as [H | H]; [subst; repeat split |]);
    subst; repeat split.
Qed.

Lemma digit_not_comma (c : char) (rest : text) :
  is_digit c = true -> remove_commas (c :: rest) = c :: remove_commas rest.
Proof. intros H. each_digit H. Qed.

Lemma parse_decimal_not_negative (body : text) (v : float) :
  parse_decimal false body = Some v -> not_negative v.
Proof.
  unfold parse_decimal.
  destruct (span_digits body) as [ip r1].
  destruct (match r1 with
            | 46%N :: r => span_digits r
            | _ => ([], r1)
            end) as [fp r2].
  destruct (ip ++ fp) as [| d ds]; [discriminate |].
  destruct (parse_exponent r2) as [e |]; [| discriminate].
  intros H. injection H as <-. apply float_of_decimal_not_negative.
Qed.

Lemma py_float_digit_first (c : char) (t : text) (v : float) :
  is_digit c = true -> py_float (c :: t) = Some v -> not_negative v.
Proof.
  intros Hc. unfold py_float.
  destruct (to_ascii_keeps_digit c t Hc) as [t0 ->].
  destruct (strip_ascii_keeps_first c t0 (digit_not_ascii_space c Hc))
    as [t1 ->].
  rewrite (drop_underscores_digit c t1 Hc).
  destruct (drop_underscores c t1) as [t2 |]; cbn [option_map];
    [| discriminate].
  rewrite (parse_sign_digit c t2 Hc).
  destruct (digit_first_no_word c t2 Hc) as (-> & -> & ->).
  cbn [orb]. apply parse_decimal_not_negative.
Qed.

(** X2: a price read from a text is never negative and never NaN: it is a
    positive zero, a positive finite number or, for a numeral too large
    for the format, positive infinity. *)
Theorem parse_price_number_not_negative (txt : text) (v : float) :
  parse_price_number txt = Some v -> not_negative v.
Proof.
  unfold parse_price_number.
  destruct (negb (nonempty txt)); [discriminate |].
  destruct (search MONEY_RE txt) as [m |] eqn:E; [| discriminate].
  apply search_money_records_digit in E.
  destruct E as [c [rest [Hc ->]]].
  rewrite (digit_not_comma c rest Hc).
  apply py_float_digit_first, Hc.
Qed.

Lemma parse_price_number_not_negative_witness :
  not_negative (float_of_decimal false 123456 (-2)).
Proof.
  apply (parse_price_number_not_negative (T "$1,234.56")).
  vm_compute. reflexivity.
Defined.

(* ================================================================= *)
(** * Further properties: samples for the lemmas above *)

Lemma parse_price_number_no_digit_witness :
  parse_price_number (T "Call for price") = None.
Proof.
  apply parse_price_number_no_digit. reflexivity.
Defined.

Lemma walker_no_repeat_without_redirects_witness :
  NoDup (snd (fst (scrape_category_all_pages (recording plain_shop) ([], [])
                     listing_1 no_rules 5 400))).
Proof.
  apply walker_no_repeat_without_redirects.
  intros w u w' final_url html H. cbn [http_get plain_shop] in H.
  unfold plain_get in H.
  destruct (text_eqb u listing_1 || text_eqb u listing_2)%bool;
    [| discriminate H].
  injection H as _ <- _. reflexivity.
Defined.

Lemma fetch_failure_isolated_witness :
  scrape_each shop [] ([product_1] ++ T "https://down.example/x" :: [product_2])
    no_rules true 20 400
  = let (w3, r) :=
      scrape_each shop [(product_1, product_1)] [product_2] no_rules true 20 400 in
    (w3,
     more <- r ;;
     Ok (items_of (snd (scrape_each shop [] [product_1] no_rules true 20 400))
         ++ error_item (T "https://down.example/x") (T "down.example")
              (T "ConnectionError: no route to https://down.example/x")
            :: more)).
Proof.
  apply fetch_failure_isolated with (w1 := [(product_1, product_1)]).
  - vm_compute. reflexivity.
  - vm_compute. reflexivity.
  - vm_compute. reflexivity.
Defined.

(* ================================================================= *)
(** * Further properties: a full discount *)

(** X20: with 100 percent off and no absolute discount, every finite price
    comes out as 0.0, with a positive sign. *)
Theorem apply_rules_full_discount (x off : float) :
  finite_value x -> fleb off fzero = true ->
  apply_rules (Some x) (float_of_Z 100) off = Some fzero.
Proof.
  intros Hx Hoff. rewrite apply_rules_unfold.
  rewrite (nonpos_not_applied off Hoff).
  change (applies (float_of_Z 100)) with true. cbv iota zeta.
  change (fsub fone (fdiv (float_of_Z 100) f100)) with (S754_zero false).
  destruct x as [s | s | | s m e]; try contradiction; destruct s; reflexivity.
Qed.

Lemma apply_rules_full_discount_witness :
  apply_rules (Some (float_of_decimal false 1999 (-2))) (float_of_Z 100) fzero
  = Some fzero.
Proof.
  apply apply_rules_full_discount; [exact I | reflexivity].
Defined.

(* ================================================================= *)
(** * Further properties: cleaned text *)

Lemma collapse_only_spaces (s : text) :
  forall b c, In c (collapse_spaces b s) -> is_space c = true -> c = 32%N.
Proof.
  induction s as [| x s IH]; intros b c Hin Hc; cbn [collapse_spaces] in Hin.
  - destruct Hin.
  - destruct (is_space x) eqn:Ex.
    + destruct b.
      * eapply IH; eassumption.
      * destruct Hin as [<- | Hin]; [reflexivity | eapply IH; eassumption].
    + destruct Hin as [<- | Hin]; [congruence | eapply IH; eassumption].
Qed.

(** Inside a run of whitespace nothing is emitted until the run ends. *)
Lemma collapse_in_run_head (s : text) (d : char) (back : text) :
  collapse_spaces true s = d :: back -> is_space d = false.
Proof.
  induction s as [| x s IH]; cbn [collapse_spaces]; [discriminate |].
  destruct (is_space x) eqn:Ex; [exact IH |].
  intros H. injection H as <- _. exact Ex.
Qed.

Lemma collapse_no_double (s : text) :
  forall b front c d back,
    collapse_spaces b s = front ++ c :: d :: back ->
    is_space c = true -> is_space d = false.
Proof.
  induction s as [| x s IH]; intros b front c d back H Hc;
    cbn [collapse_spaces] in H.
  - destruct front; discriminate H.
  - destruct (is_space x) eqn:Ex.
    + destruct b; [eapply IH; eassumption |].
      destruct front as [| f front]; cbn [app] in H; injection H as _ H.
      * eapply collapse_in_run_head, H.
      * eapply IH; eassumption.
    + destruct front as [| f front]; cbn [app] in H; injection H as Hx H.
      * congruence.
      * eapply IH; eassumption.
Qed.

Lemma lstrip_suffix (l : text) : exists pre, l = pre ++ lstrip l.
Proof.
  induction l as [| x l [pre IH]]; cbn [lstrip].
  - exists []. reflexivity.
  - destruct (is_space x).
    + exists (x :: pre). cbn [app]. rewrite <- IH. reflexivity.
    + exists []. reflexivity.
Qed.

Lemma lstrip_head (l : text) (c : char) (rest : text) :
  lstrip l = c :: rest -> is_space c = false.
Proof.
  induction l as [| x l IH]; cbn [lstrip]; [discriminate |].
  destruct (is_space x) eqn:Ex; [exact IH |].
  intros H. injection H as <- _. exact Ex.
Qed.

(** What [strip] returns sits inside its argument. *)
Lemma strip_infix (t : text) : exists pre post, t = pre ++ strip t ++ post.
Proof.
  unfold strip.
  destruct (lstrip_suffix t) as [pre Ht].
  destruct (lstrip_suffix (rev (lstrip t))) as [pre2 Hr].
  exists pre, (rev pre2).
  rewrite <- rev_app_distr, <- Hr, rev_involutive. exact Ht.
Qed.

Lemma strip_head (t : text) (c : char) (rest : text) :
  strip t = c :: rest -> is_space c = false.
Proof.
  unfold strip. intros H.
  destruct (lstrip_suffix (rev (lstrip t))) as [pre2 Hr].
  assert (Hz : lstrip (rev (lstrip t)) = rev rest ++ [c]).
  { rewrite <- (rev_involutive (lstrip (rev (lstrip t)))), H. reflexivity. }
  rewrite Hz in Hr.
  assert (Hy : lstrip t = c :: rest ++ rev pre2).
  { rewrite <- (rev_involutive (lstrip t)), Hr.
    rewrite !rev_app_distr, rev_involutive. reflexivity. }
  eapply lstrip_head, Hy.
Qed.

Lemma strip_last (t : text) (front : text) (c : char) :
  strip t = front ++ [c] -> is_space c = false.
Proof.
  unfold strip. intros H.
  assert (Hz : lstrip (rev (lstrip t)) = c :: rev front).
  { rewrite <- (rev_involutive (lstrip (rev (lstrip t)))), H.
    rewrite rev_app_distr. reflexivity. }
  eapply lstrip_head, Hz.
Qed.

Lemma tidy_nil : tidy [].
Proof.
  repeat split.
  - intros c [].
  - intros front c d back H. destruct front; discriminate H.
  - intros c rest H. discriminate H.
  - intros front c H. destruct front; discriminate H.
Qed.

Lemma clean_text_normal_form (s : option text) : tidy (clean_text s).
Proof.
  destruct s as [s |]; [| apply tidy_nil].
  unfold clean_text. destruct (nonempty s); [| apply tidy_nil].
  destruct (strip_infix (collapse_spaces false s)) as [pre [post Hin]].
  split; [| split; [| split]].
  - intros c Hc. eapply collapse_only_spaces. rewrite Hin.
    apply in_or_app. right. apply in_or_app. left. exact Hc.
  - intros front c d back H. eapply (collapse_no_double s false (pre ++ front)).
    rewrite Hin at 1. rewrite H, <- !app_assoc. cbn [app]. reflexivity.
  - intros c rest. apply strip_head.
  - intros front c. apply strip_last.
Qed.

(** X17: a cleaned text is in normal form: it neither starts nor ends
    with whitespace, and the only whitespace inside it is single spaces. *)
Theorem clean_text_tidy (s : option text) : tidy (clean_text s).
Proof. exact (clean_text_normal_form s). Qed.

Lemma collapse_fixed (t : text) :
  (forall c, In c t -> is_space c = true -> c = 32%N) ->
  (forall front c d back,
      t = front ++ c :: d :: back -> is_space c = true -> is_space d = false) ->
  forall b,
    (b = true -> forall c rest, t = c :: rest -> is_space c = false) ->
    collapse_spaces b t = t.
Proof.
  induction t as [| x t IH]; intros HA HB b Hb; cbn [collapse_spaces];
    [reflexivity |].
  assert (HA' : forall c, In c t -> is_space c = true -> c = 32%N).
  { intros c Hc. apply HA. right. exact Hc. }
  assert (HB' : forall front c d back,
             t = front ++ c :: d :: back -> is_space c = true ->
             is_space d = false).
  { intros front c d back H. apply (HB (x :: front) c d back). rewrite H. reflexivity. }
  destruct (is_space x) eqn:Ex.
  - destruct b.
    + rewrite (Hb eq_refl x t eq_refl) in Ex. discriminate Ex.
    + rewrite (HA x (or_introl eq_refl) Ex). f_equal.
      apply IH; [exact HA' | exact HB' |].
      intros _ c rest ->. apply (HB [] x c rest eq_refl Ex).
  - f_equal. apply IH; [exact HA' | exact HB' |]. intros H. discriminate H.
Qed.

Lemma lstrip_fixed (t : text) :
  (forall c rest, t = c :: rest -> is_space c = false) -> lstrip t = t.
Proof.
  intros H. destruct t as [| c rest]; [reflexivity |].
  cbn [lstrip]. rewrite (H c rest eq_refl). reflexivity.
Qed.

Lemma strip_fixed (t : text) :
  (forall c rest, t = c :: rest -> is_space c = false) ->
  (forall front c, t = front ++ [c] -> is_space c = false) ->
  strip t = t.
Proof.
  intros HC HD. unfold strip. rewrite (lstrip_fixed t HC).
  rewrite lstrip_fixed; [apply rev_involutive |].
  intros c rest H. apply (HD (rev rest)).
  rewrite <- (rev_involutive t), H. reflexivity.
Qed.

Lemma clean_text_fixed (t : text) : tidy t -> clean_text (Some t) = t.
Proof.
  intros (HA & HB & HC & HD). cbn [clean_text].
  destruct (nonempty t) eqn:E; [| destruct t; [reflexivity | discriminate E]].
  rewrite (collapse_fixed t HA HB false) by (intros H; discriminate H).
  apply strip_fixed; assumption.
Qed.

(** X15: cleaning is idempotent: cleaning a cleaned text changes nothing. *)
Theorem clean_text_idempotent (s : option text) :
  clean_text (Some (clean_text s)) = clean_text s.
Proof. apply clean_text_fixed, clean_text_normal_form. Qed.

(* ================================================================= *)
(** * Reading a plain numeral *)

Lemma all_digits_cons (c : char) (s : text) :
  all_digits (c :: s) -> is_digit c = true /\ all_digits s.
Proof. unfold all_digits. cbn [forallb]. apply andb_true_iff. Qed.

(** The three shapes of what follows the integer part. *)
Lemma numeral_tail_cases (fp trail : text) :
  cents fp -> ends_numeral fp trail ->
  (fp = [] /\ trail = [])
  \/ (exists c t, fp = [] /\ trail = c :: t
                  /\ is_digit c = false /\ c <> 46%N /\ c <> 44%N)
  \/ (exists d1 d2, fp = [d1; d2] /\ is_digit d1 = true /\ is_digit d2 = true).
Proof.
  intros [-> | [Hlen Hd]] He.
  - destruct trail as [| c t]; [left; split; reflexivity |].
    right. left. exists c, t. cbn in He. tauto.
  - right. right.
    destruct fp as [| d1 [| d2 [| d3 fp]]]; try discriminate Hlen.
    apply all_digits_cons in Hd. destruct Hd as [H1 Hd].
    apply all_digits_cons in Hd. destruct Hd as [H2 _].
    exists d1, d2. repeat split; assumption.
Qed.

Section ReadingNumerals.

Variable R : Type.

Lemma rmatch_opt (a : regex) (s : text) (g : groups)
    (k : text -> groups -> option R) :
  rmatch (Opt a) s g k
  = match rmatch a s g k with
    | Some x => Some x
    | None => k s g
    end.
Proof. reflexivity. Qed.

Lemma rmatch_star (a : regex) (s : text) (g : groups)
    (k : text -> groups -> option R) :
  rmatch (Star a) s g k = star_loop (rmatch a) k (List.length s) s g.
Proof. reflexivity. Qed.

Lemma rmatch_class (p : char -> bool) (c : char) (s : text) (g : groups)
    (k : text -> groups -> option R) :
  rmatch (Class p) (c :: s) g k = if p c then k s g else None.
Proof. reflexivity. Qed.

(** The fraction [\.[0-9]{2}] on a point and two digits, on another
    character, and at the end of the text. *)
Lemma fraction_matches (d1 d2 : char) (trail : text) (g : groups)
    (k : text -> groups -> option R) :
  is_digit d1 = true -> is_digit d2 = true ->
  rmatch (Seq (chr 46%N) (times 2 digit)) (46%N :: d1 :: d2 :: trail) g k
  = k trail g.
Proof.
  intros H1 H2. rewrite rmatch_seq. unfold chr. rewrite rmatch_class.
  cbn [N.eqb Pos.eqb times]. rewrite rmatch_seq. unfold digit.
  rewrite rmatch_class, H1, rmatch_seq, rmatch_class, H2. reflexivity.
Qed.

Lemma chr_fails (a c : char) (rest : regex) (s : text) (g : groups)
    (k : text -> groups -> option R) :
  c <> a -> rmatch (Seq (chr a) rest) (c :: s) g k = None.
Proof.
  intros H. rewrite rmatch_seq. unfold chr. rewrite rmatch_class.
  destruct (N.eqb a c) eqn:E; [| reflexivity].
  apply N.eqb_eq in E. congruence.
Qed.

Lemma chr_fails_nil (a : char) (rest : regex) (g : groups)
    (k : text -> groups -> option R) :
  rmatch (Seq (chr a) rest) [] g k = None.
Proof. reflexivity. Qed.

(** A starred expression whose body fails makes no iteration. *)
Lemma star_none (a : regex) (s : text) (g : groups)
    (k : text -> groups -> option R) :
  (forall k' : text -> groups -> option R, rmatch a s g k' = None) ->
  rmatch (Star a) s g k = k s g.
Proof.
  intros H. rewrite rmatch_star.
  destruct (List.length s); cbn [star_loop]; [reflexivity |].
  rewrite H. reflexivity.
Qed.

(** The greedy run of digits takes all the digits there are. *)
Lemma star_digits (k : text -> groups -> option R) (tl : text) (g : groups)
    (x : R) :
  match tl with
  | [] => True
  | c :: _ => is_digit c = false
  end ->
  k tl g = Some x ->
  forall ip n, all_digits ip -> (List.length (ip ++ tl) <= n)%nat ->
    star_loop (rmatch digit) k n (ip ++ tl) g = Some x.
Proof.
  intros Htl Hk ip. induction ip as [| d ip IH]; intros n Hd Hn.
  - cbn [app]. destruct n; cbn [star_loop]; [exact Hk |].
    destruct tl as [| c t]; [exact Hk |].
    unfold digit. rewrite rmatch_class, Htl. exact Hk.
  - apply all_digits_cons in Hd. destruct Hd as [Hd Hip].
    destruct n; [cbn in Hn; lia |].
    cbn [app star_loop]. unfold digit at 1. rewrite rmatch_class, Hd.
    cbn [List.length]. rewrite (proj2 (Nat.ltb_lt _ _)) by lia.
    rewrite IH; [reflexivity | exact Hip | cbn in Hn; lia].
Qed.

Lemma rmatch_empty (s : text) (g : groups) (k : text -> groups -> option R) :
  rmatch Empty s g k = k s g.
Proof. reflexivity. Qed.

Lemma digit_not_point (d : char) : is_digit d = true -> d <> 46%N.
Proof. intros H ->. discriminate H. Qed.

Lemma digit_not_a_comma (d : char) : is_digit d = true -> d <> 44%N.
Proof. intros H ->. discriminate H. Qed.

(** After the integer part comes no digit. *)
Lemma tail_not_digit (fp trail : text) :
  cents fp -> ends_numeral fp trail ->
  match fraction fp ++ trail with
  | [] => True
  | c :: _ => is_digit c = false
  end.
Proof.
  intros Hc He.
  destruct (numeral_tail_cases fp trail Hc He)
    as [[-> ->] | [(c & t & -> & -> & H & _) | (d1 & d2 & -> & _)]].
  - exact I.
  - exact H.
  - reflexivity.
Qed.

Lemma digit_fails (rest : regex) (tl : text) (g : groups)
    (k : text -> groups -> option R) :
  match tl with
  | [] => True
  | c :: _ => is_digit c = false
  end ->
  rmatch (Seq digit rest) tl g k = None.
Proof.
  intros H. rewrite rmatch_seq. destruct tl as [| c t]; [reflexivity |].
  unfold digit. rewrite rmatch_class, H. reflexivity.
Qed.

Lemma digit_takes (rest : regex) (d : char) (s : text) (g : groups)
    (k : text -> groups -> option R) :
  is_digit d = true ->
  rmatch (Seq digit rest) (d :: s) g k = rmatch rest s g k.
Proof.
  intros H. rewrite rmatch_seq. unfold digit. rewrite rmatch_class, H.
  reflexivity.
Qed.

(** The optional fraction takes the cents when they are there. *)
Lemma opt_fraction (fp trail : text) (g : groups)
    (k : text -> groups -> option R) (x : R) :
  cents fp -> ends_numeral fp trail ->
  k trail g = Some x ->
  rmatch (Opt (Seq (chr 46%N) (times 2 digit))) (fraction fp ++ trail) g k
  = Some x.
Proof.
  intros Hc He Hk. rewrite rmatch_opt.
  destruct (numeral_tail_cases fp trail Hc He)
    as [[-> ->] | [(c & t & -> & -> & _ & H & _) | (d1 & d2 & -> & H1 & H2)]];
    cbn [fraction app].
  - rewrite chr_fails_nil. exact Hk.
  - rewrite chr_fails by exact H. exact Hk.
  - rewrite fraction_matches, Hk by assumption. reflexivity.
Qed.

(** The plain form [[0-9]+(?:\.[0-9]{2})?] reads the whole numeral. *)
Lemma plain_reads (ip fp trail : text) (g : groups)
    (k : text -> groups -> option R) (x : R) :
  ip <> [] -> all_digits ip -> cents fp -> ends_numeral fp trail ->
  k trail g = Some x ->
  rmatch (Seq (plus digit) (Opt (Seq (chr 46%N) (times 2 digit))))
    (ip ++ fraction fp ++ trail) g k = Some x.
Proof.
  intros Hne Hip Hc He Hk. destruct ip as [| c ip]; [contradiction |].
  apply all_digits_cons in Hip. destruct Hip as [Hd Hip].
  cbn [app]. rewrite rmatch_plain_digits, Hd, rmatch_seq, rmatch_star.
  apply star_digits.
  - apply tail_not_digit; assumption.
  - apply opt_fraction; assumption.
  - exact Hip.
  - lia.
Qed.

(** What the grouped form wants after its leading digits,
    [(?:,[0-9]{3})*(?:\.[0-9]{2})], is not found at a digit. *)
Lemma grouped_rest_digit (d : char) (t : text) (g : groups)
    (k : text -> groups -> option R) :
  is_digit d = true ->
  rmatch (Seq (Star (Seq (chr 44%N) (times 3 digit)))
              (Seq (chr 46%N) (times 2 digit))) (d :: t) g k = None.
Proof.
  intros H. rewrite rmatch_seq, star_none.
  - apply chr_fails, digit_not_point, H.
  - intros k'. apply chr_fails, digit_not_a_comma, H.
Qed.

(** After the integer part it finds the cents or nothing. *)
Lemma grouped_rest_tail (fp trail : text) (g : groups)
    (k : text -> groups -> option R) (x : R) :
  cents fp -> ends_numeral fp trail ->
  k trail g = Some x ->
  let rest := Seq (Star (Seq (chr 44%N) (times 3 digit)))
                  (Seq (chr 46%N) (times 2 digit)) in
  rmatch rest (fraction fp ++ trail) g k = Some x
  \/ rmatch rest (fraction fp ++ trail) g k = None.
Proof.
  intros Hc He Hk rest. unfold rest. rewrite rmatch_seq.
  destruct (numeral_tail_cases fp trail Hc He)
    as [[-> ->] | [(c & t & -> & -> & _ & H & H')
                  | (d1 & d2 & -> & H1 & H2)]];
    cbn [fraction app].
  - right. rewrite star_none; reflexivity.
  - right. rewrite star_none.
    + apply chr_fails, H.
    + intros k'. apply chr_fails, H'.
  - left. rewrite star_none.
    + rewrite fraction_matches by assumption. exact Hk.
    + intros k'. apply chr_fails. discriminate.
Qed.

(** The grouped form reads the whole numeral or fails. *)
Lemma grouped_settles (fp trail : text) (g : groups)
    (k : text -> groups -> option R) (x : R) :
  cents fp -> ends_numeral fp trail ->
  k trail g = Some x ->
  let rest := Seq (Star (Seq (chr 44%N) (times 3 digit)))
                  (Seq (chr 46%N) (times 2 digit)) in
  forall n ip, all_digits ip ->
    rmatch (Seq (at_most n digit) rest) (ip ++ fraction fp ++ trail) g k
      = Some x
    \/ rmatch (Seq (at_most n digit) rest) (ip ++ fraction fp ++ trail) g k
      = None.
Proof.
  intros Hc He Hk rest.
  assert (Hrest : forall ip, all_digits ip ->
            rmatch rest (ip ++ fraction fp ++ trail) g k = Some x
            \/ rmatch rest (ip ++ fraction fp ++ trail) g k = None).
  { intros [| d ip] Hip.
    - apply grouped_rest_tail; assumption.
    - right. apply grouped_rest_digit.
      apply all_digits_cons in Hip. apply Hip. }
  induction n as [| n IH]; intros ip Hip; cbn [at_most];
    rewrite rmatch_seq.
  - rewrite rmatch_empty. apply Hrest, Hip.
  - rewrite rmatch_opt.
    destruct ip as [| d ip].
    + rewrite digit_fails by (apply tail_not_digit; assumption).
      exact (Hrest [] eq_refl).
    + pose proof Hip as Hall.
      apply all_digits_cons in Hip. destruct Hip as [Hd Hip].
      cbn [app]. rewrite digit_takes by exact Hd.
      destruct (IH ip Hip) as [H | H]; rewrite rmatch_seq in H; rewrite H.
      * left. reflexivity.
      * exact (Hrest (d :: ip) Hall).
Qed.

(** Either form of the number reads the whole numeral. *)
Lemma number_forms_read (ip fp trail : text) (g : groups)
    (k : text -> groups -> option R) (x : R) :
  ip <> [] -> all_digits ip -> cents fp -> ends_numeral fp trail ->
  k trail g = Some x ->
  match rmatch (Seq (between 1 3 digit)
                  (Seq (Star (Seq (chr 44%N) (times 3 digit)))
                       (Seq (chr 46%N) (times 2 digit))))
          (ip ++ fraction fp ++ trail) g k with
  | Some y => Some y
  | None =>
      rmatch (Seq (plus digit) (Opt (Seq (chr 46%N) (times 2 digit))))
        (ip ++ fraction fp ++ trail) g k
  end = Some x.
Proof.
  intros Hne Hip Hc He Hk.
  rewrite (plain_reads ip fp trail g k x) by assumption.
  destruct ip as [| c ip]; [contradiction |].
  apply all_digits_cons in Hip. destruct Hip as [Hd Hip].
  cbn [app]. rewrite rmatch_grouped_digits, Hd.
  destruct (grouped_settles fp trail g k x Hc He Hk 2 ip Hip) as [H | H];
    rewrite H; reflexivity.
Qed.

Lemma firstn_consumed (a b : text) :
  firstn (List.length (a ++ b) - List.length b) (a ++ b) = a.
Proof.
  rewrite length_app, Nat.add_sub, firstn_app, Nat.sub_diag, firstn_all.
  cbn [firstn]. apply app_nil_r.
Qed.

(** The number of [MONEY_RE] at a plain numeral: group 2 records the
    numeral, and the match goes on after it. *)
Lemma number_re_reads (ip fp trail : text) (g : groups)
    (k : text -> groups -> option R) (x : R) :
  ip <> [] -> all_digits ip -> cents fp -> ends_numeral fp trail ->
  k trail ((2%nat, ip ++ fraction fp) :: g) = Some x ->
  rmatch number_re (ip ++ fraction fp ++ trail) g k = Some x.
Proof.
  intros Hne Hip Hc He Hk. unfold number_re.
  rewrite rmatch_group, rmatch_alt.
  apply number_forms_read; try assumption.
  rewrite app_assoc, firstn_consumed. exact Hk.
Qed.

End ReadingNumerals.

Section ReadingMoney.

Variable R : Type.

Lemma space_not_digit (c : char) : is_space c = true -> is_digit c = false.
Proof.
  intros H. destruct (is_digit c) eqn:E; [| reflexivity].
  apply digit_not_space in E. congruence.
Qed.

Lemma sign_not_digit (c : char) : currency_sign c = true -> is_digit c = false.
Proof.
  unfold currency_sign. intros H.
  apply orb_true_iff in H. destruct H as [H | H];
    [apply orb_true_iff in H; destruct H as [H | H] |];
    apply N.eqb_eq in H; subst; reflexivity.
Qed.

Lemma digit_not_sign (c : char) : is_digit c = true -> currency_sign c = false.
Proof.
  intros H. destruct (currency_sign c) eqn:E; [| reflexivity].
  apply sign_not_digit in E. congruence.
Qed.

Lemma spaces_no_digit (sp : text) : forallb is_space sp = true -> no_digit sp.
Proof.
  unfold no_digit. induction sp as [| c sp IH]; [reflexivity |].
  cbn [forallb existsb]. intros H. apply andb_true_iff in H.
  destruct H as [Hc H]. rewrite (space_not_digit c Hc), (IH H). reflexivity.
Qed.

(** The run of whitespace before the number takes whitespace only. *)
Lemma star_spaces (k : text -> groups -> option R) :
  forall n s g x,
    star_loop (rmatch (Class is_space)) k n s g = Some x ->
    exists sp s1, s = sp ++ s1 /\ forallb is_space sp = true
                  /\ k s1 g = Some x.
Proof.
  induction n as [| n IH]; intros s g x H; cbn [star_loop] in H.
  - exists [], s. repeat split. exact H.
  - destruct s as [| c s0].
    + exists [], []. repeat split. exact H.
    + rewrite rmatch_class in H. destruct (is_space c) eqn:Ec.
      * cbn [List.length] in H.
        rewrite (proj2 (Nat.ltb_lt _ _)) in H by lia.
        destruct (star_loop (rmatch (Class is_space)) k n s0 g) as [y |] eqn:E.
        -- injection H as <-. apply IH in E.
           destruct E as (sp & s1 & -> & Hsp & Hk).
           exists (c :: sp), s1. cbn [app forallb]. rewrite Ec, Hsp.
           repeat split. exact Hk.
        -- exists [], (c :: s0). repeat split. exact H.
      * exists [], (c :: s0). repeat split. exact H.
Qed.

Lemma chr_takes (a c : char) (rest : regex) (s : text) (g : groups)
    (k : text -> groups -> option R) (x : R) :
  rmatch (Seq (chr a) rest) (c :: s) g k = Some x ->
  c = a /\ rmatch rest s g k = Some x.
Proof.
  rewrite rmatch_seq. unfold chr. rewrite rmatch_class.
  destruct (N.eqb a c) eqn:E; [| discriminate].
  apply N.eqb_eq in E. intros H. split; [symmetry; exact E | exact H].
Qed.

(** Before the number [MONEY_RE] takes a currency sign and whitespace:
    no digit. *)
Lemma money_prefix (s : text) (g : groups) (k : text -> groups -> option R)
    (x : R) :
  rmatch MONEY_RE s g k = Some x ->
  exists pre s1 g1,
    s = pre ++ s1 /\ no_digit pre /\ rmatch number_re s1 g1 k = Some x.
Proof.
  assert (Hsp : forall s' g',
            rmatch (Seq (Star (Class is_space)) number_re) s' g' k = Some x ->
            exists sp s1, s' = sp ++ s1 /\ no_digit sp
                          /\ rmatch number_re s1 g' k = Some x).
  { intros s' g' H. rewrite rmatch_seq, rmatch_star in H.
    apply star_spaces in H. destruct H as (sp & s1 & -> & Hsp & H).
    exists sp, s1. split; [reflexivity |].
    split; [apply spaces_no_digit, Hsp | exact H]. }
  unfold MONEY_RE. rewrite rmatch_seq, rmatch_opt.
  match goal with
  | |- match ?first with _ => _ end = _ -> _ =>
      destruct first as [y |] eqn:E
  end.
  - intros H. injection H as ->. rewrite rmatch_group, rmatch_alt in E.
    match type of E with
    | match ?first with _ => _ end = _ => destruct first as [y |] eqn:E1
    end.
    + injection E as ->. destruct s as [| c s0]; [discriminate E1 |].
      rewrite rmatch_class in E1.
      destruct (currency_sign c) eqn:Ec; [| discriminate E1].
      apply Hsp in E1. destruct E1 as (sp & s1 & -> & Hd & H).
      exists (c :: sp), s1. eexists. split; [reflexivity |].
      split; [| exact H].
      unfold no_digit in *. cbn [existsb].
      rewrite (sign_not_digit c Ec), Hd. reflexivity.
    + change (lit (T "CA$"))
        with (Seq (chr 67%N) (Seq (chr 65%N) (Seq (chr 36%N) Empty))) in E.
      destruct s as [| c1 s]; [discriminate E |].
      apply chr_takes in E. destruct E as [-> E].
      destruct s as [| c2 s]; [discriminate E |].
      apply chr_takes in E. destruct E as [-> E].
      destruct s as [| c3 s]; [discriminate E |].
      apply chr_takes in E. destruct E as [-> E].
      rewrite rmatch_empty in E.
      apply Hsp in E. destruct E as (sp & s1 & -> & Hd & H).
      exists (67%N :: 65%N :: 36%N :: sp), s1. eexists.
      split; [reflexivity |]. split; [| exact H].
      unfold no_digit in *. cbn [existsb]. rewrite Hd. reflexivity.
  - intros H. apply Hsp in H. destruct H as (sp & s1 & -> & Hd & H).
    exists sp, s1, g. repeat split; assumption.
Qed.

Lemma number_re_head (s : text) (g : groups)
    (k : text -> groups -> option R) (x : R) :
  rmatch number_re s g k = Some x ->
  exists c s0, s = c :: s0 /\ is_digit c = true.
Proof.
  destruct s as [| c s0]; [discriminate |].
  unfold number_re.
  rewrite rmatch_group, rmatch_alt, rmatch_grouped_digits, rmatch_plain_digits.
  destruct (is_digit c) eqn:Hc; [| discriminate].
  intros _. exists c, s0. split; [reflexivity | exact Hc].
Qed.

(** At a digit [MONEY_RE] has no sign and no whitespace to take. *)
Lemma money_at_digit (c : char) (s0 : text) (g : groups)
    (k : text -> groups -> option R) :
  is_digit c = true ->
  rmatch MONEY_RE (c :: s0) g k = rmatch number_re (c :: s0) g k.
Proof.
  intros H. unfold MONEY_RE.
  rewrite rmatch_seq, rmatch_opt, rmatch_group, rmatch_alt, rmatch_class.
  rewrite (digit_not_sign c H).
  change (lit (T "CA$")) with (Seq (chr 67%N) (lit (T "A$"))).
  rewrite chr_fails by (intros ->; discriminate H).
  rewrite rmatch_seq, star_none; [reflexivity |].
  intros k'. rewrite rmatch_class, (digit_not_space c H). reflexivity.
Qed.

End ReadingMoney.

(** The first digit of a text is where it is. *)
Lemma first_digit_unique (a : text) :
  forall (b : text) (d d' : char) (x y : text),
    no_digit a -> no_digit b -> is_digit d = true -> is_digit d' = true ->
    a ++ d :: x = b ++ d' :: y ->
    a = b /\ d = d' /\ x = y.
Proof.
  induction a as [| a0 a IH]; intros [| b0 b] d d' x y Ha Hb Hd Hd' H;
    cbn [app] in H.
  - injection H as -> ->. repeat split.
  - injection H as -> _. apply no_digit_head in Hb. congruence.
  - injection H as -> _. apply no_digit_head in Ha. congruence.
  - injection H as -> H.
    apply IH in H; try assumption;
      [| eapply no_digit_tail, Ha | eapply no_digit_tail, Hb].
    destruct H as (-> & -> & ->). repeat split.
Qed.

(** Any match of [MONEY_RE] in a text without digits before a plain
    numeral records the numeral. *)
Lemma money_reads_numeral (lead ip fp trail : text) (m : groups) :
  no_digit lead -> ip <> [] -> all_digits ip -> cents fp ->
  ends_numeral fp trail ->
  rmatch MONEY_RE (lead ++ ip ++ fraction fp ++ trail) []
    (fun _ g => Some g) = Some m ->
  group 2 m = Some (ip ++ fraction fp).
Proof.
  intros Hlead Hne Hip Hc He H.
  apply money_prefix in H. destruct H as (pre & s1 & g1 & Hs & Hpre & H).
  destruct (number_re_head _ _ _ _ _ H) as (d' & y & -> & Hd').
  pose proof (number_re_reads groups ip fp trail g1 (fun _ g => Some g)
                ((2%nat, ip ++ fraction fp) :: g1) Hne Hip Hc He eq_refl)
    as Hn.
  destruct ip as [| c ip0]; [contradiction |].
  pose proof Hip as Hall. apply all_digits_cons in Hip.
  cbn [app] in Hs, Hn.
  apply first_digit_unique in Hs; try assumption; [| apply Hip].
  destruct Hs as (_ & <- & <-).
  rewrite H in Hn. injection Hn as ->. reflexivity.
Qed.

(** The search finds a match, and its group 2 is the numeral. *)
Lemma search_reads_numeral (ip fp trail : text) :
  ip <> [] -> all_digits ip -> cents fp -> ends_numeral fp trail ->
  forall lead, no_digit lead ->
    exists m,
      search MONEY_RE (lead ++ ip ++ fraction fp ++ trail) = Some m
      /\ group 2 m = Some (ip ++ fraction fp).
Proof.
  intros Hne Hip Hc He lead. induction lead as [| a lead IH]; intros Hlead.
  - exists [(2%nat, ip ++ fraction fp)]. split; [| reflexivity].
    pose proof (number_re_reads groups ip fp trail [] (fun _ g => Some g)
                  [(2%nat, ip ++ fraction fp)] Hne Hip Hc He eq_refl) as Hn.
    destruct ip as [| c ip0]; [contradiction |].
    apply all_digits_cons in Hip. destruct Hip as [Hd _].
    cbn [app] in *. cbn [search].
    rewrite money_at_digit, Hn by exact Hd. reflexivity.
  - cbn [app search].
    destruct (rmatch MONEY_RE (a :: lead ++ ip ++ fraction fp ++ trail) []
                (fun _ g => Some g)) as [m |] eqn:E.
    + exists m. split; [reflexivity |].
      apply (money_reads_numeral (a :: lead) ip fp trail m); assumption.
    + apply IH. eapply no_digit_tail, Hlead.
Qed.

(** ** The value of the numeral *)

Lemma numeral_chars (ip fp : text) :
  all_digits ip -> cents fp ->
  forall c, In c (ip ++ fraction fp) -> is_digit c = true \/ c = 46%N.
Proof.
  intros Hip Hc c Hin. apply in_app_or in Hin.
  unfold all_digits in *. rewrite forallb_forall in Hip.
  destruct Hin as [Hin | Hin]; [left; apply Hip, Hin |].
  destruct Hc as [-> | [_ Hfp]]; [destruct Hin |].
  unfold all_digits in Hfp. rewrite forallb_forall in Hfp.
  destruct fp as [| d fp]; [destruct Hin |].
  destruct Hin as [<- | Hin]; [right; reflexivity | left; apply Hfp, Hin].
Qed.

Lemma filter_keeps_all (A : Type) (p : A -> bool) (l : list A) :
  (forall a, In a l -> p a = true) -> filter p l = l.
Proof.
  induction l as [| a l IH]; intros H; [reflexivity |].
  cbn [filter]. rewrite (H a (or_introl eq_refl)).
  f_equal. apply IH. intros b Hb. apply H. right. exact Hb.
Qed.

Lemma drop_underscores_none (s : text) :
  (forall c, In c s -> c <> 95%N) ->
  forall prev, prev <> 95%N -> drop_underscores prev s = Some s.
Proof.
  induction s as [| c s IH]; intros H prev Hp; cbn [drop_underscores].
  - rewrite (proj2 (N.eqb_neq prev 95)) by exact Hp. reflexivity.
  - rewrite (proj2 (N.eqb_neq c 95)) by (apply H; left; reflexivity).
    rewrite (proj2 (N.eqb_neq prev 95)) by exact Hp. cbn [andb].
    rewrite IH; [reflexivity | | apply H; left; reflexivity].
    intros b Hb. apply H. right. exact Hb.
Qed.

Lemma span_digits_all (ip tl : text) :
  all_digits ip ->
  match tl with
  | [] => True
  | c :: _ => is_digit c = false
  end ->
  span_digits (ip ++ tl) = (ip, tl).
Proof.
  intros Hip Htl. induction ip as [| d ip IH]; cbn [app span_digits].
  - destruct tl as [| c t]; [reflexivity |].
    cbn [span_digits]. rewrite Htl. reflexivity.
  - apply all_digits_cons in Hip. destruct Hip as [Hd Hip].
    rewrite Hd, (IH Hip). reflexivity.
Qed.

Lemma parse_decimal_numeral (ip fp : text) :
  ip <> [] -> all_digits ip -> cents fp ->
  parse_decimal false (ip ++ fraction fp)
  = Some (float_of_decimal false (N_of_digits (ip ++ fp))
            (- Z.of_nat (List.length fp))).
Proof.
  intros Hne Hip Hc. unfold parse_decimal.
  rewrite span_digits_all;
    [| exact Hip
     | rewrite <- (app_nil_r (fraction fp)); apply tail_not_digit;
       [exact Hc | destruct fp; exact I]].
  assert (Hfp : match fraction fp with
                | 46%N :: r => span_digits r
                | _ => ([], fraction fp)
                end = (fp, [])).
  { destruct Hc as [-> | [Hlen Hfp]]; [reflexivity |].
    destruct fp as [| d fp]; [discriminate Hlen |].
    cbn [fraction]. rewrite <- (app_nil_r (d :: fp)) at 1.
    apply span_digits_all; [exact Hfp | exact I]. }
  rewrite Hfp. destruct ip as [| c ip]; [contradiction |].
  cbn [app parse_exponent]. rewrite Z.sub_0_l. reflexivity.
Qed.

Lemma lstrip_ascii_fixed (t : text) :
  (forall c rest, t = c :: rest -> is_ascii_space c = false) ->
  lstrip_ascii t = t.
Proof.
  intros H. destruct t as [| c rest]; [reflexivity |].
  cbn [lstrip_ascii]. rewrite (H c rest eq_refl). reflexivity.
Qed.

Lemma strip_ascii_fixed (t : text) :
  (forall c, In c t -> is_ascii_space c = false) -> strip_ascii t = t.
Proof.
  intros H. unfold strip_ascii. rewrite (lstrip_ascii_fixed t).
  - rewrite lstrip_ascii_fixed; [apply rev_involutive |].
    intros c rest E. apply H, in_rev. rewrite E. left. reflexivity.
  - intros c rest ->. apply H. left. reflexivity.
Qed.

Lemma py_float_numeral (ip fp : text) :
  ip <> [] -> all_digits ip -> cents fp ->
  py_float (ip ++ fraction fp)
  = Some (float_of_decimal false (N_of_digits (ip ++ fp))
            (- Z.of_nat (List.length fp))).
Proof.
  intros Hne Hip Hc. pose proof (numeral_chars ip fp Hip Hc) as Hch.
  unfold py_float, ascii_text.
  replace (forallb (fun a => N.ltb a 128) (ip ++ fraction fp)) with true.
  - rewrite strip_ascii_fixed.
    + rewrite drop_underscores_none.
      * rewrite <- (parse_decimal_numeral ip fp Hne Hip Hc).
        destruct ip as [| c ip]; [contradiction |].
        apply all_digits_cons in Hip. destruct Hip as [Hd _]. cbn [app].
        rewrite (parse_sign_digit c _ Hd).
        destruct (digit_first_no_word c (ip ++ fraction fp) Hd)
          as (-> & -> & ->).
        reflexivity.
      * intros c Hin. destruct (Hch c Hin) as [H | ->];
          [intros -> | ]; discriminate.
      * discriminate.
    + intros c Hin. destruct (Hch c Hin) as [H | ->];
        [apply digit_not_ascii_space, H | reflexivity].
  - symmetry. apply forallb_forall. intros c Hin.
    destruct (Hch c Hin) as [H | ->]; [each_digit H | reflexivity].
Qed.

(** X21: a plain numeral is read whole.  In a text with no digit before
    the numeral, where the numeral is digits with or without a point and
    two digits of cents, and a numeral without cents is followed by the
    end of the text or a character other than a digit, a point or a
    comma, the price is the float nearest to the numeral's value. *)
Theorem parse_price_number_reads_numeral (lead ip fp trail : text) :
  no_digit lead -> ip <> [] -> all_digits ip -> cents fp ->
  ends_numeral fp trail ->
  parse_price_number (lead ++ ip ++ fraction fp ++ trail)
  = Some (float_of_decimal false (N_of_digits (ip ++ fp))
            (- Z.of_nat (List.length fp))).
Proof.
  intros Hlead Hne Hip Hc He. unfold parse_price_number.
  assert (Hn : nonempty (lead ++ ip ++ fraction fp ++ trail) = true).
  { destruct lead; [| reflexivity].
    destruct ip; [contradiction | reflexivity]. }
  rewrite Hn. cbn [negb].
  destruct (search_reads_numeral ip fp trail Hne Hip Hc He lead Hlead)
    as (m & -> & ->).
  unfold remove_commas. rewrite filter_keeps_all.
  - apply py_float_numeral; assumption.
  - intros c Hin. destruct (numeral_chars ip fp Hip Hc c Hin) as [H | ->];
      [| reflexivity].
    apply negb_true_iff, N.eqb_neq, digit_not_a_comma, H.
Qed.

Lemma parse_price_number_reads_numeral_witness :
  parse_price_number (T "Now CA$ 1234.56 each")
  = Some (float_of_decimal false 123456 (-2)).
Proof.
  apply (parse_price_number_reads_numeral
           (T "Now CA$ ") (T "1234") (T "56") (T " each"));
    [reflexivity | discriminate | reflexivity
    | right; split; reflexivity | exact I].
Defined.

(* ================================================================= *)
(** * Titles, labels and currencies of the rows *)

Lemma first_title_tidy (soup : list node) (sels : list selector) (t : text) :
  first_title soup sels = Some t -> tidy t.
Proof.
  induction sels as [| sel rest IH]; cbn [first_title]; [discriminate |].
  destruct (select_one sel (of_soup soup)) as [el |]; [| exact IH].
  destruct (nonempty (clean_text (Some (get_text el)))); [| exact IH].
  intros H. injection H as <-.
  exact (clean_text_normal_form (Some (get_text el))).
Qed.

Lemma extract_title_tidy (soup : list node) : tidy (extract_title soup).
Proof.
  unfold extract_title.
  destruct (first_title soup title_selectors) as [t |] eqn:E.
  - eapply first_title_tidy, E.
  - destruct (select_one _ (of_soup soup)) as [og |]; [| apply tidy_nil].
    destruct (attr (T "content") og) as [c |]; [| apply tidy_nil].
    apply clean_text_normal_form.
Qed.

Lemma name_of_tidy (obj : list (text * json)) (t : text) :
  name_of obj = Ok t -> tidy t.
Proof.
  unfold name_of. destruct (jget (T "name") obj) as [j |].
  - destruct j as [| b | z | f | s | l | m];
      try (intros H; injection H as <-;
           exact (clean_text_normal_form (Some s)));
      destruct (json_truthy _); intros H; try discriminate H;
      injection H as <-; apply tidy_nil.
  - intros H. injection H as <-. apply tidy_nil.
Qed.

Lemma price_by_selectors_label (soup : list node)
    (sels : list (text * selector)) (pv : option float) (cur src : text) :
  price_by_selectors soup sels = (pv, cur, src) ->
  cur = [] /\ (pv = None \/ In src (map fst sels)).
Proof.
  induction sels as [| [name sel] rest IH]; cbn [price_by_selectors].
  - intros H. injection H as <- <- _. split; [reflexivity | left; reflexivity].
  - destruct (first_price (select sel (of_soup soup))) as [v |].
    + intros H. injection H as _ <- <-.
      split; [reflexivity | right; left; reflexivity].
    + intros H. apply IH in H. destruct H as [Hc [H | H]].
      * split; [exact Hc | left; exact H].
      * split; [exact Hc | right; right; exact H].
Qed.

(** [extract_price] names no currency, and labels each price it finds. *)
Lemma extract_price_label (soup : list node) (pv : option float)
    (cur src : text) :
  extract_price soup = (pv, cur, src) ->
  cur = [] /\ (pv = None \/ In src dom_price_labels).
Proof.
  unfold extract_price, dom_price_labels.
  destruct (price_amount_of (of_soup soup)) as [v |].
  - intros H. injection H as _ <- <-.
    split; [reflexivity | right; left; reflexivity].
  - intros H. apply price_by_selectors_label in H.
    destruct H as [Hc [H | H]].
    + split; [exact Hc | left; exact H].
    + split; [exact Hc | right; right; exact H].
Qed.

Lemma dom_label_other (src : text) :
  In src dom_price_labels ->
  src <> T "product" /\ src <> T "error".
Proof.
  intros H.
  assert (E : forallb (fun l => negb (text_eqb l (T "product"))
                                && negb (text_eqb l (T "error")))
                dom_price_labels = true) by reflexivity.
  rewrite forallb_forall in E. specialize (E src H).
  apply andb_true_iff in E. destruct E as [E1 E2].
  apply negb_true_iff in E1, E2.
  split; intros ->; [rewrite text_eqb_refl in E1 | rewrite text_eqb_refl in E2];
    discriminate.
Qed.

(** What the structured data passes on. *)
Lemma structured_labels (P : platform) (html : list node)
    (title : text) (pv : option float) (currency : option json)
    (source : text) :
  match find_jsonld_products P html with
  | obj :: _ =>
      title <- name_of obj ;;
      match price_from_offers P
              (match jget (T "offers") obj with Some o => o | None => JNull end) with
      | (Some pv, cur) => Ok (title, Some pv, cur, T "jsonld")
      | (None, _) => Ok (title, None, None, T "product")
      end
  | [] => Ok ([], None, None, T "product")
  end = Ok (title, pv, currency, source) ->
  tidy title
  /\ match pv with
     | Some _ => source = T "jsonld"
     | None => source = T "product" /\ currency = None
     end.
Proof.
  intros H. destruct (find_jsonld_products P html) as [| obj rest].
  - injection H as <- <- <- <-. split; [apply tidy_nil | split; reflexivity].
  - destruct (name_of obj) as [t | e] eqn:En; cbn [bind] in H;
      [| discriminate H].
    apply name_of_tidy in En.
    destruct (price_from_offers P _) as [[v |] cur];
      injection H as <- <- <- <-; (split; [exact En |]);
      [reflexivity | split; reflexivity].
Qed.

(** The row of a product page: its title is in normal form; its label is
    [jsonld] with a price from the structured data, or one of
    [extract_price] with a price from the page, or [product] with no price;
    in the last two cases the currency is the host's. *)
Lemma scrape_product_labels (P : platform) (final_url : text)
    (html : list node) (rules : Rules) (items : list Item) :
  scrape_product P final_url html rules = Ok items ->
  exists it,
    items = [it]
    /\ tidy (title it)
    /\ ((source it = T "jsonld" /\ exists v, price_value it = Some v)
        \/ (price_currency it = Some (JStr (host_currency (site it)))
            /\ ((source it = T "product" /\ price_value it = None)
                \/ (In (source it) dom_price_labels
                    /\ exists v, price_value it = Some v)))).
Proof.
  unfold scrape_product. intros H.
  destruct (hostname P final_url) as [host | e]; cbn [bind] in H;
    [| discriminate H].
  match type of H with
  | bind ?x _ = _ =>
      destruct x as [[[[t0 pv] currency] lbl] | e] eqn:Eld;
      cbn [bind] in H; [| discriminate H]
  end.
  apply structured_labels in Eld. destruct Eld as [Ht Hld].
  assert (Htitle : tidy (if nonempty t0 then t0 else extract_title html)).
  { destruct (nonempty t0); [exact Ht | apply extract_title_tidy]. }
  clear Ht.
  destruct pv as [v |]; cbv beta iota zeta in H.
  - cbn [apply_rules] in H.
    destruct (fmt_price_of (Some _) currency host) as [d | e] in H;
      cbn [bind] in H; [| discriminate H].
    destruct (fmt_price_of (Some v) currency host) as [o | e] in H;
      cbn [bind] in H; [| discriminate H].
    injection H as <-. eexists.
    cbn [title source price_value price_currency site].
    split; [reflexivity |]. split; [exact Htitle |].
    left. split; [exact Hld | exists v; reflexivity].
  - destruct Hld as [-> ->].
    destruct (extract_price html) as [[pv cur] src] eqn:Ep.
    apply extract_price_label in Ep. destruct Ep as [-> Hsrc].
    destruct pv as [v |]; cbv beta iota zeta in H.
    + cbn [apply_rules] in H.
      destruct (fmt_price_of (Some _) _ host) as [d | e] in H;
        cbn [bind] in H; [| discriminate H].
      destruct (fmt_price_of (Some v) _ host) as [o | e] in H;
        cbn [bind] in H; [| discriminate H].
      injection H as <-. eexists.
      cbn [title source price_value price_currency site present nonempty
           currency_or_host].
      split; [reflexivity |]. split; [exact Htitle |].
      right. split; [reflexivity |]. right.
      destruct Hsrc as [Hsrc | Hsrc]; [discriminate Hsrc |].
      split; [exact Hsrc | exists v; reflexivity].
    + cbn [apply_rules fmt_price_of bind] in H. injection H as <-. eexists.
      cbn [title source price_value price_currency site present nonempty
           currency_or_host].
      split; [reflexivity |]. split; [exact Htitle |].
      right. split; [reflexivity |]. left. split; reflexivity.
Qed.

(** X22: the title of every row that a batch returns is in normal form:
    no whitespace at either end, and single spaces inside. *)
Theorem titles_are_clean (P : platform) (w : world P)
    (data : Request) (w' : world P) (items : list Item) :
  api_scrape P w data = (w', Ok items) ->
  Forall (fun it => tidy (title it)) items.
Proof.
  apply api_scrape_rows.
  - intros final_url html rules its H.
    apply scrape_product_labels in H. destruct H as (it & -> & Ht & _).
    constructor; [exact Ht | constructor].
  - intros final_url host pct off card its H.
    apply scrape_card_fields in H.
    destruct H as [[_ ->] | (a & it & _ & -> & _ & _ & Ht & _)];
      [constructor |].
    constructor; [| constructor]. rewrite Ht. apply clean_text_normal_form.
  - intros u s msg. apply tidy_nil.
Qed.

Lemma titles_are_clean_witness :
  Forall (fun it => tidy (title it))
    (items_of (snd (api_scrape shop [] mixed_batch))).
Proof.
  eapply (titles_are_clean shop [] mixed_batch
            (fst (api_scrape shop [] mixed_batch))).
  vm_compute. reflexivity.
Defined.

(** X23: in every row that a batch returns the label tells whether there
    is a price: a row labelled [product] or [error] has none, and a row
    without a price is labelled [product], [error] or [category-card]. *)
Theorem source_label_tells_price (P : platform) (w : world P)
    (data : Request) (w' : world P) (items : list Item) :
  api_scrape P w data = (w', Ok items) ->
  Forall source_tells_price items.
Proof.
  apply api_scrape_rows.
  - intros final_url html rules its H.
    apply scrape_product_labels in H.
    destruct H as (it & -> & _ & [[Hs [v Hv]] | [_ [[Hs Hv] | [Hs [v Hv]]]]]);
      (constructor; [| constructor]); split.
    + rewrite Hs. intros [E | E]; discriminate E.
    + rewrite Hv. discriminate.
    + intros _. exact Hv.
    + intros _. left. exact Hs.
    + apply dom_label_other in Hs. destruct Hs as [H1 H2].
      intros [E | E]; contradiction.
    + rewrite Hv. discriminate.
  - intros final_url host pct off card its H.
    apply scrape_card_fields in H.
    destruct H as [[_ ->] | (a & it & _ & -> & _ & _ & _ & Hs & _)];
      [constructor |].
    constructor; [| constructor]. split.
    + rewrite Hs. intros [E | E]; discriminate E.
    + intros _. right. right. exact Hs.
  - intros u s msg. split; [reflexivity |].
    intros _. right. left. reflexivity.
Qed.

Lemma source_label_tells_price_witness :
  Forall source_tells_price
    (items_of (snd (api_scrape shop [] mixed_batch))).
Proof.
  eapply (source_label_tells_price shop [] mixed_batch
            (fst (api_scrape shop [] mixed_batch))).
  vm_compute. reflexivity.
Defined.

(** X24: in every row that a batch returns, unless the price comes from
    structured data (label [jsonld]) or the row is an error row, the
    currency is the one that the row's host name stands for. *)
Theorem currency_follows_host (P : platform) (w : world P)
    (data : Request) (w' : world P) (items : list Item) :
  api_scrape P w data = (w', Ok items) ->
  Forall host_currency_unless_structured items.
Proof.
  apply api_scrape_rows.
  - intros final_url html rules its H.
    apply scrape_product_labels in H.
    destruct H as (it & -> & _ & [[Hs _] | [Hc _]]);
      (constructor; [| constructor]); intros Hj He.
    + contradiction.
    + exact Hc.
  - intros final_url host pct off card its H.
    apply scrape_card_fields in H.
    destruct H as [[_ ->] | (a & it & _ & -> & _ & Hh & _ & _ & Hc & _)];
      [constructor |].
    constructor; [| constructor]. intros _ _. rewrite Hh. exact Hc.
  - intros u s msg _ He. exfalso. apply He. reflexivity.
Qed.

Lemma currency_follows_host_witness :
  Forall host_currency_unless_structured
    (items_of (snd (api_scrape shop [] mixed_batch))).
Proof.
  eapply (currency_follows_host shop [] mixed_batch
            (fst (api_scrape shop [] mixed_batch))).
  vm_compute. reflexivity.
Defined.

(* ================================================================= *)
(** * A failed page ends the walk *)

Lemma card_rows_labelled (P : platform) (final_url : text) (html : list node)
    (rules : Rules) (items : list Item) :
  scrape_category_page P final_url html rules = Ok items ->
  Forall (fun it => source it = T "category-card") items.
Proof.
  apply category_page_rows.
  intros u host pct off card its H. apply scrape_card_fields in H.
  destruct H as [[_ ->] | (a & it & _ & -> & _ & _ & _ & Hs & _)];
    constructor; [exact Hs | constructor].
Qed.

(** The rows of a walk are card rows, but for a last row that may report a
    failed fetch. *)
Lemma crawl_pages_error_last (P : platform) (rules : Rules) (delay_ms : Z)
    (budget : nat) :
  forall w items seen u w' out,
    Forall (fun it => source it = T "category-card") items ->
    crawl_pages P budget w items seen u rules delay_ms = (w', Ok out) ->
    Forall (fun it => source it = T "category-card") out
    \/ exists front e,
         out = front ++ [e]
         /\ Forall (fun it => source it = T "category-card") front.
Proof.
  induction budget as [| budget IH]; intros w items seen u w' out Hitems H;
    cbn [crawl_pages] in H.
  - injection H as _ <-. left. exact Hitems.
  - destruct (negb (nonempty u)); [injection H as _ <-; left; exact Hitems |].
    destruct (get_html_safe P w u delay_ms)
      as [w1 [[final_url html | msg] | e]]; [| | discriminate H].
    + destruct (scrape_category_page P final_url html rules)
        as [page_items | e] eqn:Epage; cbn [bind] in H; [| discriminate H].
      destruct (find_next_page_url P html final_url) as [nxt | e];
        cbn [bind] in H; [| discriminate H].
      assert (Hall : Forall (fun it => source it = T "category-card")
                       (items ++ page_items)).
      { apply Forall_app. split; [exact Hitems |].
        eapply card_rows_labelled, Epage. }
      destruct nxt as [n |].
      * destruct (nonempty n && negb (mem n (final_url :: seen))).
        -- eapply IH; [exact Hall | exact H].
        -- injection H as _ <-. left. exact Hall.
      * injection H as _ <-. left. exact Hall.
    + destruct (hostname P u) as [s | e]; cbn [bind] in H;
        [injection H as _ <- | discriminate H].
      right. eexists. eexists. split; [reflexivity | exact Hitems].
Qed.

Lemma before_the_last (A : Type) (front : list A) :
  forall (l : list A) (x e : A) (back : list A),
    front ++ x :: back = l ++ [e] -> back = [] \/ In x l.
Proof.
  induction front as [| a front IH]; intros [| b l] x e back H;
    cbn [app] in H.
  - injection H as _ ->. left. reflexivity.
  - injection H as -> _. right. left. reflexivity.
  - injection H as _ H. destruct front; discriminate H.
  - injection H as _ H. apply IH in H.
    destruct H as [H | H]; [left; exact H | right; right; exact H].
Qed.

(** X25: a walk over the pages of a category reports a failed fetch in
    its last row only: the failure ends the walk, so that there is at most
    one error row and nothing follows it. *)
Theorem walker_error_row_last (P : platform) (w w' : world P)
    (start_url : text) (rules : Rules) (max_pages delay_ms : Z)
    (out : list Item) :
  scrape_category_all_pages P w start_url rules max_pages delay_ms
    = (w', Ok out) ->
  error_only_last out.
Proof.
  unfold scrape_category_all_pages. intros H.
  apply crawl_pages_error_last in H; [| constructor].
  intros front it back E Hs.
  assert (Hcard : forall l, Forall (fun it => source it = T "category-card") l ->
                            In it l -> False).
  { intros l Hl Hin. rewrite Forall_forall in Hl.
    apply Hl in Hin. rewrite Hs in Hin. discriminate Hin. }
  destruct H as [H | (l & e & -> & H)].
  - exfalso. apply (Hcard out H). rewrite E.
    apply in_or_app. right. left. reflexivity.
  - symmetry in E. apply before_the_last in E.
    destruct E as [E | E]; [exact E |].
    exfalso. exact (Hcard l H E).
Qed.

Lemma walker_error_row_last_witness :
  error_only_last
    (items_of (snd (scrape_category_all_pages torn_shop [] listing_1
                      no_rules 3 400))).
Proof.
  eapply (walker_error_row_last torn_shop []
            (fst (scrape_category_all_pages torn_shop [] listing_1
                    no_rules 3 400))
            listing_1 no_rules 3 400).
  vm_compute. reflexivity.
Defined.
